(** * lets-play audit tools: [tools/audit_fill.py] and [tools/audit_qna.py]

    A shallow embedding of the two command-line tools and the properties
    their specification states about them.

    Python values are modelled as they come out of [json.load]: a tagged
    union of None, bools, ints, floats, strings, lists and insertion-ordered
    dictionaries.  Strings are sequences of Unicode code points.  Exceptions
    are an explicit error result. *)

From Stdlib Require Import Floats.SpecFloat.
From stdpp Require Import gmap list strings pretty.

(** ** Strings *)

(** A Python [str]: a sequence of code points. *)
Abbreviation pystr := (list N).

(** ASCII literals of the source, as code point sequences. *)
Definition lit (s : string) : pystr :=
  (λ a, Ascii.N_of_ascii a) <$> String.list_ascii_of_string s.

(** [str.isspace] on one code point, as used by [str.strip()] and
    [str.split()] without arguments. *)
Definition is_space (c : N) : bool :=
  (   ((9 <=? c) && (c <=? 13))
   || ((28 <=? c) && (c <=? 32))
   || (c =? 133) || (c =? 160) || (c =? 5760)
   || ((8192 <=? c) && (c <=? 8202))
   || (c =? 8232) || (c =? 8233) || (c =? 8239) || (c =? 8287)
   || (c =? 12288))%N.

Fixpoint lstrip (s : pystr) : pystr :=
  match s with
  | [] => []
  | c :: s' => if is_space c then lstrip s' else s
  end.

Definition rstrip (s : pystr) : pystr := reverse (lstrip (reverse s)).

(** [s.strip()] *)
Definition strip (s : pystr) : pystr := rstrip (lstrip s).

(** [s.split()]: the maximal runs of non-whitespace, in order.  [cur] holds
    the run being read, last character first. *)
Fixpoint split_from (cur : pystr) (s : pystr) : list pystr :=
  match s with
  | [] => if cur is [] then [] else [reverse cur]
  | c :: s' =>
      if is_space c
      then (if cur is [] then split_from [] s' else reverse cur :: split_from [] s')
      else split_from (c :: cur) s'
  end.

Definition split (s : pystr) : list pystr := split_from [] s.

(** [sep.join(parts)] *)
Fixpoint join (sep : pystr) (parts : list pystr) : pystr :=
  match parts with
  | [] => []
  | [p] => p
  | p :: ps => p ++ sep ++ join sep ps
  end.

(** [str.lower] on ASCII text; the instance of [str.lower] used for the
    concrete runs below, whose questions are ASCII. *)
Definition ascii_lower (s : pystr) : pystr :=
  (λ c, if (65 <=? c) && (c <=? 90) then c + 32 else c)%N <$> s.

(** ** Values *)

#[warnings="-register-all"]
Inductive json : Type :=
  | JNull
  | JBool (b : bool)
  | JInt (z : Z)
  | JFloat (f : spec_float)
  | JStr (s : pystr)
  | JArr (l : list json)
  | JObj (d : list (pystr * json)).

(** A Python [dict] with string keys, in insertion order. *)
Abbreviation dict := (list (pystr * json)).

Fixpoint dict_get (k : pystr) (d : dict) : option json :=
  match d with
  | [] => None
  | (k', v) :: d' => if decide (k = k') then Some v else dict_get k d'
  end.

(** [d[k] = v]: an existing key keeps its position, a new key goes last. *)
Fixpoint dict_set (k : pystr) (v : json) (d : dict) : dict :=
  match d with
  | [] => [(k, v)]
  | (k', v') :: d' =>
      if decide (k = k') then (k, v) :: d' else (k', v') :: dict_set k v d'
  end.

(** Truth value of a Python object. *)
Definition truthy (v : json) : bool :=
  match v with
  | JNull => false
  | JBool b => b
  | JInt z => negb (Z.eqb z 0)
  | JFloat f => match f with S754_zero _ => false | _ => true end
  | JStr s => if s is [] then false else true
  | JArr l => if l is [] then false else true
  | JObj d => if d is [] then false else true
  end.

(** [a or b] *)
Definition py_or (a b : json) : json := if truthy a then a else b.

(** ** Exceptions *)

Inductive exn : Type :=
  | AttributeError
  | TypeError
  | KeyError
  | EOFError
  | FileNotFoundError
  | JSONDecodeError
  | ValueError
  | RecursionError
  | UnicodeDecodeError
  | UnicodeEncodeError.

Inductive result (A : Type) : Type :=
  | Ok (a : A)
  | Err (e : exn).
Arguments Ok {A} a.
Arguments Err {A} e.

(** Sequencing: an exception ends the computation. *)
Definition rbind {A B : Type} (m : result A) (k : A → result B) : result B :=
  match m with Ok a => k a | Err e => Err e end.

Notation "'let*' x ':=' m 'in' k" := (rbind m (λ x, k))
  (at level 10, x name, m at level 100, k at level 200, only parsing).

(** [it.get(k, dflt)]: only dictionaries have a [get]. *)
Definition py_get (it : json) (k : pystr) (dflt : json) : result json :=
  match it with
  | JObj d => Ok (default dflt (dict_get k d))
  | _ => Err AttributeError
  end.

(** [v.strip()]: only strings have a [strip]. *)
Definition py_strip (v : json) : result pystr :=
  match v with
  | JStr s => Ok (strip s)
  | _ => Err AttributeError
  end.

Definition k_question : pystr := lit "question".
Definition k_answer : pystr := lit "answer".
Definition k_optional : pystr := lit "optional".

(** ** The deduplicator ([audit_fill.dedupe]) *)

Section Dedupe.

(** [str.lower], the Unicode lower-casing of the Python runtime. *)
Variable lower : pystr → pystr.

(** [' '.join(q.lower().split())] *)
Definition norm (q : pystr) : pystr := join (lit " ") (split (lower q)).

(** The normalization key of a question: [norm] of the stripped text. *)
Definition norm_key (question : pystr) : pystr := norm (strip question).

(** [{'question': q, 'answer': a, 'optional': o}] *)
Definition mk_obj (q : pystr) (a o : json) : dict :=
  [(k_question, JStr q); (k_answer, a); (k_optional, o)].

(** The body of the [if key in seen] branch, on the kept object [prev];
    [a] is [it.get('answer')], [o] is [it.get('optional', False)]. *)
Definition merge (a o : json) (prev : dict) : dict :=
  let prev1 :=
    if negb (truthy (default JNull (dict_get k_answer prev))) && truthy a
    then dict_set k_answer a prev
    else prev in
  dict_set k_optional
    (py_or (default (JBool false) (dict_get k_optional prev1)) o) prev1.

(** The loop state.  [out] is the list of kept objects; [seen] maps a key
    to the object kept for it.  The object is shared between [seen] and
    [out], so [seen] holds its position in [out] and a merge updates
    [out] in place. *)
Definition dstate : Type := gmap pystr nat * list dict.

Definition dedupe_step (st : dstate) (it : json) : result dstate :=
  let* q0 := py_get it k_question (JStr []) in
  let* q := py_strip q0 in
  let key := norm q in
  if bool_decide (key = []) then Ok st
  else match st.1 !! key with
       | Some i =>
           let* a := py_get it k_answer JNull in
           let* o := py_get it k_optional (JBool false) in
           Ok (st.1, alter (merge a o) i st.2)
       | None =>
           let* a := py_get it k_answer (JStr []) in
           let* o := py_get it k_optional (JBool false) in
           Ok (<[key := length st.2]> st.1, st.2 ++ [mk_obj q a o])
       end.

Fixpoint dedupe_loop (st : dstate) (items : list json) : result dstate :=
  match items with
  | [] => Ok st
  | it :: rest => let* st' := dedupe_step st it in dedupe_loop st' rest
  end.

Definition dedupe (items : list json) : result (list json) :=
  let* st := dedupe_loop (∅, []) items in Ok (JObj <$> st.2).

(** The key [dedupe_step] computes for an item. *)
Definition item_key (it : json) : result pystr :=
  let* q0 := py_get it k_question (JStr []) in
  let* q := py_strip q0 in
  Ok (norm q).

(** The same, with the empty key for an item that has none. *)
Definition key_of (it : json) : pystr :=
  match item_key it with Ok k => k | Err _ => [] end.

(** Position of the first item of [items] whose key is [k]. *)
Definition first_pos (k : pystr) (items : list json) : option nat :=
  fst <$> list_find (λ it, key_of it = k) items.

(** A kept object: built by [mk_obj] from a stripped question with a
    non-empty key. *)
Definition kept (d : dict) : Prop :=
  ∃ q a o, d = mk_obj q a o ∧ strip q = q ∧ norm q ≠ [].

(** [seen] and [out] describe the same objects: [seen] sends exactly the
    keys of the kept objects to their positions. *)
Definition wf_state (st : dstate) : Prop :=
  Forall kept st.2 ∧
  ∀ k i, st.1 !! k = Some i ↔ ((λ d, key_of (JObj d)) <$> st.2) !! i = Some k.

(** The object kept for key [k], if any: [seen.get(k)]. *)
Definition rec_for (k : pystr) (st : dstate) : option dict :=
  match st.1 !! k with Some i => st.2 !! i | None => None end.

(** An item that has a key, and not the key [k]. *)
Definition other_key (k : pystr) (it : json) : Prop :=
  ∃ k', item_key it = Ok k' ∧ k' ≠ k.

(** [st] is what the loop builds from the items [pre]: the kept keys are
    the non-empty keys of [pre], they come in the order of their first
    occurrences in [pre], and each kept object carries the stripped
    question of the first item with its key. *)
Definition tracks (pre : list json) (st : dstate) : Prop :=
  let oks := (λ d, key_of (JObj d)) <$> st.2 in
  (∀ k, k ∈ oks ↔ k ≠ [] ∧ k ∈ key_of <$> pre) ∧
  (∀ i j ki kj pi pj,
      oks !! i = Some ki → oks !! j = Some kj →
      first_pos ki pre = Some pi → first_pos kj pre = Some pj →
      i < j → pi < pj) ∧
  (∀ i d, st.2 !! i = Some d →
      ∃ p d0 q0,
        first_pos (key_of (JObj d)) pre = Some p ∧
        pre !! p = Some (JObj d0) ∧
        default (JStr []) (dict_get k_question d0) = JStr q0 ∧
        dict_get k_question d = Some (JStr (strip q0))).

End Dedupe.

(** A Record of the Collection: question text, answer, optional flag. *)
Definition record : Type := pystr * json * json.

(** The object [dedupe] builds for a record. *)
Definition record_json (r : record) : json := JObj (mk_obj r.1.1 r.1.2 r.2).

(** A parsed object with the defaults of the data model written in: an
    absent [answer] becomes the empty string, an absent [optional] becomes
    false. *)
Definition with_defaults (d : dict) : dict :=
  let d1 := if dict_get k_answer d is None then dict_set k_answer (JStr []) d else d in
  if dict_get k_optional d1 is None then dict_set k_optional (JBool false) d1 else d1.

(** ** Text encoding ([encoding='utf-8']) *)

Definition byte_of (n : N) : Byte.byte := default Byte.x00 (Byte.of_N n).

(** The UTF-8 bytes of one code point.  The codec is strict: a surrogate
    code point (U+D800 to U+DFFF) cannot be encoded. *)
Definition encode_cp (c : N) : option (list Byte.byte) :=
  (if c <? 0x80 then Some [byte_of c]
   else if c <? 0x800 then
     Some [byte_of (N.lor 0xC0 (N.shiftr c 6));
           byte_of (N.lor 0x80 (N.land c 0x3F))]
   else if (0xD800 <=? c) && (c <=? 0xDFFF) then None
   else if c <? 0x10000 then
     Some [byte_of (N.lor 0xE0 (N.shiftr c 12));
           byte_of (N.lor 0x80 (N.land (N.shiftr c 6) 0x3F));
           byte_of (N.lor 0x80 (N.land c 0x3F))]
   else if c <? 0x110000 then
     Some [byte_of (N.lor 0xF0 (N.shiftr c 18));
           byte_of (N.lor 0x80 (N.land (N.shiftr c 12) 0x3F));
           byte_of (N.lor 0x80 (N.land (N.shiftr c 6) 0x3F));
           byte_of (N.lor 0x80 (N.land c 0x3F))]
   else None)%N.

(** The code points the codec accepts: up to U+10FFFF, surrogates
    excluded. *)
Definition encodable (c : N) : Prop :=
  (c < 0x110000)%N ∧ ¬ (0xD800 ≤ c ≤ 0xDFFF)%N.

#[global] Instance encodable_dec c : Decision (encodable c).
Proof. unfold encodable. apply _. Defined.

(** [s.encode('utf-8')]; [None] stands for [UnicodeEncodeError]. *)
Definition utf8_encode (s : pystr) : option (list Byte.byte) :=
  (λ chunks, concat chunks) <$> mapM encode_cp s.

Definition in_range (lo hi : N) (b : Byte.byte) : bool :=
  (lo <=? Byte.to_N b)%N && (Byte.to_N b <=? hi)%N.

Definition low6 (b : Byte.byte) : N := N.land (Byte.to_N b) 0x3F.

(** [bs.decode('utf-8')]; [None] stands for [UnicodeDecodeError].  Overlong
    forms, surrogates and truncated sequences are rejected. *)
Fixpoint utf8_decode (bs : list Byte.byte) : option pystr :=
  match bs with
  | [] => Some []
  | b0 :: r0 =>
      let n0 := Byte.to_N b0 in
      if (n0 <? 0x80)%N then cons n0 <$> utf8_decode r0
      else if in_range 0xC2 0xDF b0 then
        match r0 with
        | b1 :: r1 =>
            if in_range 0x80 0xBF b1
            then cons (N.lor (N.shiftl (N.land n0 0x1F) 6) (low6 b1))
                   <$> utf8_decode r1
            else None
        | _ => None
        end
      else if in_range 0xE0 0xEF b0 then
        match r0 with
        | b1 :: b2 :: r2 =>
            let lo := if (n0 =? 0xE0)%N then 0xA0%N else 0x80%N in
            let hi := if (n0 =? 0xED)%N then 0x9F%N else 0xBF%N in
            if in_range lo hi b1 && in_range 0x80 0xBF b2
            then cons (N.lor (N.shiftl (N.land n0 0x0F) 12)
                         (N.lor (N.shiftl (low6 b1) 6) (low6 b2)))
                   <$> utf8_decode r2
            else None
        | _ => None
        end
      else if in_range 0xF0 0xF4 b0 then
        match r0 with
        | b1 :: b2 :: b3 :: r3 =>
            let lo := if (n0 =? 0xF0)%N then 0x90%N else 0x80%N in
            let hi := if (n0 =? 0xF4)%N then 0x8F%N else 0xBF%N in
            if in_range lo hi b1 && in_range 0x80 0xBF b2 && in_range 0x80 0xBF b3
            then cons (N.lor (N.shiftl (N.land n0 0x07) 18)
                         (N.lor (N.shiftl (low6 b1) 12)
                            (N.lor (N.shiftl (low6 b2) 6) (low6 b3))))
                   <$> utf8_decode r3
            else None
        | _ => None
        end
      else None
  end.

(** Reading in text mode turns the line endings CR LF and CR into LF. *)
Fixpoint universal_newlines (s : pystr) : pystr :=
  match s with
  | [] => []
  | c :: r =>
      if (c =? 13)%N then
        10%N :: match r with
                | c' :: r' =>
                    if (c' =? 10)%N then universal_newlines r'
                    else universal_newlines r
                | [] => []
                end
      else c :: universal_newlines r
  end.

(** ** Serialization ([json.dump(data, f, ensure_ascii=False, indent=2)]) *)

Definition hex_digit (n : N) : N := (if n <? 10 then 48 + n else 87 + n)%N.

(** One character inside a JSON string.  Only the quote, the backslash and
    the control characters below U+0020 are escaped. *)
Definition esc_char (c : N) : pystr :=
  (if c =? 34 then [92; 34]
   else if c =? 92 then [92; 92]
   else if c =? 10 then [92; 110]
   else if c =? 13 then [92; 114]
   else if c =? 9 then [92; 116]
   else if c =? 8 then [92; 98]
   else if c =? 12 then [92; 102]
   else if c <? 32 then lit "\u00" ++ [hex_digit (c / 16); hex_digit (c mod 16)]
   else [c])%N.

Definition enc_str (s : pystr) : pystr := [34%N] ++ flat_map esc_char s ++ [34%N].

(** A line break followed by the indentation of nesting level [lvl]. *)
Definition newline_indent (lvl : nat) : pystr := 10%N :: replicate (2 * lvl) 32%N.

Section Serialize.

(** [float.__repr__], with [NaN], [Infinity] and [-Infinity] for the
    non-finite values. *)
Variable float_repr : spec_float → pystr.

(** The text of [v] at nesting level [lvl]. *)
Fixpoint enc (lvl : nat) (v : json) : pystr :=
  match v with
  | JNull => lit "null"
  | JBool true => lit "true"
  | JBool false => lit "false"
  | JInt z => lit (pretty z)
  | JFloat f => float_repr f
  | JStr s => enc_str s
  | JArr l =>
      if l is [] then lit "[]"
      else lit "[" ++ newline_indent (S lvl)
           ++ join (lit "," ++ newline_indent (S lvl)) (enc (S lvl) <$> l)
           ++ newline_indent lvl ++ lit "]"
  | JObj d =>
      if d is [] then lit "{}"
      else lit "{" ++ newline_indent (S lvl)
           ++ join (lit "," ++ newline_indent (S lvl))
                ((λ kv, enc_str kv.1 ++ lit ": " ++ enc (S lvl) kv.2) <$> d)
           ++ newline_indent lvl ++ lit "}"
  end.

(** [json.dumps(v, ensure_ascii=False, indent=2)] *)
Definition dumps (v : json) : pystr := enc 0 v.

(** The text [enc] gives for the object of a record, inside an array at
    the top level, and for the array of such objects. *)
Definition layout_record (r : record) : pystr :=
  lit "{" ++ newline_indent 2
  ++ (enc_str k_question ++ lit ": " ++ enc_str r.1.1)
  ++ (lit "," ++ newline_indent 2)
  ++ (enc_str k_answer ++ lit ": " ++ enc 2 r.1.2)
  ++ (lit "," ++ newline_indent 2)
  ++ (enc_str k_optional ++ lit ": " ++ enc 2 r.2)
  ++ newline_indent 1 ++ lit "}".

Definition layout_collection (c : list record) : pystr :=
  if c is [] then lit "[]"
  else lit "[" ++ newline_indent 1
       ++ join (lit "," ++ newline_indent 1) (layout_record <$> c)
       ++ newline_indent 0 ++ lit "]".

End Serialize.

(** ** The saved layout, as the specification gives it

    Written out character by character, without the functions of the
    serializer above. *)

(** A Record of the specification: question text, answer text, optional
    flag. *)
Definition spec_record : Type := pystr * pystr * bool.

(** The object that holds it. *)
Definition spec_json (r : spec_record) : json :=
  JObj [(k_question, JStr r.1.1); (k_answer, JStr r.1.2); (k_optional, JBool r.2)].

(** How the control characters U+0000 to U+001F are written inside a JSON
    string. *)
Definition control_texts : list pystr :=
  lit <$> ["\u0000"; "\u0001"; "\u0002"; "\u0003"; "\u0004"; "\u0005"; "\u0006";
           "\u0007"; "\b"; "\t"; "\n"; "\u000b"; "\f"; "\r"; "\u000e"; "\u000f";
           "\u0010"; "\u0011"; "\u0012"; "\u0013"; "\u0014"; "\u0015"; "\u0016";
           "\u0017"; "\u0018"; "\u0019"; "\u001a"; "\u001b"; "\u001c"; "\u001d";
           "\u001e"; "\u001f"]%string.

(** One character of a text, as written between the double quotes of a
    JSON string.  A character outside ASCII is written as it is, never as
    an escape.  Inside ASCII the double quote and the backslash take a
    backslash before them, a control character is written as
    [control_texts] has it, and every other character is written as it
    is. *)
Definition char_text (c : N) : pystr :=
  if (128 <=? c)%N then [c]
  else if (c =? 34)%N || (c =? 92)%N then [92%N; c]
  else default [c] (control_texts !! N.to_nat c).

Definition quoted (s : pystr) : pystr := [34%N] ++ concat (char_text <$> s) ++ [34%N].

(** A record inside the array: the braces are indented by two spaces, the
    three members by four, in the order [question], [answer],
    [optional]. *)
Definition record_text (r : spec_record) : pystr :=
  lit "  {" ++ [10%N]
  ++ lit "    " ++ [34%N] ++ lit "question" ++ [34%N] ++ lit ": " ++ quoted r.1.1
  ++ lit "," ++ [10%N]
  ++ lit "    " ++ [34%N] ++ lit "answer" ++ [34%N] ++ lit ": " ++ quoted r.1.2
  ++ lit "," ++ [10%N]
  ++ lit "    " ++ [34%N] ++ lit "optional" ++ [34%N] ++ lit ": "
  ++ (if r.2 then lit "true" else lit "false") ++ [10%N]
  ++ lit "  }".

(** The array: one record after the other, separated by a comma and a
    line break, between brackets on lines of their own; the empty
    Collection is [[]]. *)
Definition collection_text (c : list spec_record) : pystr :=
  if c is [] then lit "[]"
  else lit "[" ++ [10%N]
       ++ join (lit "," ++ [10%N]) (record_text <$> c)
       ++ [10%N] ++ lit "]".

(** ** The world: files, standard input, and what the program did *)

Inductive event : Type :=
  | EvExists (p : pystr) (b : bool)  (* [Path.exists()] and its answer *)
  | EvCopy (src dst : pystr)         (* [shutil.copy2] *)
  | EvRead (p : pystr)               (* a file opened and read *)
  | EvWrite (p : pystr)              (* a file opened with ['w'] and written *)
  | EvPrint (s : pystr)              (* text written to standard output *)
  | EvInput (line : pystr).          (* a line read from standard input *)

Record world : Type := World {
  fs : gmap pystr (list Byte.byte);
  stdin : list pystr;
  trace : list event
}.

(** How a computation ends: normally, by [sys.exit], or by an uncaught
    exception (the world an exception leaves behind is not modelled). *)
Inductive outcome (A : Type) : Type :=
  | Done (a : A) (w : world)
  | Exit (code : Z) (w : world)
  | Raise (e : exn).
Arguments Done {A} a w.
Arguments Exit {A} code w.
Arguments Raise {A} e.

Definition io (A : Type) : Type := world → outcome A.

Definition io_ret {A : Type} (a : A) : io A := λ w, Done a w.

Definition io_bind {A B : Type} (m : io A) (k : A → io B) : io B := λ w,
  match m w with
  | Done a w' => k a w'
  | Exit c w' => Exit c w'
  | Raise e => Raise e
  end.

Notation "'let!' x ':=' m 'in' k" := (io_bind m (λ x, k))
  (at level 10, x name, m at level 100, k at level 200, only parsing).
Notation "m ';!' k" := (io_bind m (λ _, k))
  (at level 100, k at level 200, right associativity, only parsing).

Definition lift {A : Type} (r : result A) : io A := λ w,
  match r with Ok a => Done a w | Err e => Raise e end.

Definition log (ev : event) (w : world) : world :=
  World (fs w) (stdin w) (trace w ++ [ev]).

(** The exit status the shell sees. *)
Definition exit_status {A : Type} (o : outcome A) : Z :=
  match o with Done _ _ => 0 | Exit c _ => c | Raise _ => 1 end%Z.

(** [p.exists()] *)
Definition path_exists (p : pystr) : io bool := λ w,
  let b := bool_decide (is_Some (fs w !! p)) in Done b (log (EvExists p b) w).

(** [shutil.copy2(src, dst)] *)
Definition copy2 (src dst : pystr) : io unit := λ w,
  match fs w !! src with
  | Some c => Done () (World (<[dst := c]> (fs w)) (stdin w) (trace w ++ [EvCopy src dst]))
  | None => Raise FileNotFoundError
  end.

(** [with p.open(encoding='utf-8') as f: f.read()] *)
Definition read_text (p : pystr) : io pystr := λ w,
  match fs w !! p with
  | Some bs =>
      match utf8_decode bs with
      | Some s => Done (universal_newlines s) (log (EvRead p) w)
      | None => Raise UnicodeDecodeError
      end
  | None => Raise FileNotFoundError
  end.

(** [with p.open('w', encoding='utf-8') as f: f.write(s)], where the line
    separator of the platform is LF. *)
Definition write_text (p : pystr) (s : pystr) : io unit := λ w,
  match utf8_encode s with
  | Some bs => Done () (World (<[p := bs]> (fs w)) (stdin w) (trace w ++ [EvWrite p]))
  | None => Raise UnicodeEncodeError
  end.

(** [print(s)].  Standard output is taken to be a text stream with the
    UTF-8 codec and the strict error handler, as the interpreter opens it
    in a UTF-8 locale and as the data file is opened: text that holds a
    code point the codec cannot encode (a surrogate) is not written, and
    [print] raises [UnicodeEncodeError].  Text without surrogates is
    written under every error handler. *)
Definition print (s : pystr) : io unit := λ w,
  if bool_decide (Forall encodable s)
  then Done () (log (EvPrint (s ++ [10%N])) w)
  else Raise UnicodeEncodeError.

(** [input(prompt)] *)
Definition input (prompt : pystr) : io pystr := λ w,
  match stdin w with
  | line :: rest =>
      Done line (World (fs w) rest (trace w ++ [EvPrint prompt; EvInput line]))
  | [] => Raise EOFError
  end.

(** [sys.exit(code)] *)
Definition sys_exit {A : Type} (code : Z) : io A := λ w, Exit code w.

(** [it[k]] *)
Definition py_item (it : json) (k : pystr) : result json :=
  match it with
  | JObj d => match dict_get k d with Some v => Ok v | None => Err KeyError end
  | _ => Err TypeError
  end.

(** [s + v] for a string [s] *)
Definition py_concat (s : pystr) (v : json) : result pystr :=
  match v with
  | JStr t => Ok (s ++ t)
  | _ => Err TypeError
  end.

(** [it[k] = v] *)
Definition py_setitem (it : json) (k : pystr) (v : json) : result json :=
  match it with
  | JObj d => Ok (JObj (dict_set k v d))
  | _ => Err TypeError
  end.

(** The values a [for] loop takes over [v]. *)
Definition py_iter (v : json) : result (list json) :=
  match v with
  | JArr l => Ok l
  | JObj d => Ok ((λ kv, JStr kv.1) <$> d)
  | JStr s => Ok ((λ c, JStr [c]) <$> s)
  | _ => Err TypeError
  end.

(** The French texts of the tools; [233] is the code point of e-acute. *)
Definition msg_question : pystr := 10%N :: lit "Question: ".
Definition msg_reponse_actuelle : pystr :=
  lit "R" ++ [233%N] ++ lit "ponse actuelle: ".
Definition msg_nouvelle_reponse : pystr :=
  lit "Nouvelle r" ++ [233%N] ++ lit "ponse (ENTER pour garder): ".
Definition msg_vide : pystr := lit "<vide>".
Definition msg_introuvable : pystr := lit "Fichier de questions introuvable:".

(** A Record whose answer is a text, as the data model has it: question,
    answer, optional flag. *)
Definition text_record : Type := pystr * pystr * json.

Definition text_json (r : text_record) : json :=
  record_json (r.1.1, JStr r.1.2, r.2).

(** What the specification asks of the interactive filler for one record
    and the line the operator typed: an empty line (after trimming) keeps
    the record, any other line replaces the answer by the trimmed line. *)
Definition filled (r : text_record) (line : pystr) : text_record :=
  if strip line is [] then r else (r.1.1, strip line, r.2).

(** What the specification has the operator see and type for one record,
    character by character: an empty line and the question after its
    label; the current answer after its label, where the empty answer is
    shown as the placeholder [<vide>]; the prompt, without a line break;
    and the line typed. *)
Definition fill_events (r : text_record) (line : pystr) : list event :=
  [EvPrint ([10%N] ++ lit "Question: " ++ r.1.1 ++ [10%N]);
   EvPrint (lit "R" ++ [233%N] ++ lit "ponse actuelle: "
            ++ (if r.1.2 is [] then lit "<vide>" else r.1.2) ++ [10%N]);
   EvPrint (lit "Nouvelle r" ++ [233%N] ++ lit "ponse (ENTER pour garder): ");
   EvInput line].

(** A Record whose question and answer the console can show. *)
Definition text_printable (r : text_record) : Prop :=
  Forall encodable r.1.1 ∧ Forall encodable r.1.2.

(** The parsed command line of the fill tool ([parser.parse_args()]). *)
Record Namespace : Type := {
  dedupe_only : bool;
  interactive : bool
}.

Section Tools.

Variable lower : pystr → pystr.

(** The directory of the scripts, [Path(__file__).resolve().parent]. *)
Variable here : pystr.

(** [json.loads]: the decoded value, or the exception the decoder
    raises. *)
Variable json_loads : pystr → result json.

Variable float_repr : spec_float → pystr.

(** [repr] of the values whose text is not fixed here: floats and
    containers. *)
Variable repr_other : json → pystr.

Definition DATA : pystr := here ++ lit "/" ++ lit "audit1_questions.json".
Definition BACKUP : pystr := here ++ lit "/" ++ lit "audit1_questions.json.bak".
Definition DATA_FILE : pystr := here ++ lit "/" ++ lit "audit1_questions.json".

(** [json.load(f)] on the file at [p] *)
Definition json_load (p : pystr) : io json :=
  let! text := read_text p in
  lift (json_loads text).

(** What [json.load] makes of the bytes of a file, when it returns. *)
Definition file_json (bs : list Byte.byte) : option json :=
  match utf8_decode bs with
  | Some text =>
      match json_loads (universal_newlines text) with
      | Ok v => Some v
      | Err _ => None
      end
  | None => None
  end.

(** The failures the specification calls [ParseError]. *)
Definition is_parse_error (e : exn) : Prop :=
  e = JSONDecodeError ∨ e = UnicodeDecodeError.

(** *** [audit_fill.py] *)

Definition load : io json := json_load DATA.

Definition save (data : json) : io unit :=
  write_text DATA (dumps float_repr data).

(** The body of the loop of [interactive_fill]. *)
Definition fill_one (it : json) : io json :=
  let! q := lift (py_item it k_question) in
  let! l1 := lift (py_concat msg_question q) in
  print l1 ;!
  let! a := lift (py_item it k_answer) in
  let! l2 := lift (py_concat msg_reponse_actuelle (py_or a (JStr msg_vide))) in
  print l2 ;!
  let! line := input msg_nouvelle_reponse in
  let ans := strip line in
  if ans is [] then io_ret it
  else lift (py_setitem it k_answer (JStr ans)).

Fixpoint interactive_fill (items : list json) : io (list json) :=
  match items with
  | [] => io_ret []
  | it :: rest =>
      let! it' := fill_one it in
      let! rest' := interactive_fill rest in
      io_ret (it' :: rest')
  end.

(** Two objects with the same keys in the same order and the same values
    except under [answer]. *)
Definition same_but_answer (it it' : json) : Prop :=
  ∃ d d', it = JObj d ∧ it' = JObj d' ∧ d'.*1 = d.*1 ∧
          ∀ k, k ≠ k_answer → dict_get k d' = dict_get k d.

(** [main], from the point where [parse_args] has returned [args]. *)
Definition main (args : Namespace) : io unit :=
  let! found := path_exists DATA in
  if negb found then
    print (msg_introuvable ++ lit " " ++ DATA)
  else
    copy2 DATA BACKUP ;!
    let! items := load in
    let! its := lift (py_iter items) in
    let! cleaned := lift (dedupe lower its) in
    let! cleaned := (if interactive args then interactive_fill cleaned
                     else io_ret cleaned) in
    save (JArr cleaned) ;!
    print (lit "Nettoy" ++ [233%N] ++ lit " et enregistr" ++ [233%N] ++ lit " "
           ++ lit (pretty (length cleaned)) ++ lit " questions dans " ++ DATA
           ++ lit " (backup: " ++ BACKUP ++ lit ")").

(** *** [audit_qna.py] *)

Definition load_questions (path : pystr) : io json := json_load path.

(** [str(v)], as an f-string field shows [v]. *)
Definition py_str (v : json) : pystr :=
  match v with
  | JNull => lit "None"
  | JBool true => lit "True"
  | JBool false => lit "False"
  | JInt z => lit (pretty z)
  | JStr s => s
  | _ => repr_other v
  end.

(** The block printed for item number [i]. *)
Definition qna_block (i : nat) (item : json) : result pystr :=
  let* q := py_get item k_question JNull in
  let* a := py_get item k_answer JNull in
  Ok (lit (pretty i) ++ lit ". Question: " ++ py_str q ++ [10%N]
      ++ lit "   R" ++ [233%N] ++ lit "ponse: " ++ py_str a ++ [10%N]).

Fixpoint print_qna_from (i : nat) (items : list json) : io unit :=
  match items with
  | [] => io_ret ()
  | item :: rest =>
      let! text := lift (qna_block i item) in
      print text ;!
      print_qna_from (S i) rest
  end.

Definition print_qna (questions : json) : io unit :=
  let! items := lift (py_iter questions) in
  print_qna_from 1 items.

(** The [__main__] block; [argv] is [sys.argv]. *)
Definition qna_main (argv : list pystr) : io unit :=
  let! found := path_exists DATA_FILE in
  if negb found then
    print (msg_introuvable ++ lit " " ++ DATA_FILE) ;!
    sys_exit 2
  else
    let! questions := load_questions DATA_FILE in
    match argv !! 1 with
    | Some flag =>
        if bool_decide (flag ∈ [lit "--json"; lit "-j"])
        then print (dumps float_repr questions)
        else print_qna questions
    | None => print_qna questions
    end.

End Tools.

(** ** The decoder ([json.load])

    [json.loads] as the C scanner of CPython's [json] module runs it, with
    the default hooks ([parse_int] is [int], [parse_float] is [float],
    [strict] is true). *)

Definition is_json_ws (c : N) : bool :=
  ((c =? 32) || (c =? 9) || (c =? 10) || (c =? 13))%N.

Fixpoint skip_ws (s : pystr) : pystr :=
  match s with
  | c :: r => if is_json_ws c then skip_ws r else s
  | [] => []
  end.

Definition is_digit (c : N) : bool := ((48 <=? c) && (c <=? 57))%N.

(** The longest run of digits at the head of [s], and what follows it. *)
Fixpoint span_digits (s : pystr) : pystr * pystr :=
  match s with
  | c :: r =>
      if is_digit c then let p := span_digits r in (c :: p.1, p.2) else ([], s)
  | [] => ([], [])
  end.

(** The number a run of decimal digits writes. *)
Definition digit_step (acc c : N) : N := (10 * acc + (c - 48))%N.

Definition digits_val (ds : pystr) : N := foldl digit_step 0%N ds.

(** A number token: sign, integer digits, fraction digits if there is a
    fraction, and sign and digits of the exponent if there is one. *)
Record number : Type := Number {
  num_neg : bool;
  num_int : pystr;
  num_frac : option pystr;
  num_exp : option (bool * pystr)
}.

(** The integer digits of a number: a single [0], or a run of digits that
    does not start with [0]. *)
Definition match_int (s : pystr) : option (pystr * pystr) :=
  match s with
  | c :: r =>
      if (c =? 48)%N then Some ([c], r)
      else if is_digit c then let p := span_digits r in Some (c :: p.1, p.2)
      else None
  | [] => None
  end.

(** The fraction, if a point and a digit come next. *)
Definition match_frac (s : pystr) : option pystr * pystr :=
  match s with
  | p :: c :: r =>
      if (p =? 46)%N && is_digit c
      then let q := span_digits r in (Some (c :: q.1), q.2)
      else (None, s)
  | _ => (None, s)
  end.

(** The exponent, if an [e], an optional sign and a digit come next. *)
Definition match_exp (s : pystr) : option (bool * pystr) * pystr :=
  match s with
  | e :: r =>
      if (e =? 101)%N || (e =? 69)%N then
        let sr := match r with
                  | c :: r' =>
                      if (c =? 45)%N then (true, r')
                      else if (c =? 43)%N then (false, r')
                      else (false, r)
                  | [] => (false, r)
                  end in
        let q := span_digits sr.2 in
        if q.1 is [] then (None, s) else (Some (sr.1, q.1), q.2)
      else (None, s)
  | [] => (None, s)
  end.

(** A number after its sign, and what follows it. *)
Definition match_unsigned (neg : bool) (s : pystr) : option (number * pystr) :=
  match match_int s with
  | None => None
  | Some (int, r1) =>
      let fp := match_frac r1 in
      let ep := match_exp fp.2 in
      Some (Number neg int fp.1 ep.1, ep.2)
  end.

(** [_match_number_unicode], up to the conversion: the longest prefix of
    [s] that is a number, and what follows it. *)
Definition match_number (s : pystr) : option (number * pystr) :=
  match s with
  | c :: r => if (c =? 45)%N then match_unsigned true r else match_unsigned false s
  | [] => None
  end.

(** [sys.int_info.default_max_str_digits] *)
Definition int_max_str_digits : nat := 4300.

(** [int(numstr)]: refused when the text has more digits than the limit. *)
Definition py_int (neg : bool) (ds : pystr) : result Z :=
  if bool_decide (int_max_str_digits < length ds) then Err ValueError
  else Ok (if neg then - Z.of_N (digits_val ds) else Z.of_N (digits_val ds))%Z.

(** The binary64 number nearest to [m * 10 ^ e], ties to even. *)
Definition float_of_decimal (neg : bool) (m : N) (e : Z) : spec_float :=
  match m with
  | N0 => S754_zero neg
  | Npos p =>
      if (0 <=? e)%Z then binary_round 53 1024 neg (p * Z.to_pos (10 ^ e))%positive 0
      else
        let '(q, e', l) :=
          SFdiv_core_binary 53 1024 (Zpos p) 0 (10 ^ (- e))%Z 0 in
        binary_round_aux 53 1024 neg q e' l
  end.

(** [float(numstr)] *)
Definition py_float (t : number) : spec_float :=
  let frac := default [] (num_frac t) in
  let ex := match num_exp t with
            | Some (true, ds) => (- Z.of_N (digits_val ds))%Z
            | Some (false, ds) => Z.of_N (digits_val ds)
            | None => 0%Z
            end in
  float_of_decimal (num_neg t) (digits_val (num_int t ++ frac))
    (ex - Z.of_nat (length frac)).

(** The value of a number token: a float when it has a fraction or an
    exponent, an integer otherwise. *)
Definition number_value (t : number) : result json :=
  match num_frac t, num_exp t with
  | None, None => let* z := py_int (num_neg t) (num_int t) in Ok (JInt z)
  | _, _ => Ok (JFloat (py_float t))
  end.

Definition hex_val (c : N) : option N :=
  (if (48 <=? c) && (c <=? 57) then Some (c - 48)
   else if (97 <=? c) && (c <=? 102) then Some (c - 87)
   else if (65 <=? c) && (c <=? 70) then Some (c - 55)
   else None)%N.

(** The code unit four hexadecimal digits write. *)
Definition hex4 (a b c d : N) : option N :=
  match hex_val a, hex_val b, hex_val c, hex_val d with
  | Some x, Some y, Some z, Some t => Some (((x * 16 + y) * 16 + z) * 16 + t)%N
  | _, _, _, _ => None
  end.

Definition is_high_surrogate (u : N) : bool := ((0xD800 <=? u) && (u <=? 0xDBFF))%N.
Definition is_low_surrogate (u : N) : bool := ((0xDC00 <=? u) && (u <=? 0xDFFF))%N.

Definition join_surrogates (hi lo : N) : N :=
  (0x10000 + ((hi - 0xD800) * 0x400 + (lo - 0xDC00)))%N.

(** The character a short escape writes. *)
Definition unescape (e : N) : option N :=
  (if e =? 34 then Some 34 else if e =? 92 then Some 92
   else if e =? 47 then Some 47 else if e =? 98 then Some 8
   else if e =? 102 then Some 12 else if e =? 110 then Some 10
   else if e =? 114 then Some 13 else if e =? 116 then Some 9
   else None)%N.

(** [scanstring], from the character after the opening quote: the text of
    the string and what follows its closing quote.  A control character
    must be escaped; the two escapes of a surrogate pair give one
    character, a lone surrogate escape gives the surrogate. *)
Fixpoint scan_string (s : pystr) : result (pystr * pystr) :=
  match s with
  | [] => Err JSONDecodeError
  | c :: r =>
      if (c =? 34)%N then Ok ([], r)
      else if (c =? 92)%N then
        match r with
        | [] => Err JSONDecodeError
        | e :: r' =>
            if (e =? 117)%N then
              match r' with
              | a :: b :: c1 :: d :: r1 =>
                  match hex4 a b c1 d with
                  | None => Err JSONDecodeError
                  | Some u1 =>
                      let lone := let* p := scan_string r1 in Ok (u1 :: p.1, p.2) in
                      if is_high_surrogate u1 then
                        match r1 with
                        | bs :: u :: a2 :: b2 :: c2 :: d2 :: r2 =>
                            if (bs =? 92)%N && (u =? 117)%N then
                              match hex4 a2 b2 c2 d2 with
                              | None => Err JSONDecodeError
                              | Some u2 =>
                                  if is_low_surrogate u2 then
                                    let* p := scan_string r2 in
                                    Ok (join_surrogates u1 u2 :: p.1, p.2)
                                  else lone
                              end
                            else lone
                        | _ => lone
                        end
                      else lone
                  end
              | _ => Err JSONDecodeError
              end
            else
              match unescape e with
              | None => Err JSONDecodeError
              | Some ch => let* p := scan_string r' in Ok (ch :: p.1, p.2)
              end
        end
      else if (c <? 32)%N then Err JSONDecodeError
      else let* p := scan_string r in Ok (c :: p.1, p.2)
  end.

(** [s] without the prefix [p], when it starts with [p]. *)
Fixpoint strip_prefix (p s : pystr) : option pystr :=
  match p, s with
  | [], _ => Some s
  | a :: p', b :: s' => if (a =? b)%N then strip_prefix p' s' else None
  | _ :: _, [] => None
  end.

(** The words the scanner knows, with their values. *)
Definition constants : list (pystr * json) :=
  [(lit "null", JNull); (lit "true", JBool true); (lit "false", JBool false);
   (lit "NaN", JFloat S754_nan); (lit "Infinity", JFloat (S754_infinity false));
   (lit "-Infinity", JFloat (S754_infinity true))].

Fixpoint scan_constant (cs : list (pystr * json)) (s : pystr) : option (json * pystr) :=
  match cs with
  | [] => None
  | (word, v) :: cs' =>
      match strip_prefix word s with
      | Some r => Some (v, r)
      | None => scan_constant cs' s
      end
  end.

(** [scan_once]: the value that starts at the head of [s], and what
    follows it.  [d] is the number of nested containers the interpreter
    still allows ([Py_EnterRecursiveCall]).  [n] bounds the number of
    steps; every step consumes a character, so a bound above twice the
    length of the text is never reached (lemma [scan_once_steps]). *)
Fixpoint scan_once (n d : nat) (s : pystr) : result (json * pystr) :=
  match n with
  | 0 => Err JSONDecodeError
  | S n =>
      match s with
      | [] => Err JSONDecodeError
      | c :: r =>
          if (c =? 34)%N then
            let* p := scan_string r in Ok (JStr p.1, p.2)
          else if (c =? 123)%N then
            match d with
            | 0 => Err RecursionError
            | S d =>
                match skip_ws r with
                | c' :: r' =>
                    if (c' =? 125)%N then Ok (JObj [], r')
                    else object_members n d (c' :: r') []
                | [] => Err JSONDecodeError
                end
            end
          else if (c =? 91)%N then
            match d with
            | 0 => Err RecursionError
            | S d =>
                match skip_ws r with
                | c' :: r' =>
                    if (c' =? 93)%N then Ok (JArr [], r')
                    else array_items n d (c' :: r') []
                | [] => Err JSONDecodeError
                end
            end
          else
            match scan_constant constants s with
            | Some p => Ok p
            | None =>
                match match_number s with
                | Some (t, r') => let* v := number_value t in Ok (v, r')
                | None => Err JSONDecodeError
                end
            end
      end
  end
with array_items (n d : nat) (s : pystr) (acc : list json) : result (json * pystr) :=
  match n with
  | 0 => Err JSONDecodeError
  | S n =>
      let* p := scan_once n d s in
      match skip_ws p.2 with
      | c :: r =>
          if (c =? 93)%N then Ok (JArr (acc ++ [p.1]), r)
          else if (c =? 44)%N then array_items n d (skip_ws r) (acc ++ [p.1])
          else Err JSONDecodeError
      | [] => Err JSONDecodeError
      end
  end
with object_members (n d : nat) (s : pystr) (acc : dict) : result (json * pystr) :=
  match n with
  | 0 => Err JSONDecodeError
  | S n =>
      match s with
      | q :: r0 =>
          if (q =? 34)%N then
            let* k := scan_string r0 in
            match skip_ws k.2 with
            | c :: r2 =>
                if (c =? 58)%N then
                  let* p := scan_once n d (skip_ws r2) in
                  match skip_ws p.2 with
                  | c' :: r4 =>
                      if (c' =? 125)%N then Ok (JObj (dict_set k.1 p.1 acc), r4)
                      else if (c' =? 44)%N then
                        object_members n d (skip_ws r4) (dict_set k.1 p.1 acc)
                      else Err JSONDecodeError
                  | [] => Err JSONDecodeError
                  end
                else Err JSONDecodeError
            | [] => Err JSONDecodeError
            end
          else Err JSONDecodeError
      | [] => Err JSONDecodeError
      end
  end.

(** [JSONDecoder.decode]: one value between whitespace, and nothing
    else. *)
Definition json_decode (d : nat) (text : pystr) : result json :=
  let* p := scan_once (2 * length text + 2) d (skip_ws text) in
  if skip_ws p.2 is [] then Ok p.1 else Err JSONDecodeError.

(** ** Notions for the properties of the decoder *)

(** A value [json.dump] can write and [json.load] reads back within the
    limits of the interpreter: no float, every integer within the digit
    limit, the keys of every object distinct, and at most [d] containers
    inside one another. *)
Fixpoint json_ok (d : nat) (v : json) {struct d} : bool :=
  match v with
  | JNull | JBool _ | JStr _ => true
  | JInt z => bool_decide (Z.abs z < 10 ^ Z.of_nat int_max_str_digits)%Z
  | JFloat _ => false
  | JArr l =>
      match d with
      | 0 => false
      | S d' => forallb (json_ok d') l
      end
  | JObj kvs =>
      match d with
      | 0 => false
      | S d' => bool_decide (NoDup kvs.*1) && forallb (λ kv, json_ok d' kv.2) kvs
      end
  end.

(** What may follow a number in a text: not a character that would
    continue it. *)
Definition number_end (rest : pystr) : bool :=
  match rest with
  | [] => true
  | c :: _ => negb (is_digit c || (c =? 46) || (c =? 101) || (c =? 69))%N
  end.

(** A text the scanner can start on: its first character is not
    whitespace and closes no container. *)
Definition starts_value (s : pystr) : Prop :=
  ∃ c t, s = c :: t ∧ is_json_ws c = false ∧ c ≠ 93%N ∧ c ≠ 125%N.

(** The text of one member of an object. *)
Definition member_text (float_repr : spec_float → pystr) (lvl : nat)
    (kv : pystr * json) : pystr :=
  enc_str kv.1 ++ lit ": " ++ enc float_repr lvl kv.2.

(** The exceptions of the decoder. *)
Definition decode_error (e : exn) : Prop :=
  e = JSONDecodeError ∨ e = ValueError ∨ e = RecursionError.

(** ** More notions for the deduplicator *)

(** An item the loop of [dedupe] can take: a dictionary whose question is
    absent or a string. *)
Definition keyable (it : json) : bool :=
  match it with
  | JObj d =>
      match dict_get k_question d with
      | None | Some (JStr _) => true
      | Some _ => false
      end
  | _ => false
  end.

(** [it.get('answer')] *)
Definition item_answer (it : json) : json :=
  match it with JObj d => default JNull (dict_get k_answer d) | _ => JNull end.

(** [it.get('answer', '')] *)
Definition item_answer_or_empty (it : json) : json :=
  match it with JObj d => default (JStr []) (dict_get k_answer d) | _ => JStr [] end.

(** [it.get('optional', False)] *)
Definition item_optional (it : json) : json :=
  match it with
  | JObj d => default (JBool false) (dict_get k_optional d)
  | _ => JBool false
  end.

(** [it.get('question', '').strip()], for an item that is [keyable]. *)
Definition item_question (it : json) : pystr :=
  match it with
  | JObj d => match dict_get k_question d with Some (JStr q) => strip q | _ => [] end
  | _ => []
  end.

(** The object the [else] branch of the loop builds for an item. *)
Definition fresh_obj (it : json) : dict :=
  mk_obj (item_question it) (item_answer_or_empty it) (item_optional it).

(** What one more item with the same key makes of the object kept so far
    ([None]: no object yet). *)
Definition absorb (acc : option dict) (it : json) : option dict :=
  Some (match acc with
        | Some prev => merge (item_answer it) (item_optional it) prev
        | None => fresh_obj it
        end).

(** The answer the merge rule gives to a group of items with one key: the
    answer of the first item whose answer is truthy, and without such an
    item the answer of the first item (the empty string if it has none). *)
Definition chosen_answer (grp : list json) : json :=
  match list_find (λ it, truthy (item_answer it) = true) grp with
  | Some (_, it) => item_answer it
  | None => match grp with it :: _ => item_answer_or_empty it | [] => JStr [] end
  end.

(** The items of [items] whose key is [k], in order. *)
Definition group (lower : pystr → pystr) (k : pystr) (items : list json) : list json :=
  filter (λ it, key_of lower it = k) items.

(** ** More notions for the tools *)

(** Events of the console: text printed and lines read. *)
Definition console_event (ev : event) : bool :=
  match ev with EvPrint _ | EvInput _ => true | _ => false end.

(** Events that change no file and read no input. *)
Definition read_only_event (ev : event) : bool :=
  match ev with EvExists _ _ | EvRead _ | EvPrint _ => true | _ => false end.

(** An answer the filler can show: a string, or any falsy value (shown as
    the placeholder).  A truthy value that is not a string cannot be
    appended to the label. *)
Definition showable (a : json) : bool :=
  match a with JStr _ => true | _ => negb (truthy a) end.

(** A record of [dedupe] the filler can print: the question and, when the
    answer is a string, the answer hold no code point the console cannot
    encode. *)
Definition record_printable (r : record) : bool :=
  bool_decide (Forall encodable r.1.1)
  && match r.1.2 with JStr a => bool_decide (Forall encodable a) | _ => true end.

(** [item.get(k)] *)
Definition item_field (k : pystr) (it : json) : json :=
  match it with JObj d => default JNull (dict_get k d) | _ => JNull end.

Definition is_dict (it : json) : bool :=
  match it with JObj _ => true | _ => false end.

(** The block the specification gives for record number [n] in human mode:
    the line [<n>. Question: <question>], the indented line
    [Réponse: <answer>], and an empty line (the line break that ends the
    block is added by [print]). *)
Definition qna_text (repr_other : json → pystr) (n : nat) (q a : json) : pystr :=
  lit (pretty n) ++ lit ". Question: " ++ py_str repr_other q ++ [10%N]
  ++ lit "   R" ++ [233%N] ++ lit "ponse: " ++ py_str repr_other a ++ [10%N].

(** An element the Reporter can print in human mode: a dictionary whose
    question and answer are shown as text the console can encode. *)
Definition block_printable (repr_other : json → pystr) (it : json) : bool :=
  is_dict it
  && bool_decide (Forall encodable (py_str repr_other (item_field k_question it)))
  && bool_decide (Forall encodable (py_str repr_other (item_field k_answer it))).

(** A run that leaves the files and the standard input as they were and
    adds only existence tests, reads and prints to the trace (nothing is
    said of a run that ends with an exception). *)
Definition read_only_run {A : Type} (w : world) (o : outcome A) : Prop :=
  match o with
  | Done _ w' | Exit _ w' =>
      fs w' = fs w ∧ stdin w' = stdin w ∧
      ∃ evs, trace w' = trace w ++ evs ∧ forallb read_only_event evs = true
  | Raise _ => True
  end.

(** ** Data of the concrete runs *)

Definition here0 : pystr := lit "/srv/lets-play/tools".

(** The interpreter of the runs still allows 100 nested containers. *)
Definition depth0 : nat := 100.

Definition json_loads0 : pystr → result json := json_decode depth0.

(** The runs hold no float and print no container. *)
Definition no_float : spec_float → pystr := λ _, [].
Definition no_repr : json → pystr := λ _, [].

(** The record [{"question": q, "answer": a, "optional": o}]. *)
Definition qa (q a : string) (o : bool) : json :=
  JObj (mk_obj (lit q) (JStr (lit a)) (JBool o)).

Definition file_of (text : pystr) : list Byte.byte :=
  default [] (utf8_encode text).

(** A world whose data file holds [text], with [lines] on standard input. *)
Definition world_with (text : pystr) (lines : list pystr) : world :=
  World {[ DATA here0 := file_of text ]} lines [].

(** A world without the data file. *)
Definition empty_world : world := World ∅ [] [].

(** * Properties *)

(** ** String lemmas *)

Lemma lstrip_app_1 (l : pystr) (c : N) :
  lstrip (l ++ [c]) =
  if lstrip l is [] then (if is_space c then [] else [c]) else lstrip l ++ [c].
Proof.
  induction l as [|x l IH]; simpl; [done|].
  destruct (is_space x); [exact IH|done].
Qed.

Lemma rstrip_cons (c : N) (s : pystr) :
  rstrip (c :: s) =
  if rstrip s is [] then (if is_space c then [] else [c]) else c :: rstrip s.
Proof.
  unfold rstrip. rewrite reverse_cons, lstrip_app_1.
  destruct (lstrip (reverse s)) as [|y t] eqn:E.
  - rewrite reverse_nil. by destruct (is_space c).
  - rewrite reverse_app, reverse_singleton. simpl.
    destruct (reverse (y :: t)) eqn:E'; [|done].
    apply (f_equal reverse) in E'. rewrite reverse_involutive in E'. done.
Qed.

Lemma lstrip_idem (s : pystr) : lstrip (lstrip s) = lstrip s.
Proof.
  induction s as [|c s IH]; simpl; [done|].
  destruct (is_space c) eqn:E; [done|]. simpl. by rewrite E.
Qed.

Lemma rstrip_idem (s : pystr) : rstrip (rstrip s) = rstrip s.
Proof. unfold rstrip. by rewrite reverse_involutive, lstrip_idem. Qed.

Lemma lstrip_rstrip (s : pystr) : lstrip (rstrip s) = rstrip (lstrip s).
Proof.
  induction s as [|c s IH]; [done|].
  rewrite rstrip_cons. simpl.
  destruct (is_space c) eqn:E.
  - rewrite <- IH. destruct (rstrip s); simpl; [done|]. by rewrite E.
  - rewrite rstrip_cons, E. destruct (rstrip s); simpl; by rewrite E.
Qed.

Lemma strip_idem (s : pystr) : strip (strip s) = strip s.
Proof.
  unfold strip. by rewrite lstrip_rstrip, rstrip_idem, lstrip_idem.
Qed.

Lemma strip_nil : strip [] = [].
Proof. done. Qed.

(** ** The deduplicator *)

Section DedupeProps.

Variable lower : pystr → pystr.

Local Abbreviation norm := (norm lower).
Local Abbreviation okey := (λ d : dict, key_of lower (JObj d)).
Local Abbreviation get_d := (λ (dflt : json) (k : pystr) (d : dict), default dflt (dict_get k d)).

Lemma key_of_mk_obj q a o : key_of lower (JObj (mk_obj q a o)) = norm (strip q).
Proof. done. Qed.

Lemma kept_key d : kept lower d → ∃ q a o, d = mk_obj q a o ∧ strip q = q ∧ okey d = norm q ∧ norm q ≠ [].
Proof.
  intros (q & a & o & -> & Hs & Hn). exists q, a, o.
  rewrite key_of_mk_obj, Hs. done.
Qed.

Lemma merge_mk_obj a o q a0 o0 :
  merge a o (mk_obj q a0 o0) =
  mk_obj q (if negb (truthy a0) && truthy a then a else a0) (py_or o0 o).
Proof.
  unfold merge, mk_obj. simpl.
  destruct (negb (truthy a0) && truthy a); reflexivity.
Qed.

Lemma kept_merge a o d : kept lower d → kept lower (merge a o d) ∧ okey (merge a o d) = okey d.
Proof.
  intros (q & a0 & o0 & -> & Hs & Hn). rewrite merge_mk_obj. split; [|done].
  by eexists _, _, _.
Qed.

(** What one iteration of the loop does, by cases on the key. *)
Lemma dedupe_step_cases st it st' :
  dedupe_step lower st it = Ok st' →
  ∃ d q0, it = JObj d ∧ get_d (JStr []) k_question d = JStr q0 ∧
    key_of lower it = norm (strip q0) ∧
    ((norm (strip q0) = [] ∧ st' = st) ∨
     (norm (strip q0) ≠ [] ∧ ∃ i, st.1 !! norm (strip q0) = Some i ∧
        st' = (st.1, alter (merge (get_d JNull k_answer d)
                                  (get_d (JBool false) k_optional d)) i st.2)) ∨
     (norm (strip q0) ≠ [] ∧ st.1 !! norm (strip q0) = None ∧
        st' = (<[norm (strip q0) := length st.2]> st.1,
               st.2 ++ [mk_obj (strip q0) (get_d (JStr []) k_answer d)
                               (get_d (JBool false) k_optional d)]))).
Proof.
  unfold dedupe_step, key_of, item_key.
  destruct it as [| | | | |l|d]; simpl; try discriminate.
  destruct (default (JStr []) (dict_get k_question d)) as [| | | |q0| |] eqn:Eq;
    simpl; try discriminate.
  intros H. exists d, q0. split; [done|]. split; [done|]. split; [done|].
  case_bool_decide as Hk.
  - left. split; [done|]. congruence.
  - right. destruct (st.1 !! norm (strip q0)) as [i|] eqn:Es.
    + left. split; [done|]. exists i. split; [done|]. congruence.
    + right. split; [done|]. split; [done|]. congruence.
Qed.

Lemma okey_alter_merge a o i (out : list dict) :
  Forall (kept lower) out →
  Forall (kept lower) (alter (merge a o) i out) ∧
  okey <$> alter (merge a o) i out = okey <$> out.
Proof.
  intros Hk. split.
  - apply Forall_alter; [done|]. intros d _ Hd. by apply kept_merge.
  - apply list_eq. intros j. rewrite !list_lookup_fmap.
    destruct (decide (i = j)) as [->|Hne].
    + rewrite list_lookup_alter_eq. destruct (out !! j) as [d|] eqn:E; [|done].
      simpl. f_equal. apply kept_merge.
      by eapply Forall_lookup_1.
    + by rewrite list_lookup_alter_ne.
Qed.

Lemma wf_state_init : wf_state lower (∅, []).
Proof. split; [constructor|]. intros k i. simpl. by rewrite lookup_empty, lookup_nil. Qed.

Lemma wf_state_step st it st' :
  wf_state lower st → dedupe_step lower st it = Ok st' → wf_state lower st'.
Proof.
  intros [Hk Hs] H.
  destruct (dedupe_step_cases _ _ _ H) as (d & q0 & -> & Hq & _ & Hc).
  destruct Hc as [[_ ->]|[(Hne & i & Hi & ->)|(Hne & Hn & ->)]]; [done| |].
  - destruct (okey_alter_merge (get_d JNull k_answer d)
                (get_d (JBool false) k_optional d) i _ Hk) as [Hk' He].
    split; [done|]. simpl. intros k j. rewrite He. apply Hs.
  - split; simpl.
    + apply Forall_app. split; [done|]. constructor; [|constructor].
      eexists _, _, _. split; [done|]. split; [apply strip_idem|done].
    + intros k j. rewrite fmap_app. cbn [fmap list_fmap]. rewrite key_of_mk_obj, strip_idem.
      destruct (decide (j = length st.2)) as [->|Hj].
      * rewrite lookup_app_r by (by rewrite length_fmap).
        rewrite length_fmap, Nat.sub_diag. simpl.
        destruct (decide (norm (strip q0) = k)) as [<-|Hkk].
        -- by rewrite lookup_insert_eq.
        -- rewrite lookup_insert_ne by done. split; [|congruence].
           intros Hl. apply Hs in Hl. apply lookup_lt_Some in Hl.
           rewrite length_fmap in Hl. lia.
      * destruct (decide (norm (strip q0) = k)) as [<-|Hkk].
        -- rewrite lookup_insert_eq. split; [congruence|].
           intros Hl. exfalso.
           destruct (decide (j < length st.2)) as [Hlt|Hge].
           ++ rewrite lookup_app_l in Hl by (by rewrite length_fmap).
              apply Hs in Hl. congruence.
           ++ apply lookup_lt_Some in Hl. rewrite length_app, length_fmap in Hl.
              simpl in Hl. lia.
        -- rewrite lookup_insert_ne by done. rewrite Hs.
           destruct (decide (j < length st.2)) as [Hlt|Hge].
           ++ by rewrite lookup_app_l by (by rewrite length_fmap).
           ++ rewrite !lookup_ge_None_2; [done| |].
              ** rewrite length_app, length_fmap. simpl. lia.
              ** rewrite length_fmap. lia.
Qed.

Lemma wf_state_loop items : ∀ st st',
  wf_state lower st → dedupe_loop lower st items = Ok st' → wf_state lower st'.
Proof.
  induction items as [|it rest IH]; simpl; intros st st' Hwf H.
  - congruence.
  - destruct (dedupe_step lower st it) as [st1|] eqn:E; simpl in H; [|done].
    eapply IH; [|done]. by eapply wf_state_step.
Qed.

Lemma dedupe_loop_app l1 l2 st :
  dedupe_loop lower st (l1 ++ l2) =
  let* st1 := dedupe_loop lower st l1 in dedupe_loop lower st1 l2.
Proof.
  revert st. induction l1 as [|it l1 IH]; intros st; simpl; [done|].
  destruct (dedupe_step lower st it); simpl; [apply IH|done].
Qed.

(** Keys of a well-formed state are pairwise distinct. *)
Lemma wf_state_NoDup st : wf_state lower st → NoDup (okey <$> st.2).
Proof.
  intros [_ Hs]. apply NoDup_alt. intros i j k Hi Hj.
  apply Hs in Hi, Hj. congruence.
Qed.

Lemma dedupe_inv items out :
  dedupe lower items = Ok out →
  ∃ st, dedupe_loop lower (∅, []) items = Ok st ∧ out = JObj <$> st.2 ∧
        wf_state lower st.
Proof.
  unfold dedupe. destruct (dedupe_loop lower (∅, []) items) as [st|] eqn:E;
    simpl; [|done].
  intros [= <-]. exists st. split; [done|]. split; [done|].
  eapply wf_state_loop; [apply wf_state_init|done].
Qed.

Lemma fmap_okey (out : list dict) :
  key_of lower <$> (JObj <$> out) = okey <$> out.
Proof. by rewrite <- list_fmap_compose. Qed.

(** *** Items without a key *)

Lemma dedupe_step_no_key st r :
  item_key lower r = Ok [] → dedupe_step lower st r = Ok st.
Proof.
  unfold item_key, dedupe_step.
  destruct (py_get r k_question (JStr [])) as [q0|]; simpl; [|done].
  destruct (py_strip q0) as [q|]; simpl; [|done].
  intros [= ->]. by rewrite bool_decide_eq_true_2.
Qed.

Lemma kept_key_nonempty d : kept lower d → okey d ≠ [].
Proof. intros (q & a & o & _ & _ & -> & Hn)%kept_key. done. Qed.

(** A question made of whitespace only, and a missing question, give the
    empty key (as soon as lower-casing the empty string gives the empty
    string). *)
Lemma item_key_blank d q :
  lower [] = [] → dict_get k_question d = Some (JStr q) →
  Forall (λ c, is_space c = true) q → item_key lower (JObj d) = Ok [].
Proof.
  intros Hl Hq Hsp. unfold item_key, py_get. rewrite Hq. simpl.
  assert (lstrip q = []) as Hls.
  { clear Hq. induction q as [|c q IH]; [done|].
    apply Forall_cons in Hsp as [Hc Hsp]. simpl. rewrite Hc. by apply IH. }
  unfold strip. rewrite Hls. cbn.
  change (norm []) with (join (lit " ") (split (lower []))). by rewrite Hl.
Qed.

Lemma item_key_missing d :
  lower [] = [] → dict_get k_question d = None → item_key lower (JObj d) = Ok [].
Proof.
  intros Hl Hq. unfold item_key, py_get. rewrite Hq. cbn.
  change (norm []) with (join (lit " ") (split (lower []))). by rewrite Hl.
Qed.

(** *** Running the loop on kept objects with fresh keys *)

Lemma dedupe_step_kept seen out d :
  kept lower d → seen !! okey d = None →
  dedupe_step lower (seen, out) (JObj d) =
  Ok (<[okey d := length out]> seen, out ++ [d]).
Proof.
  intros (q & a & o & -> & Hs & Hk & Hn)%kept_key Hnone.
  rewrite Hk in *. unfold dedupe_step.
  change (py_get (JObj (mk_obj q a o)) k_question (JStr [])) with (Ok (JStr q)).
  change (py_get (JObj (mk_obj q a o)) k_answer (JStr [])) with (Ok a).
  change (py_get (JObj (mk_obj q a o)) k_optional (JBool false)) with (Ok o).
  cbn [rbind py_strip fst snd]. rewrite Hs.
  rewrite bool_decide_eq_false_2 by done. by rewrite Hnone.
Qed.

Lemma dedupe_loop_kept (l : list dict) : ∀ seen out,
  Forall (kept lower) l → NoDup (okey <$> l) →
  (∀ d, d ∈ l → seen !! okey d = None) →
  ∃ seen', dedupe_loop lower (seen, out) (JObj <$> l) = Ok (seen', out ++ l).
Proof.
  induction l as [|d l IH]; intros seen out Hk Hnd Hfresh.
  - exists seen. by rewrite app_nil_r.
  - apply Forall_cons in Hk as [Hd Hk].
    rewrite fmap_cons in Hnd. apply NoDup_cons in Hnd as [Hnin Hnd].
    cbn [fmap list_fmap dedupe_loop].
    rewrite dedupe_step_kept; [|done|apply Hfresh; left].
    cbn [rbind].
    destruct (IH (<[okey d := length out]> seen) (out ++ [d]) Hk Hnd) as [seen' E].
    + intros d' Hd'. rewrite lookup_insert_ne.
      * apply Hfresh. by right.
      * intros Heq. apply Hnin. rewrite Heq.
        by apply (list_elem_of_fmap_2 (λ d, key_of lower (JObj d))).
    + exists seen'. change (list_fmap dict json JObj l) with (JObj <$> l).
      rewrite E. by rewrite <- app_assoc.
Qed.

(** *** First occurrences *)

Lemma first_pos_app_l k l1 l2 p :
  first_pos lower k l1 = Some p → first_pos lower k (l1 ++ l2) = Some p.
Proof.
  unfold first_pos. intros H.
  destruct (list_find _ l1) as [[i x]|] eqn:E; [|done].
  by rewrite (list_find_app_l _ _ _ _ _ E).
Qed.

Lemma first_pos_elem k l :
  k ∈ key_of lower <$> l → is_Some (first_pos lower k l).
Proof.
  intros (it & -> & Hin)%list_elem_of_fmap. unfold first_pos.
  destruct (list_find_elem_of (λ x, key_of lower x = key_of lower it) l it Hin eq_refl)
    as [[i x] ->].
  by eexists.
Qed.

Lemma first_pos_lookup k l p :
  first_pos lower k l = Some p → ∃ it, l !! p = Some it ∧ key_of lower it = k.
Proof.
  unfold first_pos. destruct (list_find _ l) as [[i x]|] eqn:E; [|done].
  intros [= <-]. apply list_find_Some in E as (Hl & Hx & _). eauto.
Qed.

Lemma first_pos_snoc_new k l it :
  k ∉ key_of lower <$> l → key_of lower it = k →
  first_pos lower k (l ++ [it]) = Some (length l).
Proof.
  intros Hnin Hk. unfold first_pos.
  assert (list_find (λ x, key_of lower x = k) l = None) as Hnone.
  { apply list_find_None, Forall_forall. intros x Hx Hkx. apply Hnin.
    rewrite <- Hkx. by apply list_elem_of_fmap_2. }
  rewrite list_find_app_r by done. simpl.
  rewrite decide_True by done. done.
Qed.

Lemma first_pos_old k l1 l2 p :
  k ∈ key_of lower <$> l1 →
  first_pos lower k (l1 ++ l2) = Some p → first_pos lower k l1 = Some p.
Proof.
  intros [q Hq]%first_pos_elem H.
  rewrite (first_pos_app_l _ _ l2 _ Hq) in H. congruence.
Qed.

(** *** The loop invariant for order *)

Lemma tracks_init : tracks lower [] (∅, []).
Proof.
  split; [|split]; simpl.
  - intros k. split; [by intros ?%elem_of_nil|by intros [_ ?%elem_of_nil]].
  - intros i j ki kj pi pj Hi. by rewrite lookup_nil in Hi.
  - intros i d Hi. by rewrite lookup_nil in Hi.
Qed.

Lemma tracks_same pre st st' it :
  tracks lower pre st →
  okey <$> st'.2 = okey <$> st.2 →
  (∀ i d', st'.2 !! i = Some d' →
     ∃ d, st.2 !! i = Some d ∧
          dict_get k_question d' = dict_get k_question d ∧ okey d' = okey d) →
  (key_of lower it = [] ∨ key_of lower it ∈ okey <$> st.2) →
  tracks lower (pre ++ [it]) st'.
Proof.
  intros (HA & HB & HC) He Hq Hit. unfold tracks. cbn zeta. rewrite He.
  assert (∀ k, k ∈ okey <$> st.2 → k ∈ key_of lower <$> pre) as Hold
    by (intros k Hk; by apply HA).
  split; [|split].
  - intros k. rewrite HA, fmap_app, elem_of_app. simpl.
    rewrite list_elem_of_singleton.
    split; [intros [? ?]; auto|]. intros [Hne [Hin| ->]]; [done|].
    destruct Hit as [Hit|Hit]; [done|]. by apply HA.
  - intros i j ki kj pi pj Hi Hj Hpi Hpj Hlt.
    apply first_pos_old in Hpi; [|apply Hold; by eapply list_elem_of_lookup_2].
    apply first_pos_old in Hpj; [|apply Hold; by eapply list_elem_of_lookup_2].
    by eapply (HB i j).
  - intros i d' Hd'. destruct (Hq _ _ Hd') as (d & Hd & Hqq & Hkk).
    destruct (HC _ _ Hd) as (p & d0 & q0 & Hp & Hl & Hq0 & Hdq).
    exists p, d0, q0. rewrite Hkk.
    split; [by apply first_pos_app_l|].
    split; [by apply lookup_app_l_Some|].
    split; [done|]. congruence.
Qed.

Lemma tracks_new pre st d q0 a o :
  wf_state lower st → tracks lower pre st →
  get_d (JStr []) k_question d = JStr q0 →
  norm (strip q0) ≠ [] → st.1 !! norm (strip q0) = None →
  tracks lower (pre ++ [JObj d])
    (<[norm (strip q0) := length st.2]> st.1, st.2 ++ [mk_obj (strip q0) a o]).
Proof.
  intros [Hk Hs] (HA & HB & HC) Hq0 Hne Hnone.
  assert (key_of lower (JObj d) = norm (strip q0)) as Hkd.
  { unfold key_of, item_key, py_get. cbn [rbind]. by rewrite Hq0. }
  assert (norm (strip q0) ∉ okey <$> st.2) as Hnin.
  { intros [i Hi]%list_elem_of_lookup_1. apply Hs in Hi. congruence. }
  assert (norm (strip q0) ∉ key_of lower <$> pre) as Hnpre.
  { intros Hin. apply Hnin, HA. done. }
  pose proof (first_pos_snoc_new _ _ _ Hnpre Hkd) as Hfp.
  assert (∀ k, k ∈ okey <$> st.2 → k ∈ key_of lower <$> pre) as Hold
    by (intros k Hin; by apply HA).
  unfold tracks. cbn [fst snd]. cbn zeta.
  rewrite !fmap_app. cbn [fmap list_fmap]. rewrite key_of_mk_obj, strip_idem, Hkd.
  split; [|split].
  - intros k. rewrite !elem_of_app, !list_elem_of_singleton, HA.
    split; [|intros [? [?| ->]]; auto]. intros [[? ?]| ->]; auto.
  - intros i j ki kj pi pj Hi Hj Hpi Hpj Hlt.
    assert (i < length (okey <$> st.2)) as Hilt.
    { apply lookup_lt_Some in Hj. rewrite length_app in Hj. simpl in Hj. lia. }
    rewrite lookup_app_l in Hi by done.
    apply first_pos_old in Hpi; [|apply Hold; by eapply list_elem_of_lookup_2].
    destruct (decide (j < length (okey <$> st.2))) as [Hjlt|Hjge].
    + rewrite lookup_app_l in Hj by done.
      apply first_pos_old in Hpj; [|apply Hold; by eapply list_elem_of_lookup_2].
      by eapply (HB i j).
    + rewrite lookup_app_r in Hj by lia.
      destruct (j - length (okey <$> st.2)) as [|n] eqn:En; [|by destruct n].
      simpl in Hj. injection Hj as <-. rewrite Hfp in Hpj. injection Hpj as <-.
      apply first_pos_lookup in Hpi as (x & Hx & _).
      by apply lookup_lt_Some in Hx.
  - intros i d' Hd'.
    destruct (decide (i < length st.2)) as [Hilt|Hige].
    + rewrite lookup_app_l in Hd' by done.
      destruct (HC _ _ Hd') as (p & d0 & q1 & Hp & Hl & Hq1 & Hdq).
      exists p, d0, q1.
      split; [by apply first_pos_app_l|].
      split; [by apply lookup_app_l_Some|]. done.
    + rewrite lookup_app_r in Hd' by lia.
      destruct (i - length st.2) as [|n] eqn:En; [|by destruct n].
      simpl in Hd'. injection Hd' as <-.
      exists (length pre), d, q0. rewrite key_of_mk_obj, strip_idem.
      split; [done|]. split; [|done].
      rewrite lookup_app_r by lia. by rewrite Nat.sub_diag.
Qed.

Lemma tracks_step pre st it st' :
  wf_state lower st → tracks lower pre st →
  dedupe_step lower st it = Ok st' → tracks lower (pre ++ [it]) st'.
Proof.
  intros Hwf Ht H.
  destruct (dedupe_step_cases _ _ _ H) as (d & q0 & -> & Hq & Hkd & Hc).
  destruct Hc as [[He ->]|[(Hne & i & Hi & ->)|(Hne & Hn & ->)]].
  - apply (tracks_same pre st st); [done|done| |left; congruence].
    intros i d' Hd'. by exists d'.
  - destruct Hwf as [Hk Hs].
    destruct (okey_alter_merge (get_d JNull k_answer d)
                (get_d (JBool false) k_optional d) i _ Hk) as [Hk' He'].
    apply (tracks_same pre st); [done|done| |].
    + cbn [snd]. intros j d' Hd'.
      destruct (decide (i = j)) as [<-|Hij].
      * rewrite list_lookup_alter_eq in Hd'.
        destruct (st.2 !! i) as [d0|] eqn:E0; [|done].
        simpl in Hd'. injection Hd' as <-. exists d0. split; [done|].
        pose proof (Forall_lookup_1 _ _ _ _ Hk E0) as (q & a0 & o0 & -> & _).
        rewrite merge_mk_obj. done.
      * rewrite list_lookup_alter_ne in Hd' by done. by exists d'.
    + right. rewrite Hkd. apply Hs in Hi. by eapply list_elem_of_lookup_2.
  - by apply tracks_new.
Qed.

Lemma tracks_loop rest : ∀ pre st st',
  wf_state lower st → tracks lower pre st →
  dedupe_loop lower st rest = Ok st' → tracks lower (pre ++ rest) st'.
Proof.
  induction rest as [|it rest IH]; simpl; intros pre st st' Hwf Ht H.
  - rewrite app_nil_r. congruence.
  - destruct (dedupe_step lower st it) as [st1|] eqn:E; simpl in H; [|done].
    rewrite (cons_middle it), app_assoc.
    eapply IH; [by eapply wf_state_step|by eapply tracks_step|done].
Qed.

(** *** The object kept for one key *)

Lemma dedupe_step_total st it k :
  item_key lower it = Ok k → ∃ st', dedupe_step lower st it = Ok st'.
Proof.
  unfold item_key, dedupe_step.
  destruct it as [| | | | | |d]; simpl; try discriminate.
  destruct (py_strip _) as [q|]; simpl; [|done]. intros _.
  case_bool_decide; [by eexists|].
  destruct (st.1 !! norm q); by eexists.
Qed.

Lemma key_of_item_key it k : item_key lower it = Ok k → key_of lower it = k.
Proof. unfold key_of. by intros ->. Qed.

Lemma rec_for_step_other k st it st' :
  wf_state lower st → dedupe_step lower st it = Ok st' →
  key_of lower it ≠ k → rec_for k st' = rec_for k st.
Proof.
  intros [Hk Hs] H Hne.
  destruct (dedupe_step_cases _ _ _ H) as (d & q0 & -> & Hq & Hkd & Hc).
  rewrite Hkd in Hne. unfold rec_for.
  destruct Hc as [[He ->]|[(Hn0 & i & Hi & ->)|(Hn0 & Hn & ->)]]; [done| |].
  - cbn [fst snd]. destruct (st.1 !! k) as [j|] eqn:Ej; [|done].
    apply list_lookup_alter_ne. intros <-.
    apply Hs in Hi, Ej. congruence.
  - cbn [fst snd]. rewrite lookup_insert_ne by done.
    destruct (st.1 !! k) as [j|] eqn:Ej; [|done].
    apply lookup_app_l. apply Hs, lookup_lt_Some in Ej.
    by rewrite length_fmap in Ej.
Qed.

Lemma rec_for_loop_other k l : ∀ st,
  wf_state lower st → Forall (other_key lower k) l →
  ∃ st', dedupe_loop lower st l = Ok st' ∧ wf_state lower st' ∧
         rec_for k st' = rec_for k st.
Proof.
  induction l as [|it l IH]; intros st Hwf Hl.
  - by exists st.
  - apply Forall_cons in Hl as [(k' & Hk' & Hne) Hl]. simpl.
    destruct (dedupe_step_total st it k' Hk') as [st1 E1]. rewrite E1. simpl.
    pose proof (wf_state_step _ _ _ Hwf E1) as Hwf1.
    destruct (IH st1 Hwf1 Hl) as (st' & E & Hwf' & Hr).
    exists st'. split; [done|]. split; [done|]. rewrite Hr.
    eapply rec_for_step_other; [done|done|].
    by rewrite (key_of_item_key _ _ Hk').
Qed.

Lemma rec_for_step_same st d q0 :
  wf_state lower st →
  get_d (JStr []) k_question d = JStr q0 → norm (strip q0) ≠ [] →
  ∃ st', dedupe_step lower st (JObj d) = Ok st' ∧
    rec_for (norm (strip q0)) st' =
    Some (match rec_for (norm (strip q0)) st with
          | Some prev =>
              merge (get_d JNull k_answer d) (get_d (JBool false) k_optional d) prev
          | None =>
              mk_obj (strip q0) (get_d (JStr []) k_answer d)
                     (get_d (JBool false) k_optional d)
          end).
Proof.
  intros [Hk Hs] Hq Hne. unfold dedupe_step, py_get. cbn [rbind].
  rewrite Hq. cbn [py_strip rbind]. rewrite bool_decide_eq_false_2 by done.
  unfold rec_for.
  destruct (st.1 !! norm (strip q0)) as [i|] eqn:Ei.
  - eexists. split; [done|]. cbn [fst snd]. rewrite Ei.
    rewrite list_lookup_alter_eq.
    apply Hs in Ei. rewrite list_lookup_fmap in Ei.
    by destruct (st.2 !! i).
  - eexists. split; [done|]. cbn [fst snd]. rewrite lookup_insert_eq.
    rewrite lookup_app_r by done. by rewrite Nat.sub_diag.
Qed.

(** Two items with the same non-empty key among items with other keys:
    the loop ends with the first one kept and the second merged into
    it. *)
Lemma dedupe_loop_pair l0 l1 l2 dx dy qx qy :
  let k := norm (strip qx) in
  Forall (other_key lower k) l0 → Forall (other_key lower k) l1 →
  Forall (other_key lower k) l2 →
  get_d (JStr []) k_question dx = JStr qx →
  get_d (JStr []) k_question dy = JStr qy →
  norm (strip qy) = k → k ≠ [] →
  ∃ st, dedupe_loop lower (∅, []) (l0 ++ JObj dx :: l1 ++ JObj dy :: l2) = Ok st ∧
    wf_state lower st ∧
    rec_for k st =
    Some (merge (get_d JNull k_answer dy) (get_d (JBool false) k_optional dy)
            (mk_obj (strip qx) (get_d (JStr []) k_answer dx)
                    (get_d (JBool false) k_optional dx))).
Proof.
  intros k H0 H1 H2 Hx Hy Hky Hne.
  destruct (rec_for_loop_other k l0 _ wf_state_init H0) as (s0 & E0 & W0 & R0).
  destruct (rec_for_step_same s0 dx qx W0 Hx Hne) as (s1 & E1 & R1).
  pose proof (wf_state_step _ _ _ W0 E1) as W1.
  destruct (rec_for_loop_other k l1 _ W1 H1) as (s2 & E2 & W2 & R2).
  fold k in R1. rewrite <- Hky in Hne.
  destruct (rec_for_step_same s2 dy qy W2 Hy Hne) as (s3 & E3 & R3).
  pose proof (wf_state_step _ _ _ W2 E3) as W3.
  destruct (rec_for_loop_other k l2 _ W3 H2) as (s4 & E4 & W4 & R4).
  exists s4. split; [|split; [done|]].
  - rewrite dedupe_loop_app, E0. cbn [rbind dedupe_loop]. rewrite E1. cbn [rbind].
    rewrite dedupe_loop_app, E2. cbn [rbind dedupe_loop]. rewrite E3. done.
  - rewrite R4, <- Hky, R3, Hky, R2, R1, R0. done.
Qed.

(** From the loop state to the returned list. *)
Lemma rec_for_out k st d :
  wf_state lower st → rec_for k st = Some d →
  ∃ i, (JObj <$> st.2) !! i = Some (JObj d) ∧
       ∀ j r, (JObj <$> st.2) !! j = Some r → key_of lower r = k → j = i.
Proof.
  intros [Hk Hs]. unfold rec_for.
  destruct (st.1 !! k) as [i|] eqn:Ei; [|done]. intros Hd.
  exists i. split; [by rewrite list_lookup_fmap, Hd|].
  intros j r Hj Hr. rewrite list_lookup_fmap in Hj.
  destruct (st.2 !! j) as [d'|] eqn:Ej; [|done]. simpl in Hj. injection Hj as <-.
  assert (st.1 !! k = Some j) as Hkj.
  { apply Hs. by rewrite list_lookup_fmap, Ej, <- Hr. }
  congruence.
Qed.

(** *** The stated properties *)

(** C1 (amended).  Take two records with the same non-empty normalization
    key, one with a non-empty answer [a] (the spec's ["A"]) and optional
    false, the other with answer [""] and optional true, in an input in
    which every other record has a key and a different one.  Then [dedupe]
    returns a list with exactly one record for that key; its answer is [a]
    and its optional flag is true, whichever of the two comes first (its
    question is the stripped question of the one that comes first). *)
Theorem dedupe_merge_pair l0 l1 l2 da de qa qe a :
  let k := norm_key lower qa in
  Forall (other_key lower k) l0 → Forall (other_key lower k) l1 →
  Forall (other_key lower k) l2 →
  dict_get k_question da = Some (JStr qa) →
  dict_get k_answer da = Some (JStr a) → a ≠ [] →
  dict_get k_optional da = Some (JBool false) →
  dict_get k_question de = Some (JStr qe) →
  dict_get k_answer de = Some (JStr []) →
  dict_get k_optional de = Some (JBool true) →
  norm_key lower qe = k → k ≠ [] →
  (∃ out i,
      dedupe lower (l0 ++ JObj da :: l1 ++ JObj de :: l2) = Ok out ∧
      out !! i = Some (JObj (mk_obj (strip qa) (JStr a) (JBool true))) ∧
      ∀ j r, out !! j = Some r → key_of lower r = k → j = i) ∧
  (∃ out i,
      dedupe lower (l0 ++ JObj de :: l1 ++ JObj da :: l2) = Ok out ∧
      out !! i = Some (JObj (mk_obj (strip qe) (JStr a) (JBool true))) ∧
      ∀ j r, out !! j = Some r → key_of lower r = k → j = i).
Proof.
  intros k H0 H1 H2 Hqa Haa Ha Hoa Hqe Hae Hoe Hke Hne.
  unfold norm_key in k, Hke.
  assert (truthy (JStr a) = true) as Hta by (by destruct a).
  split.
  - destruct (dedupe_loop_pair l0 l1 l2 da de qa qe) as (st & E & W & R);
      try done; try (by rewrite ?Hqa, ?Hqe).
    rewrite Haa, Hoa, Hae, Hoe in R. cbn [default from_option id] in R.
    rewrite merge_mk_obj, Hta in R. cbn in R.
    destruct (rec_for_out _ _ _ W R) as (i & Hi & Hu).
    exists (JObj <$> st.2), i. unfold dedupe. rewrite E. done.
  - rewrite <- Hke in H0, H1, H2, Hne.
    destruct (dedupe_loop_pair l0 l1 l2 de da qe qa) as (st & E & W & R);
      try done; try (by rewrite ?Hqa, ?Hqe).
    rewrite Haa, Hoa, Hae, Hoe in R. cbn [default from_option id] in R.
    rewrite merge_mk_obj, Hta in R. cbn in R.
    destruct (rec_for_out _ _ _ W R) as (i & Hi & Hu).
    exists (JObj <$> st.2), i. unfold dedupe. rewrite E.
    rewrite <- Hke. done.
Qed.

(** C2.  [dedupe] is idempotent: run on its own output, it returns that
    output unchanged. *)
Theorem dedupe_idempotent items out :
  dedupe lower items = Ok out → dedupe lower out = Ok out.
Proof.
  intros (st & _ & -> & Hwf)%dedupe_inv.
  pose proof (wf_state_NoDup _ Hwf) as Hnd. destruct Hwf as [Hk _].
  destruct (dedupe_loop_kept st.2 ∅ [] Hk Hnd) as [seen' E].
  { intros d _. apply lookup_empty. }
  unfold dedupe. by rewrite E.
Qed.

(** C3.  The keys of the output of [dedupe] are pairwise distinct; they
    are exactly the non-empty keys of the input; two kept records stand
    in the order of the first occurrences of their keys in the input; and
    each kept record carries the stripped question of the first input
    record with its key. *)
Theorem dedupe_first_seen_order items out :
  dedupe lower items = Ok out →
  NoDup (key_of lower <$> out) ∧
  (∀ k, k ∈ key_of lower <$> out ↔ k ≠ [] ∧ k ∈ key_of lower <$> items) ∧
  (∀ i j ki kj pi pj,
      (key_of lower <$> out) !! i = Some ki →
      (key_of lower <$> out) !! j = Some kj →
      first_pos lower ki items = Some pi →
      first_pos lower kj items = Some pj →
      (i < j ↔ pi < pj)) ∧
  (∀ i r, out !! i = Some r →
      ∃ p d0 q0,
        first_pos lower (key_of lower r) items = Some p ∧
        items !! p = Some (JObj d0) ∧
        default (JStr []) (dict_get k_question d0) = JStr q0 ∧
        py_get r k_question JNull = Ok (JStr (strip q0))).
Proof.
  intros (st & E & -> & Hwf)%dedupe_inv.
  pose proof (tracks_loop items [] _ _ wf_state_init tracks_init E)
    as (HA & HB & HC).
  pose proof (wf_state_NoDup _ Hwf) as Hnd.
  rewrite app_nil_l in *. rewrite fmap_okey.
  split; [done|]. split; [done|]. split.
  - intros i j ki kj pi pj Hi Hj Hpi Hpj. split; [by eapply (HB i j)|].
    intros Hlt. destruct (decide (i < j)) as [|Hge]; [done|]. exfalso.
    destruct (decide (i = j)) as [->|Hij].
    + rewrite Hi in Hj. injection Hj as <-. rewrite Hpi in Hpj.
      injection Hpj as <-. lia.
    + assert (j < i) as Hji by lia.
      pose proof (HB j i kj ki pj pi Hj Hi Hpj Hpi Hji). lia.
  - intros i r Hr. rewrite list_lookup_fmap in Hr.
    destruct (st.2 !! i) as [d|] eqn:Ed; [|done]. simpl in Hr.
    injection Hr as <-.
    destruct (HC _ _ Ed) as (p & d0 & q0 & Hp & Hl & Hq0 & Hdq).
    exists p, d0, q0. unfold py_get. rewrite Hdq. done.
Qed.

(** C4.  A record whose question normalizes to the empty string changes
    nothing: [dedupe] returns what it returns without that record (so the
    record takes part in no merge and the number of kept records is the
    same), and no record with an empty key, that record included, is in
    the output. *)
Theorem dedupe_drops_empty_key pre r post :
  item_key lower r = Ok [] →
  dedupe lower (pre ++ r :: post) = dedupe lower (pre ++ post) ∧
  ∀ out, dedupe lower (pre ++ r :: post) = Ok out →
    (r ∉ out) ∧ Forall (λ d, key_of lower d ≠ []) out.
Proof.
  intros Hr.
  assert (dedupe lower (pre ++ r :: post) = dedupe lower (pre ++ post)) as Heq.
  { unfold dedupe. rewrite !dedupe_loop_app.
    destruct (dedupe_loop lower (∅, []) pre) as [st|]; [|done].
    cbn [rbind dedupe_loop]. by rewrite dedupe_step_no_key. }
  split; [done|]. intros out (st & _ & -> & [Hk _])%dedupe_inv.
  assert (Forall (λ d, key_of lower d ≠ []) (JObj <$> st.2)) as Hall.
  { apply Forall_fmap. eapply Forall_impl; [exact Hk|].
    intros d Hd. by apply kept_key_nonempty. }
  split; [|done]. intros Hin.
  rewrite Forall_forall in Hall. apply (Hall _ Hin).
  by apply key_of_item_key.
Qed.

End DedupeProps.

(** ** Dictionaries *)

Lemma dict_get_set_eq k v d : dict_get k (dict_set k v d) = Some v.
Proof.
  induction d as [|[k' v'] d IH]; simpl.
  - by rewrite decide_True.
  - destruct (decide (k = k')) as [->|Hne]; simpl.
    + by rewrite decide_True.
    + by rewrite decide_False.
Qed.

Lemma dict_get_set_ne k k' v d :
  k' ≠ k → dict_get k' (dict_set k v d) = dict_get k' d.
Proof.
  intros Hne. induction d as [|[k1 v1] d IH]; simpl.
  - by rewrite decide_False.
  - destruct (decide (k = k1)) as [->|Hk]; simpl.
    + by rewrite !decide_False.
    + destruct (decide (k' = k1)); [done|apply IH].
Qed.

Lemma dict_set_keys k v d :
  is_Some (dict_get k d) → (dict_set k v d).*1 = d.*1.
Proof.
  induction d as [|[k1 v1] d IH]; simpl; intros [x Hx]; [done|].
  destruct (decide (k = k1)) as [->|Hk]; simpl; [done|].
  f_equal. apply IH. by exists x.
Qed.

(** ** Missing fields in the deduplicator *)

Section DedupeDefaults.

Variable lower : pystr → pystr.

Lemma with_defaults_get k d :
  k ≠ k_answer → k ≠ k_optional →
  dict_get k (with_defaults d) = dict_get k d.
Proof.
  intros Ha Ho. unfold with_defaults.
  destruct (dict_get k_answer d) eqn:Ea;
    destruct (dict_get k_optional _) eqn:Eo;
    rewrite ?dict_get_set_ne by done; done.
Qed.

Lemma with_defaults_answer d :
  dict_get k_answer (with_defaults d)
  = Some (default (JStr []) (dict_get k_answer d)).
Proof.
  unfold with_defaults.
  destruct (dict_get k_answer d) as [a|] eqn:Ea.
  - destruct (dict_get k_optional d) eqn:Eo; [by rewrite Ea|].
    by rewrite dict_get_set_ne, Ea.
  - destruct (dict_get k_optional _) eqn:Eo.
    + by rewrite dict_get_set_eq.
    + by rewrite dict_get_set_ne, dict_get_set_eq.
Qed.

Lemma with_defaults_optional d :
  dict_get k_optional (with_defaults d)
  = Some (default (JBool false) (dict_get k_optional d)).
Proof.
  unfold with_defaults.
  destruct (dict_get k_answer d) as [a|] eqn:Ea.
  - destruct (dict_get k_optional d) eqn:Eo; [by rewrite Eo|].
    by rewrite dict_get_set_eq.
  - rewrite dict_get_set_ne by done.
    destruct (dict_get k_optional d) eqn:Eo.
    + by rewrite dict_get_set_ne, Eo.
    + by rewrite dict_get_set_eq.
Qed.

Lemma merge_falsy a a' o prev :
  truthy a = false → truthy a' = false → merge a o prev = merge a' o prev.
Proof. intros Ha Ha'. unfold merge. by rewrite Ha, Ha', !andb_false_r. Qed.

Lemma dedupe_step_with_defaults st d :
  dedupe_step lower st (JObj (with_defaults d)) = dedupe_step lower st (JObj d).
Proof.
  unfold dedupe_step, py_get. cbn [rbind].
  rewrite with_defaults_get by done.
  destruct (py_strip _) as [q|]; [|done]. cbn [rbind].
  case_bool_decide; [done|].
  rewrite with_defaults_answer, with_defaults_optional. cbn [default from_option id].
  destruct (st.1 !! norm lower q) as [i|]; [|done].
  do 2 f_equal. destruct (dict_get k_answer d); [done|].
  apply list_alter_ext; [|done]. intros prev _. by apply merge_falsy.
Qed.

(** X17.  In [dedupe], a record with a missing [answer] or [optional]
    field counts exactly as the same record with the defaults written in. *)
Lemma dedupe_with_defaults pre d post :
  dedupe lower (pre ++ JObj (with_defaults d) :: post)
  = dedupe lower (pre ++ JObj d :: post).
Proof.
  unfold dedupe. rewrite !dedupe_loop_app.
  destruct (dedupe_loop lower (∅, []) pre) as [st|]; [|done].
  cbn [rbind dedupe_loop]. by rewrite dedupe_step_with_defaults.
Qed.

End DedupeDefaults.

(** ** Text the console can show *)

Lemma lit_encodable s : Forall encodable (lit s).
Proof.
  unfold lit. apply Forall_fmap, Forall_forall. intros a _. cbn.
  pose proof (Ascii.N_ascii_bounded a). unfold encodable. lia.
Qed.

Lemma encodable_small c : (c < 0xD800)%N → encodable c.
Proof. unfold encodable. lia. Qed.

(** Splits a goal [Forall encodable (s1 ++ ... ++ sn)] and closes the
    parts that are literals or are among the hypotheses. *)
Ltac printable :=
  rewrite ?Forall_app, ?Forall_cons;
  repeat split;
  first [ apply lit_encodable | apply Forall_nil_2
        | apply encodable_small; reflexivity | assumption | idtac ].

Lemma print_Done s w :
  Forall encodable s → print s w = Done () (log (EvPrint (s ++ [10%N])) w).
Proof. intros H. unfold print. by rewrite bool_decide_eq_true_2. Qed.

Lemma print_inv s w u w' :
  print s w = Done u w' →
  Forall encodable s ∧ w' = log (EvPrint (s ++ [10%N])) w.
Proof. unfold print. case_bool_decide; [|done]. by intros [= _ <-]. Qed.

Lemma print_Raise s w e : print s w = Raise e → e = UnicodeEncodeError.
Proof. unfold print. case_bool_decide; [done|]. by intros [= <-]. Qed.

Lemma DATA_printable here : Forall encodable here → Forall encodable (DATA here).
Proof. intros H. unfold DATA. printable. Qed.

Lemma BACKUP_printable here : Forall encodable here → Forall encodable (BACKUP here).
Proof. intros H. unfold BACKUP. printable. Qed.

(** ** The tools *)

Section ToolsProps.

Variable lower : pystr → pystr.
Variable here : pystr.
Variable json_loads : pystr → result json.
Variable float_repr : spec_float → pystr.
Variable repr_other : json → pystr.

(** The path of the scripts is text the console can show. *)
Hypothesis here_printable : Forall encodable here.

(** What a successful iteration of [interactive_fill] has done. *)
Lemma fill_one_Done it w it' w' :
  fill_one it w = Done it' w' →
  ∃ d q a line rest,
    it = JObj d ∧ dict_get k_question d = Some (JStr q) ∧
    dict_get k_answer d = Some a ∧ stdin w = line :: rest ∧
    it' = (if strip line is [] then JObj d
           else JObj (dict_set k_answer (JStr (strip line)) d)).
Proof.
  unfold fill_one, io_bind, io_ret, lift, py_item, print, input.
  destruct it as [| | | | | |d]; try discriminate.
  destruct (dict_get k_question d) as [qv|] eqn:Eq; [|discriminate].
  destruct qv as [| | | |q| |]; try discriminate. cbn [py_concat].
  case_bool_decide as Hp1; [|discriminate].
  destruct (dict_get k_answer d) as [a|] eqn:Ea; [|discriminate].
  destruct (py_concat _ _) as [l2|]; [|discriminate].
  case_bool_decide as Hp2; [|discriminate].
  cbn [log stdin]. destruct (stdin w) as [|line rest] eqn:Ein; [discriminate|].
  intros H. exists d, q, a, line, rest.
  repeat (split; [done|]).
  destruct (strip line); by simplify_eq/=.
Qed.

(** One iteration of the interactive filler on a record whose question
    and answer are texts the console can show. *)
Lemma fill_one_answer d q a line rest w :
  dict_get k_question d = Some (JStr q) →
  dict_get k_answer d = Some (JStr a) →
  Forall encodable q → Forall encodable a →
  stdin w = line :: rest →
  ∃ it',
    fill_one (JObj d) w =
      Done it'
        (World (fs w) rest
           (trace w ++
            [EvPrint (msg_question ++ q ++ [10%N]);
             EvPrint (msg_reponse_actuelle ++ (if a is [] then msg_vide else a)
                      ++ [10%N]);
             EvPrint msg_nouvelle_reponse;
             EvInput line])) ∧
    it' = (if strip line is [] then JObj d
           else JObj (dict_set k_answer (JStr (strip line)) d)) ∧
    py_item it' k_answer = Ok (JStr (if strip line is [] then a else strip line)).
Proof.
  intros Hq Ha Hpq Hpa Hin. eexists. split; [|split; [reflexivity|]].
  - unfold fill_one, io_bind, io_ret, lift, py_item, input. rewrite Hq, Ha.
    cbn [py_concat]. rewrite print_Done by (unfold msg_question; printable).
    unfold py_or.
    replace (py_concat msg_reponse_actuelle
               (if truthy (JStr a) then JStr a else JStr msg_vide))
      with (Ok (msg_reponse_actuelle ++ (if a is [] then msg_vide else a)))
      by (by destruct a).
    assert (Forall encodable (if a is [] then msg_vide else a)) as Hshown
      by (destruct a; [apply lit_encodable|done]).
    rewrite print_Done by (unfold msg_reponse_actuelle; printable).
    cbn [log stdin fs trace]. rewrite Hin.
    rewrite <- !app_assoc. cbn [app].
    by destruct (strip line).
  - destruct (strip line); cbn [py_item].
    + by rewrite Ha.
    + by rewrite dict_get_set_eq.
Qed.

Lemma fill_one_frame it w it' w' :
  fill_one it w = Done it' w' → same_but_answer it it'.
Proof.
  intros (d & q & a & line & rest & -> & Hq & Ha & _ & ->)%fill_one_Done.
  destruct (strip line) as [|c ans].
  - by exists d, d.
  - exists d, (dict_set k_answer (JStr (c :: ans)) d).
    split; [done|]. split; [done|]. split.
    + apply dict_set_keys. by rewrite Ha.
    + intros k Hk. by apply dict_get_set_ne.
Qed.

(** C10.  The interactive filler changes answers only: when it returns,
    the list has the same length, and the record at each position has
    the same keys in the same order and the same value under every key
    but [answer], so the same question and the same optional flag. *)
Theorem interactive_fill_frame items w out w' :
  interactive_fill items w = Done out w' →
  length out = length items ∧ Forall2 same_but_answer items out.
Proof.
  revert w out w'. induction items as [|it items IH]; intros w out w'.
  - cbn. intros [= <- _]. split; [done|constructor].
  - cbn [interactive_fill]. unfold io_bind at 1.
    destruct (fill_one it w) as [it1 w1| |] eqn:E1; [|done|done].
    unfold io_bind.
    destruct (interactive_fill items w1) as [rest1 w2| |] eqn:E2; [|done|done].
    unfold io_ret. intros [= <- _].
    destruct (IH _ _ _ E2) as [Hlen Hall].
    split; [by rewrite !length_cons, Hlen|].
    constructor; [by eapply fill_one_frame|done].
Qed.


(** C9.  When the data file does not exist, the fill tool asks whether it
    exists, prints one message that ends with the expected path and
    returns normally (exit status 0): no file is copied, read or written.
    The report tool does the same and then exits with status 2.  (The
    message can be printed by [here_printable].) *)
Theorem missing_data_file args argv w :
  fs w !! DATA here = None →
  let w' := World (fs w) (stdin w)
              (trace w ++
               [EvExists (DATA here) false;
                EvPrint (msg_introuvable ++ lit " " ++ DATA here ++ [10%N])]) in
  main lower here json_loads float_repr args w = Done () w' ∧
  exit_status (main lower here json_loads float_repr args w) = 0%Z ∧
  qna_main here json_loads float_repr repr_other argv w = Exit 2 w' ∧
  exit_status (qna_main here json_loads float_repr repr_other argv w) = 2%Z.
Proof.
  intros Hnone w'.
  assert (Forall encodable (msg_introuvable ++ lit " " ++ DATA here)) as Hmsg.
  { pose proof (DATA_printable here here_printable). unfold msg_introuvable.
    printable. }
  assert (main lower here json_loads float_repr args w = Done () w') as Hm.
  { unfold main, io_bind, path_exists. rewrite Hnone.
    rewrite bool_decide_eq_false_2 by (by intros [? ?]).
    cbn [negb]. rewrite print_Done by done. unfold log. cbn [fs stdin trace].
    unfold w'. by rewrite <- !app_assoc. }
  assert (qna_main here json_loads float_repr repr_other argv w = Exit 2 w') as Hq.
  { unfold qna_main, io_bind, path_exists, DATA_FILE. fold (DATA here).
    rewrite Hnone. rewrite bool_decide_eq_false_2 by (by intros [? ?]).
    cbn [negb]. rewrite print_Done by done. unfold sys_exit, log.
    cbn [fs stdin trace]. unfold w'. by rewrite <- !app_assoc. }
  rewrite Hm, Hq. done.
Qed.

(** C8, at a record without an [answer] field whose question the console
    can show: the Reporter prints the text [None] for the missing answer,
    not the empty string. *)
Theorem print_qna_missing_answer q w :
  Forall encodable q →
  print_qna repr_other (JArr [JObj [(k_question, JStr q)]]) w =
  Done ()
    (log (EvPrint (lit "1. Question: " ++ q ++ [10%N]
                   ++ lit "   R" ++ [233%N] ++ lit "ponse: " ++ lit "None"
                   ++ [10%N; 10%N])) w).
Proof.
  intros Hq.
  unfold print_qna, io_bind, lift. cbn [py_iter print_qna_from].
  unfold io_bind, lift, qna_block, py_get.
  change (dict_get k_question [(k_question, JStr q)]) with (Some (JStr q)).
  change (dict_get k_answer [(k_question, JStr q)]) with (@None json).
  cbn [default from_option id rbind py_str io_ret].
  rewrite print_Done by printable.
  do 2 f_equal. f_equal.
  by rewrite <- !app_assoc.
Qed.

End ToolsProps.

(** ** Saving *)

Lemma encode_cp_is_Some c : encodable c → is_Some (encode_cp c).
Proof.
  intros [Hlt Hns]. unfold encode_cp.
  destruct (N.ltb_spec c 0x80); [by eexists|].
  destruct (N.ltb_spec c 0x800); [by eexists|].
  destruct ((0xD800 <=? c)%N && (c <=? 0xDFFF)%N) eqn:Hsur.
  { apply andb_true_iff in Hsur as [?%N.leb_le ?%N.leb_le]. by destruct Hns. }
  destruct (N.ltb_spec c 0x10000); [by eexists|].
  destruct (N.ltb_spec c 0x110000); [by eexists|lia].
Qed.

Lemma utf8_encode_is_Some s : Forall encodable s → is_Some (utf8_encode s).
Proof.
  intros Hs. unfold utf8_encode. apply fmap_is_Some, mapM_is_Some.
  eapply Forall_impl; [exact Hs|]. intros c Hc. by apply encode_cp_is_Some.
Qed.

Lemma encode_cp_Some c bs : encode_cp c = Some bs → encodable c.
Proof.
  unfold encode_cp, encodable.
  destruct (N.ltb_spec c 0x80); [lia|].
  destruct (N.ltb_spec c 0x800); [lia|].
  destruct ((0xD800 <=? c)%N && (c <=? 0xDFFF)%N) eqn:Hsur; [done|].
  apply andb_false_iff in Hsur as [?%N.leb_gt| ?%N.leb_gt];
    (destruct (N.ltb_spec c 0x10000); [lia|]);
    (destruct (N.ltb_spec c 0x110000); [lia|done]).
Qed.

Lemma utf8_encode_Some s bs : utf8_encode s = Some bs → Forall encodable s.
Proof.
  unfold utf8_encode. intros (chunks & Hm & _)%fmap_Some.
  apply mapM_Some in Hm. induction Hm as [|c ch s chs Hc _ IH]; constructor.
  - by eapply encode_cp_Some.
  - exact IH.
Qed.

Lemma esc_char_non_ascii c : (128 ≤ c)%N → esc_char c = [c].
Proof.
  intros Hc. unfold esc_char.
  repeat match goal with
  | |- context [(c =? ?n)%N] => destruct (N.eqb_spec c n); [lia|]
  end.
  destruct (N.ltb_spec c 32); [lia|done].
Qed.

(** The serializer writes a character as the specification has it. *)
Lemma esc_char_text c : esc_char c = char_text c.
Proof.
  unfold char_text. destruct (N.leb_spec 128 c) as [Hc|Hc].
  - by apply esc_char_non_ascii.
  - assert (Forall (λ n, esc_char (N.of_nat n) =
                         if (N.of_nat n =? 34)%N || (N.of_nat n =? 92)%N
                         then [92%N; N.of_nat n]
                         else default [N.of_nat n] (control_texts !! n))
              (seq 0 128)) as Hall.
    { apply (bool_decide_unpack _). vm_compute. exact I. }
    rewrite Forall_forall in Hall.
    specialize (Hall (N.to_nat c)). rewrite N2Nat.id in Hall.
    apply Hall, elem_of_seq. lia.
Qed.

Lemma enc_str_quoted s : enc_str s = quoted s.
Proof.
  unfold enc_str, quoted. do 2 f_equal.
  induction s as [|c s IH]; [done|].
  cbn [flat_map fmap list_fmap concat]. by rewrite IH, esc_char_text.
Qed.

Lemma char_text_encodable c : encodable c → Forall encodable (char_text c).
Proof.
  intros Hc. unfold char_text. destruct (N.leb_spec 128 c) as [Hge|Hlt].
  - by constructor.
  - assert (Forall (λ n, Forall encodable
                           (if (N.of_nat n =? 34)%N || (N.of_nat n =? 92)%N
                            then [92%N; N.of_nat n]
                            else default [N.of_nat n] (control_texts !! n)))
              (seq 0 128)) as Hall.
    { apply (bool_decide_unpack _). vm_compute. exact I. }
    rewrite Forall_forall in Hall.
    specialize (Hall (N.to_nat c)). rewrite N2Nat.id in Hall.
    apply Hall, elem_of_seq. lia.
Qed.

Lemma quoted_encodable s : Forall encodable s → Forall encodable (quoted s).
Proof.
  intros Hs. unfold quoted. rewrite !Forall_app. split; [|split]; [printable| |printable].
  induction Hs as [|c s Hc _ IH]; [constructor|].
  cbn [fmap list_fmap concat]. apply Forall_app. split; [|done].
  by apply char_text_encodable.
Qed.

Lemma file_json_Some json_loads bs v :
  file_json json_loads bs = Some v ↔
  ∃ text, utf8_decode bs = Some text ∧ json_loads (universal_newlines text) = Ok v.
Proof.
  unfold file_json. destruct (utf8_decode bs) as [text|].
  - destruct (json_loads (universal_newlines text)) as [v'|e] eqn:E.
    + split; [intros [= ->]; by exists text|].
      intros (t & [= <-] & Ht). congruence.
    + split; [done|]. intros (t & [= <-] & Ht). congruence.
  - split; [done|]. by intros (t & ? & _).
Qed.

Section SaveProps.

Variable lower : pystr → pystr.
Variable here : pystr.
Variable json_loads : pystr → result json.
Variable float_repr : spec_float → pystr.

(** The path of the scripts is text the console can show. *)
Hypothesis here_printable : Forall encodable here.

Lemma enc_record r :
  enc float_repr 1 (record_json r) = layout_record float_repr r.
Proof.
  destruct r as [[q a] o]. unfold layout_record, record_json, mk_obj.
  cbn [enc fmap list_fmap join fst snd]. by rewrite <- !app_assoc.
Qed.

Lemma dumps_collection (c : list record) :
  dumps float_repr (JArr (record_json <$> c)) = layout_collection float_repr c.
Proof.
  assert (∀ l : list record,
            enc float_repr 1 <$> (record_json <$> l)
            = layout_record float_repr <$> l) as Hmap.
  { intros l. induction l as [|x l IH]; [done|].
    by rewrite !fmap_cons, enc_record, IH. }
  destruct c as [|r c]; [done|]. unfold dumps, layout_collection.
  rewrite <- Hmap. by rewrite !fmap_cons.
Qed.

(** What [dedupe] returns is a list of records in that form. *)
Lemma dedupe_output_records items out :
  dedupe lower items = Ok out → ∃ c : list record, out = record_json <$> c.
Proof.
  intros (st & _ & -> & [Hk _])%dedupe_inv.
  induction Hk as [|d l (q & a & o & -> & _) _ [c Hc]].
  - by exists [].
  - exists ((q, a, o) :: c). cbn [fmap list_fmap]. by rewrite <- Hc.
Qed.

(** And so is what [interactive_fill] makes of it. *)
Lemma interactive_fill_records (c : list record) : ∀ w out w',
  interactive_fill (record_json <$> c) w = Done out w' →
  ∃ c' : list record, out = record_json <$> c'.
Proof.
  induction c as [|[[q a] o] c IH]; intros w out w'.
  - cbn. intros [= <- _]. by exists [].
  - cbn [fmap list_fmap interactive_fill]. unfold io_bind at 1.
    destruct (fill_one _ w) as [it1 w1| |] eqn:E1; [|done|done].
    unfold io_bind.
    destruct (interactive_fill _ w1) as [rest1 w2| |] eqn:E2; [|done|done].
    unfold io_ret. intros [= <- _].
    destruct (IH _ _ _ E2) as [c' ->].
    apply fill_one_Done in E1
      as (d & q1 & a1 & line & rest & [= <-] & _ & _ & _ & ->).
    destruct (strip line) as [|ch ans].
    + by exists ((q, a, o) :: c').
    + by exists ((q, JStr (ch :: ans), o) :: c').
Qed.

(** [save] fails on a text that UTF-8 cannot encode. *)
Lemma save_unencodable data w :
  ¬ Forall encodable (dumps float_repr data) →
  save here float_repr data w = Raise UnicodeEncodeError.
Proof.
  intros Hne. unfold save, write_text.
  destruct (utf8_encode _) as [bs|] eqn:E; [|done].
  by apply utf8_encode_Some in E.
Qed.

(** The serializer writes a Record as the specification has it. *)
Lemma enc_spec_record r :
  lit "  " ++ enc float_repr 1 (spec_json r) = record_text r.
Proof.
  destruct r as [[q a] o]. unfold spec_json, record_text.
  cbn [enc fmap list_fmap join fst snd].
  change (enc_str k_question) with ([34%N] ++ lit "question" ++ [34%N]).
  change (enc_str k_answer) with ([34%N] ++ lit "answer" ++ [34%N]).
  change (enc_str k_optional) with ([34%N] ++ lit "optional" ++ [34%N]).
  rewrite !enc_str_quoted, <- !app_assoc.
  destruct o; reflexivity.
Qed.

Lemma join_records (sep : pystr) (xs : list pystr) :
  xs ≠ [] →
  lit "  " ++ join (lit "," ++ [10%N] ++ lit "  ") xs
  = join (lit "," ++ [10%N]) ((λ x, lit "  " ++ x) <$> xs).
Proof.
  induction xs as [|x xs IH]; [done|]. intros _.
  destruct xs as [|y xs]; [done|].
  rewrite !fmap_cons in *. cbn [join] in *.
  rewrite <- IH by done. by rewrite <- !app_assoc.
Qed.

Lemma dumps_spec_collection (c : list spec_record) :
  dumps float_repr (JArr (spec_json <$> c)) = collection_text c.
Proof.
  destruct c as [|r c]; [done|]. unfold dumps, collection_text.
  transitivity (lit "[" ++ ([10%N] ++ lit "  ")
                ++ join (lit "," ++ [10%N] ++ lit "  ")
                     (enc float_repr 1 <$> (spec_json <$> r :: c))
                ++ [10%N] ++ lit "]"); [done|].
  rewrite <- !app_assoc. do 2 f_equal. rewrite app_assoc. f_equal.
  rewrite (join_records []) by done. f_equal.
  rewrite <- !list_fmap_compose. apply list_fmap_ext.
  intros i x _. apply enc_spec_record.
Qed.

(** C6 (amended).  For every Collection whose questions and answers hold
    only code points that UTF-8 can encode (no surrogate), [save] replaces
    the content of the data file by the UTF-8 bytes of the text
    [collection_text]: the array of the records' objects with the keys
    [question], [answer], [optional] in that order, two spaces of
    indentation per level, and every character outside ASCII written as
    it is; no other file is touched. *)
Theorem save_writes_layout (c : list spec_record) w :
  Forall (λ r, Forall encodable r.1.1 ∧ Forall encodable r.1.2) c →
  ∃ bs,
    utf8_encode (collection_text c) = Some bs ∧
    save here float_repr (JArr (spec_json <$> c)) w =
      Done () (World (<[DATA here := bs]> (fs w)) (stdin w)
                 (trace w ++ [EvWrite (DATA here)])).
Proof.
  intros Hc.
  assert (Forall encodable (collection_text c)) as Henc.
  { unfold collection_text. destruct c as [|r0 c0]; [apply lit_encodable|].
    printable. generalize (r0 :: c0) Hc. clear. intros c Hc.
    induction Hc as [|[[q a] o] c [Hq Ha] _ IH]; [constructor|].
    assert (Forall encodable (record_text (q, a, o))) as Hr.
    { cbn [fst snd] in Hq, Ha. unfold record_text. cbn [fst snd].
      pose proof (quoted_encodable _ Hq). pose proof (quoted_encodable _ Ha).
      destruct o; printable. }
    rewrite fmap_cons. destruct c as [|r' c]; [done|].
    rewrite fmap_cons in *. cbn [join]. printable. }
  apply utf8_encode_is_Some in Henc as [bs Hbs]. exists bs.
  split; [done|].
  unfold save, write_text. by rewrite dumps_spec_collection, Hbs.
Qed.

Lemma BACKUP_neq_DATA : BACKUP here ≠ DATA here.
Proof.
  unfold BACKUP, DATA. intros H%app_inv_head. by vm_compute in H.
Qed.

(** The whole run of the fill tool without [--interactive], on a data file
    that holds a JSON value [dedupe] accepts and whose cleaned form can be
    encoded: the backup receives the old bytes, the data file receives the
    layout of the cleaned Collection, and the number of kept records is
    reported. *)
Lemma main_dedupe_only args w bs items its out :
  fs w !! DATA here = Some bs →
  file_json json_loads bs = Some items →
  py_iter items = Ok its →
  dedupe lower its = Ok out →
  interactive args = false →
  Forall encodable (dumps float_repr (JArr out)) →
  ∃ (c : list record) bs',
    out = record_json <$> c ∧
    utf8_encode (layout_collection float_repr c) = Some bs' ∧
    main lower here json_loads float_repr args w =
    Done ()
      (World (<[DATA here := bs']> (<[BACKUP here := bs]> (fs w))) (stdin w)
         (trace w ++
          [EvExists (DATA here) true; EvCopy (DATA here) (BACKUP here);
           EvRead (DATA here); EvWrite (DATA here);
           EvPrint (lit "Nettoy" ++ [233%N] ++ lit " et enregistr" ++ [233%N]
                    ++ lit " " ++ lit (pretty (length c)) ++ lit " questions dans "
                    ++ DATA here ++ lit " (backup: " ++ BACKUP here ++ lit ")"
                    ++ [10%N])])).
Proof.
  intros Hbs Hjson Hiter Hded Hint Henc.
  destruct (dedupe_output_records _ _ Hded) as [c ->].
  rewrite dumps_collection in Henc.
  destruct (utf8_encode_is_Some _ Henc) as [bs' Hbs'].
  exists c, bs'. split; [done|]. split; [done|].
  apply file_json_Some in Hjson as (text & Hdec & Hjson).
  unfold main, io_bind, path_exists. rewrite Hbs.
  rewrite bool_decide_eq_true_2 by (by eexists). cbn [negb].
  unfold copy2, log. cbn [fs stdin trace]. rewrite Hbs.
  unfold load, json_load, io_bind, read_text, log. cbn [fs stdin trace].
  rewrite lookup_insert_ne by apply BACKUP_neq_DATA.
  rewrite Hbs, Hdec, Hjson. unfold io_ret, lift. rewrite Hiter, Hded, Hint.
  unfold save, write_text. rewrite dumps_collection, Hbs'.
  pose proof (DATA_printable here here_printable).
  pose proof (BACKUP_printable here here_printable).
  rewrite print_Done by printable.
  unfold log. cbn [fs stdin trace].
  rewrite length_fmap. do 2 f_equal.
  rewrite <- !app_assoc. done.
Qed.

End SaveProps.

(** * Concrete runs *)

Lemma here0_printable : Forall encodable here0.
Proof. apply lit_encodable. Qed.

(** C1 as stated fails in two ways.  Two records whose questions are blank
    have the same (empty) key and are both dropped: no merged record comes
    out, in either order.  And when a third record with the same key and
    another answer comes first, the merged record keeps that answer. *)
Lemma dedupe_pair_not_merged :
  norm_key ascii_lower (lit "   ") = norm_key ascii_lower (lit " ") ∧
  dedupe ascii_lower [qa "   " "A" false; qa " " "" true] = Ok [] ∧
  dedupe ascii_lower [qa " " "" true; qa "   " "A" false] = Ok [] ∧
  dedupe ascii_lower
    [qa "what color?" "B" false; qa "What color?" "A" false;
     qa "What  COLOR?" "" true]
  = Ok [qa "what color?" "B" true].
Proof. vm_compute. done. Qed.

(** The merge of C1 on a four-record input, in both orders. *)
Lemma dedupe_merge_pair_run :
  (∃ out i,
      dedupe ascii_lower
        ([qa "Size?" "L" false] ++ qa "What color?" "A" false
           :: [] ++ qa " what   COLOR? " "" true :: [qa "Why?" "" false])
      = Ok out ∧
      out !! i = Some (JObj (mk_obj (strip (lit "What color?")) (JStr (lit "A"))
                               (JBool true))) ∧
      ∀ j r, out !! j = Some r →
             key_of ascii_lower r = norm_key ascii_lower (lit "What color?") →
             j = i) ∧
  (∃ out i,
      dedupe ascii_lower
        ([qa "Size?" "L" false] ++ qa " what   COLOR? " "" true
           :: [] ++ qa "What color?" "A" false :: [qa "Why?" "" false])
      = Ok out ∧
      out !! i = Some (JObj (mk_obj (strip (lit " what   COLOR? ")) (JStr (lit "A"))
                               (JBool true))) ∧
      ∀ j r, out !! j = Some r →
             key_of ascii_lower r = norm_key ascii_lower (lit "What color?") →
             j = i).
Proof.
  apply (dedupe_merge_pair ascii_lower
           [qa "Size?" "L" false] [] [qa "Why?" "" false]
           (mk_obj (lit "What color?") (JStr (lit "A")) (JBool false))
           (mk_obj (lit " what   COLOR? ") (JStr []) (JBool true))
           (lit "What color?") (lit " what   COLOR? ") (lit "A"));
    try (vm_compute; reflexivity); try (vm_compute; discriminate).
  - repeat constructor. eexists. split; [vm_compute; reflexivity|].
    vm_compute. discriminate.
  - constructor.
  - repeat constructor. eexists. split; [vm_compute; reflexivity|].
    vm_compute. discriminate.
Defined.

(** A second pass over the output of a five-record input. *)
Lemma dedupe_idempotent_run :
  dedupe ascii_lower [qa "Size?" "L" false; qa "What color?" "Blue" true]
  = Ok [qa "Size?" "L" false; qa "What color?" "Blue" true].
Proof.
  apply (dedupe_idempotent ascii_lower
           [qa " Size? " "L" false; qa "What color?" "" false; qa "  " "x" true;
            qa "what   color?" "Blue" true; qa "SIZE?" "M" false]).
  vm_compute. reflexivity.
Defined.

(** Keys and order for the same five-record input. *)
Lemma dedupe_first_seen_order_run :
  let items := [qa " Size? " "L" false; qa "What color?" "" false; qa "  " "x" true;
                qa "what   color?" "Blue" true; qa "SIZE?" "M" false] in
  let out := [qa "Size?" "L" false; qa "What color?" "Blue" true] in
  NoDup (key_of ascii_lower <$> out) ∧
  (∀ k, k ∈ key_of ascii_lower <$> out ↔ k ≠ [] ∧ k ∈ key_of ascii_lower <$> items) ∧
  (∀ i j ki kj pi pj,
      (key_of ascii_lower <$> out) !! i = Some ki →
      (key_of ascii_lower <$> out) !! j = Some kj →
      first_pos ascii_lower ki items = Some pi →
      first_pos ascii_lower kj items = Some pj →
      (i < j ↔ pi < pj)) ∧
  (∀ i r, out !! i = Some r →
      ∃ p d0 q0,
        first_pos ascii_lower (key_of ascii_lower r) items = Some p ∧
        items !! p = Some (JObj d0) ∧
        default (JStr []) (dict_get k_question d0) = JStr q0 ∧
        py_get r k_question JNull = Ok (JStr (strip q0))).
Proof.
  intros items out.
  apply (dedupe_first_seen_order ascii_lower items out).
  vm_compute. reflexivity.
Defined.

(** A record with a whitespace-only question between two duplicates. *)
Lemma dedupe_drops_empty_key_run :
  dedupe ascii_lower ([qa "What color?" "A" false] ++ qa "   " "x" true
                        :: [qa "what color?" "" true])
  = dedupe ascii_lower ([qa "What color?" "A" false] ++ [qa "what color?" "" true]) ∧
  ∀ out,
    dedupe ascii_lower ([qa "What color?" "A" false] ++ qa "   " "x" true
                          :: [qa "what color?" "" true]) = Ok out →
    (qa "   " "x" true ∉ out) ∧ Forall (λ d, key_of ascii_lower d ≠ []) out.
Proof.
  apply (dedupe_drops_empty_key ascii_lower).
  vm_compute. reflexivity.
Defined.

(** C6 as stated fails: a question that holds a lone surrogate code point
    (the data file can hold one, as the escape [\ud800]) is kept by
    [dedupe], and [save] then fails with [UnicodeEncodeError] instead of
    writing the Collection. *)
Lemma save_rejects_surrogate :
  dedupe ascii_lower [JObj [(k_question, JStr [55296%N])]]
  = Ok [record_json ([55296%N], JStr [], JBool false)] ∧
  save here0 no_float (JArr [record_json ([55296%N], JStr [], JBool false)])
    (world_with (lit "[]") [])
  = Raise UnicodeEncodeError.
Proof. split; vm_compute; reflexivity. Qed.

(** [save] on two records with non-ASCII questions, a quoted word and a
    line break. *)
Lemma save_writes_layout_run :
  let c := [(lit "Caf" ++ [233%N] ++ lit "?", lit "oui", true);
            (lit "Th" ++ [233%N] ++ lit "?", [34%N] ++ lit "non" ++ [34%N; 10%N], false)] in
  let w := world_with (lit "[]") [] in
  ∃ bs,
    utf8_encode (collection_text c) = Some bs ∧
    save here0 no_float (JArr (spec_json <$> c)) w =
      Done () (World (<[DATA here0 := bs]> (fs w)) (stdin w)
                 (trace w ++ [EvWrite (DATA here0)])).
Proof.
  intros c w. apply (save_writes_layout here0 no_float c w).
  apply (bool_decide_unpack _). vm_compute. exact I.
Defined.

(** The text of that run: two spaces before the braces, four before the
    members, and the e-acute written as it is. *)
Example collection_text_run :
  collection_text [(lit "Caf" ++ [233%N] ++ lit "?", lit "oui", true)]
  = lit "[" ++ [10%N]
    ++ lit "  {" ++ [10%N]
    ++ lit "    " ++ [34%N] ++ lit "question" ++ [34%N] ++ lit ": "
    ++ [34%N] ++ lit "Caf" ++ [233%N] ++ lit "?" ++ [34%N] ++ lit "," ++ [10%N]
    ++ lit "    " ++ [34%N] ++ lit "answer" ++ [34%N] ++ lit ": "
    ++ [34%N] ++ lit "oui" ++ [34%N] ++ lit "," ++ [10%N]
    ++ lit "    " ++ [34%N] ++ lit "optional" ++ [34%N] ++ lit ": true" ++ [10%N]
    ++ lit "  }" ++ [10%N]
    ++ lit "]" ∧
  utf8_encode (lit "Caf" ++ [233%N]) = Some [Byte.x43; Byte.x61; Byte.x66; Byte.xc3; Byte.xa9].
Proof. split; vm_compute; reflexivity. Qed.


(** The same run, evaluated: the first answer becomes [XL], the second is
    kept, and the empty answer was shown as [<vide>]. *)
Lemma interactive_fill_answers_values :
  zip_with filled
    [(lit "Size?", [], JBool false); (lit "What color?", lit "Blue", JBool true)]
    [lit "  XL "; lit "   "]
  = [(lit "Size?", lit "XL", JBool false); (lit "What color?", lit "Blue", JBool true)] ∧
  fill_events (lit "Size?", [], JBool false) (lit "  XL ") !! 1
  = Some (EvPrint (lit "R" ++ [233%N] ++ lit "ponse actuelle: <vide>" ++ [10%N])).
Proof. split; vm_compute; reflexivity. Qed.

(** Both tools in a world without the data file. *)
Lemma missing_data_file_run :
  let w' := World ∅ []
              [EvExists (DATA here0) false;
               EvPrint (msg_introuvable ++ lit " " ++ DATA here0 ++ [10%N])] in
  main ascii_lower here0 json_loads0 no_float
    {| dedupe_only := true; interactive := false |} empty_world = Done () w' ∧
  exit_status (main ascii_lower here0 json_loads0 no_float
                 {| dedupe_only := true; interactive := false |} empty_world) = 0%Z ∧
  qna_main here0 json_loads0 no_float no_repr [lit "audit_qna.py"] empty_world
  = Exit 2 w' ∧
  exit_status (qna_main here0 json_loads0 no_float no_repr
                 [lit "audit_qna.py"] empty_world) = 2%Z.
Proof.
  apply (missing_data_file ascii_lower here0 json_loads0 no_float no_repr
           here0_printable
           {| dedupe_only := true; interactive := false |} [lit "audit_qna.py"]
           empty_world).
  reflexivity.
Defined.

(** The frame of the same filler run. *)
Lemma interactive_fill_frame_run :
  let items := [qa "Size?" "" false; qa "What color?" "Blue" true] in
  let out := [qa "Size?" "XL" false; qa "What color?" "Blue" true] in
  length out = length items ∧ Forall2 same_but_answer items out.
Proof.
  intros items out.
  apply (interactive_fill_frame items (world_with (lit "[]") [lit " XL"; lit "  "])
           out
           (World (fs (world_with (lit "[]") [])) []
              [EvPrint (msg_question ++ lit "Size?" ++ [10%N]);
               EvPrint (msg_reponse_actuelle ++ msg_vide ++ [10%N]);
               EvPrint msg_nouvelle_reponse;
               EvInput (lit " XL");
               EvPrint (msg_question ++ lit "What color?" ++ [10%N]);
               EvPrint (msg_reponse_actuelle ++ lit "Blue" ++ [10%N]);
               EvPrint msg_nouvelle_reponse;
               EvInput (lit "  ")])).
  vm_compute. reflexivity.
Defined.

(** The scenario of the specification: two spellings of one question. *)
Example dedupe_color_scenario :
  dedupe ascii_lower [qa "What color?" "" false; qa "what   color?" "Blue" true]
  = Ok [qa "What color?" "Blue" true].
Proof. vm_compute. reflexivity. Qed.

(** A whole run of the fill tool on a data file that holds these two
    records: the backup holds the old content, the data file holds the one
    merged record, and one record is reported. *)
Example main_color_scenario :
  let old := dumps no_float
               (JArr [qa "What color?" "" false; qa "what   color?" "Blue" true]) in
  let new := dumps no_float (JArr [qa "What color?" "Blue" true]) in
  main ascii_lower here0 json_loads0 no_float
    {| dedupe_only := true; interactive := false |} (world_with old [])
  = Done ()
      (World (<[DATA here0 := file_of new]>
                (<[BACKUP here0 := file_of old]> {[ DATA here0 := file_of old ]}))
         []
         [EvExists (DATA here0) true; EvCopy (DATA here0) (BACKUP here0);
          EvRead (DATA here0); EvWrite (DATA here0);
          EvPrint (lit "Nettoy" ++ [233%N] ++ lit " et enregistr" ++ [233%N]
                   ++ lit " 1 questions dans " ++ DATA here0
                   ++ lit " (backup: " ++ BACKUP here0 ++ lit ")" ++ [10%N])]).
Proof. vm_compute. reflexivity. Qed.

(** The Reporter on the record [{"question": "Q"}]. *)
Lemma print_qna_missing_answer_run :
  print_qna no_repr (JArr [JObj [(k_question, JStr (lit "Q"))]]) empty_world =
  Done ()
    (log (EvPrint (lit "1. Question: " ++ lit "Q" ++ [10%N]
                   ++ lit "   R" ++ [233%N] ++ lit "ponse: " ++ lit "None"
                   ++ [10%N; 10%N])) empty_world).
Proof.
  apply (print_qna_missing_answer no_repr (lit "Q") empty_world).
  apply lit_encodable.
Defined.

(** The Reporter on a record without an answer, and on the same record
    with the default written in. *)
Example print_qna_none_run :
  print_qna no_repr (JArr [JObj [(k_question, JStr (lit "Q"))]]) empty_world
  = Done ()
      (World ∅ []
         [EvPrint (lit "1. Question: Q" ++ [10%N] ++ lit "   R" ++ [233%N]
                   ++ lit "ponse: None" ++ [10%N; 10%N])]) ∧
  print_qna no_repr (JArr [JObj (with_defaults [(k_question, JStr (lit "Q"))])])
    empty_world
  = Done ()
      (World ∅ []
         [EvPrint (lit "1. Question: Q" ++ [10%N] ++ lit "   R" ++ [233%N]
                   ++ lit "ponse: " ++ [10%N; 10%N])]).
Proof. split; vm_compute; reflexivity. Qed.


(** * Further properties of the deduplicator *)

Section DedupeMore.

Variable lower : pystr → pystr.

Lemma keyable_item_key it :
  keyable it = true → ∃ k, item_key lower it = Ok k.
Proof.
  destruct it as [| | | | | |d]; try done. unfold keyable, item_key, py_get.
  cbn [rbind].
  destruct (dict_get k_question d) as [[| | | |q| |]|]; try done; by eexists.
Qed.

Lemma not_keyable_item_key it :
  keyable it = false → item_key lower it = Err AttributeError.
Proof.
  destruct it as [| | | | | |d]; try done. unfold keyable, item_key, py_get.
  cbn [rbind].
  by destruct (dict_get k_question d) as [[| | | |q| |]|].
Qed.

Lemma dedupe_step_not_keyable st it :
  keyable it = false → dedupe_step lower st it = Err AttributeError.
Proof.
  destruct it as [| | | | | |d]; try done. unfold keyable, dedupe_step, py_get.
  cbn [rbind].
  by destruct (dict_get k_question d) as [[| | | |q| |]|].
Qed.

Lemma dedupe_loop_result items : ∀ st,
  if forallb keyable items
  then ∃ st', dedupe_loop lower st items = Ok st'
  else dedupe_loop lower st items = Err AttributeError.
Proof.
  induction items as [|it items IH]; intros st; [by eexists|].
  cbn [forallb dedupe_loop]. destruct (keyable it) eqn:Hk.
  - destruct (keyable_item_key it Hk) as [k Hkey].
    destruct (dedupe_step_total lower st it k Hkey) as [st1 ->].
    cbn [andb rbind]. apply IH.
  - by rewrite dedupe_step_not_keyable.
Qed.

(** X1.  [dedupe] returns a list exactly when every item is a dictionary
    whose question is absent or a string; otherwise it raises
    [AttributeError], and it raises nothing else. *)
Theorem dedupe_raises_iff items :
  if forallb keyable items
  then ∃ out, dedupe lower items = Ok out
  else dedupe lower items = Err AttributeError.
Proof.
  pose proof (dedupe_loop_result items (∅, [])) as H. unfold dedupe.
  destruct (forallb keyable items).
  - destruct H as [st ->]. by eexists.
  - by rewrite H.
Qed.

(** X2.  The number of records [dedupe] keeps is the number of distinct
    non-empty keys of the input; it is never more than the number of input
    records. *)
Theorem dedupe_count items out :
  dedupe lower items = Ok out →
  length out
  = size (list_to_set (filter (λ k, k ≠ []) (key_of lower <$> items)) : gset pystr) ∧
  length out ≤ length items.
Proof.
  intros (st & E & -> & Hwf)%dedupe_inv.
  pose proof (tracks_loop lower items [] _ _ (wf_state_init lower) (tracks_init lower) E)
    as (HA & _ & _).
  pose proof (wf_state_NoDup _ _ Hwf) as Hnd.
  rewrite app_nil_l in HA. rewrite length_fmap.
  rewrite <- (length_fmap (λ d, key_of lower (JObj d)) st.2). split.
  - rewrite <- (size_list_to_set (C:=gset pystr)) by done. f_equal.
    apply set_eq. intros k. rewrite !elem_of_list_to_set, list_elem_of_filter.
    apply HA.
  - rewrite <- (length_fmap (key_of lower) items).
    apply submseteq_length, NoDup_submseteq; [done|].
    intros k Hk. by apply HA.
Qed.

(** X3.  Every record [dedupe] returns is an object with exactly the keys
    [question], [answer], [optional], in that order; its question is a
    string without leading or trailing whitespace, and its key is not
    empty. *)
Theorem dedupe_output_shape items out :
  dedupe lower items = Ok out →
  Forall (λ r, ∃ q a o, r = JObj (mk_obj q a o) ∧ strip q = q ∧
                        key_of lower r = norm lower q ∧ norm lower q ≠ []) out.
Proof.
  intros (st & _ & -> & [Hk _])%dedupe_inv.
  apply Forall_fmap. eapply Forall_impl; [exact Hk|].
  intros d (q & a & o & -> & Hs & Hkq & Hn)%kept_key. by exists q, a, o.
Qed.

Lemma keyable_inv it :
  keyable it = true →
  ∃ d q0, it = JObj d ∧ default (JStr []) (dict_get k_question d) = JStr q0 ∧
          item_question it = strip q0 ∧ key_of lower it = norm lower (strip q0).
Proof.
  destruct it as [| | | | | |d]; try done.
  unfold keyable, key_of, item_key, item_question, py_get. cbn [rbind].
  destruct (dict_get k_question d) as [[| | | |q| |]|] eqn:E; try done; intros _.
  - exists d, q. by rewrite E.
  - exists d, []. by rewrite E.
Qed.

Lemma dedupe_step_fresh seen out it :
  keyable it = true → key_of lower it ≠ [] → seen !! key_of lower it = None →
  dedupe_step lower (seen, out) it
  = Ok (<[key_of lower it := length out]> seen, out ++ [fresh_obj it]).
Proof.
  intros (d & q0 & -> & Hq & Hiq & Hk)%keyable_inv Hne Hnone.
  unfold dedupe_step, py_get, fresh_obj. cbn [rbind fst snd].
  rewrite Hq. cbn [py_strip rbind]. rewrite Hk in Hne, Hnone |- *.
  rewrite bool_decide_eq_false_2 by done. rewrite Hnone, Hiq. done.
Qed.

Lemma dedupe_loop_fresh items : ∀ seen out,
  forallb keyable items = true →
  NoDup (filter (λ k, k ≠ []) (key_of lower <$> items)) →
  (∀ it, it ∈ items → key_of lower it ≠ [] → seen !! key_of lower it = None) →
  ∃ seen',
    dedupe_loop lower (seen, out) items
    = Ok (seen', out ++ (fresh_obj <$> filter (λ it, key_of lower it ≠ []) items)).
Proof.
  induction items as [|it items IH]; intros seen out Hall Hnd Hfresh.
  - exists seen. cbn. by rewrite app_nil_r.
  - cbn [forallb] in Hall. apply andb_true_iff in Hall as [Hit Hall].
    rewrite fmap_cons in Hnd. cbn [dedupe_loop].
    destruct (decide (key_of lower it = [])) as [He|Hne].
    + rewrite filter_cons_False in Hnd by (intros ?; done).
      rewrite filter_cons_False by (intros ?; done).
      rewrite dedupe_step_no_key; [|].
      * cbn [rbind]. apply IH; [done|done|].
        intros it' Hin. apply Hfresh. by right.
      * destruct (keyable_item_key it Hit) as [k Hk].
        rewrite <- He. unfold key_of. by rewrite Hk.
    + rewrite filter_cons_True in Hnd by done.
      rewrite filter_cons_True by done.
      apply NoDup_cons in Hnd as [Hnin Hnd].
      rewrite dedupe_step_fresh; [|done|done|apply Hfresh; [left|done]].
      cbn [rbind].
      destruct (IH (<[key_of lower it := length out]> seen) (out ++ [fresh_obj it]))
        as [seen' E]; [done|done| |].
      * intros it' Hin Hne'. rewrite lookup_insert_ne.
        -- apply Hfresh; [by right|done].
        -- intros Heq. apply Hnin. apply list_elem_of_filter. split; [by rewrite Heq|].
           rewrite Heq. by apply list_elem_of_fmap_2.
      * exists seen'. rewrite E, fmap_cons. by rewrite <- app_assoc.
Qed.

(** X4.  When no two records of the input share a non-empty key, [dedupe]
    folds nothing: it drops the records with an empty key and returns the
    others in their order, each rebuilt with its stripped question and with
    the defaults for a missing answer or optional flag. *)
Theorem dedupe_without_duplicates items :
  forallb keyable items = true →
  NoDup (filter (λ k, k ≠ []) (key_of lower <$> items)) →
  dedupe lower items
  = Ok ((λ it, JObj (fresh_obj it)) <$> filter (λ it, key_of lower it ≠ []) items).
Proof.
  intros Hall Hnd.
  destruct (dedupe_loop_fresh items ∅ [] Hall Hnd) as [seen' E].
  { intros. apply lookup_empty. }
  unfold dedupe. rewrite E. cbn [rbind snd app]. by rewrite <- list_fmap_compose.
Qed.

(** *** What a group of duplicates is merged into *)

Lemma rec_for_loop_fold k items : ∀ st st',
  k ≠ [] → wf_state lower st → dedupe_loop lower st items = Ok st' →
  rec_for k st' = foldl absorb (rec_for k st) (group lower k items).
Proof.
  induction items as [|it items IH]; intros st st' Hne Hwf H.
  - cbn in H. by injection H as <-.
  - cbn [dedupe_loop] in H.
    destruct (dedupe_step lower st it) as [st1|] eqn:E1; [|done]. cbn [rbind] in H.
    pose proof (wf_state_step _ _ _ _ Hwf E1) as Hwf1.
    rewrite (IH _ _ Hne Hwf1 H). unfold group.
    destruct (decide (key_of lower it = k)) as [Hk|Hk].
    + rewrite filter_cons_True by done. cbn [foldl]. f_equal.
      destruct (dedupe_step_cases _ _ _ _ E1) as (d & q0 & -> & Hq & Hkd & _).
      rewrite Hkd in Hk. rewrite <- Hk in Hne.
      destruct (rec_for_step_same lower st d q0 Hwf Hq Hne) as (st1' & E1' & R).
      rewrite E1 in E1'. injection E1' as <-. rewrite Hk in R. rewrite R.
      unfold absorb, fresh_obj, item_answer, item_optional, item_answer_or_empty,
        item_question.
      destruct (dict_get k_question d) as [[| | | |q| |]|]; try done.
      * cbn in Hq. by injection Hq as ->.
      * cbn in Hq. by injection Hq as <-.
    + rewrite filter_cons_False by done. f_equal.
      by eapply rec_for_step_other.
Qed.

Lemma foldl_absorb_obj rest : ∀ q a o,
  foldl absorb (Some (mk_obj q a o)) rest
  = Some (mk_obj q
            (foldl (λ a v, if negb (truthy a) && truthy v then v else a) a
               (item_answer <$> rest))
            (foldl py_or o (item_optional <$> rest))).
Proof.
  induction rest as [|it rest IH]; intros q a o; [done|].
  rewrite !fmap_cons.
  change (foldl absorb (Some (mk_obj q a o)) (it :: rest))
    with (foldl absorb (Some (merge (item_answer it) (item_optional it)
                                (mk_obj q a o))) rest).
  rewrite merge_mk_obj. apply IH.
Qed.

Lemma foldl_pick_answer vs : ∀ a,
  foldl (λ a v, if negb (truthy a) && truthy v then v else a) a vs
  = if truthy a then a
    else match list_find (λ v, truthy v = true) vs with
         | Some (_, v) => v
         | None => a
         end.
Proof.
  induction vs as [|v vs IH]; intros a; cbn [foldl list_find].
  - by destruct (truthy a).
  - rewrite IH. destruct (truthy a) eqn:Ha; cbn [negb andb].
    + by rewrite Ha.
    + destruct (truthy v) eqn:Hv.
      * rewrite Hv. by rewrite decide_True.
      * rewrite Ha. rewrite decide_False by done.
        by destruct (list_find _ vs) as [[? ?]|].
Qed.

Lemma foldl_or_truthy vs : ∀ o,
  truthy (foldl py_or o vs) = truthy o || existsb truthy vs.
Proof.
  induction vs as [|v vs IH]; intros o; cbn [foldl existsb].
  - by rewrite orb_false_r.
  - rewrite IH. unfold py_or. destruct (truthy o) eqn:Ho; [by rewrite Ho|done].
Qed.

Lemma out_rec_for st i d :
  wf_state lower st → st.2 !! i = Some d →
  rec_for (key_of lower (JObj d)) st = Some d.
Proof.
  intros [_ Hs] Hd. unfold rec_for.
  assert (st.1 !! key_of lower (JObj d) = Some i) as ->; [|done].
  apply Hs. by rewrite list_lookup_fmap, Hd.
Qed.

(** A kept record is its group of input records, merged from the left. *)
Lemma dedupe_group_fold items out i r :
  dedupe lower items = Ok out → out !! i = Some r →
  ∃ it0 rest,
    group lower (key_of lower r) items = it0 :: rest ∧
    r = JObj (mk_obj (item_question it0)
                (foldl (λ a v, if negb (truthy a) && truthy v then v else a)
                   (item_answer_or_empty it0) (item_answer <$> rest))
                (foldl py_or (item_optional it0) (item_optional <$> rest))).
Proof.
  intros (st & E & -> & Hwf)%dedupe_inv Hr.
  rewrite list_lookup_fmap in Hr.
  destruct (st.2 !! i) as [d|] eqn:Hd; [|done]. injection Hr as <-.
  pose proof (out_rec_for _ _ _ Hwf Hd) as R.
  assert (key_of lower (JObj d) ≠ []) as Hne.
  { apply kept_key_nonempty. destruct Hwf as [Hk _]. by eapply Forall_lookup_1. }
  rewrite (rec_for_loop_fold _ _ _ _ Hne (wf_state_init lower) E) in R.
  change (rec_for (key_of lower (JObj d)) (∅, [])) with (@None dict) in R.
  destruct (group lower (key_of lower (JObj d)) items) as [|it0 rest]; [done|].
  exists it0, rest. split; [done|].
  change (foldl absorb None (it0 :: rest))
    with (foldl absorb (Some (mk_obj (item_question it0) (item_answer_or_empty it0)
                                (item_optional it0))) rest) in R.
  rewrite foldl_absorb_obj in R. by injection R as <-.
Qed.

(** X5.  The answer of a kept record is the answer of the first input
    record with its key whose answer is truthy (non-empty); when no record
    with that key has such an answer, it is the answer of the first record
    with that key, the empty string if that record has no answer field. *)
Theorem dedupe_answer_first_nonempty items out i r :
  dedupe lower items = Ok out → out !! i = Some r →
  py_get r k_answer JNull = Ok (chosen_answer (group lower (key_of lower r) items)).
Proof.
  intros Hd Hr.
  destruct (dedupe_group_fold _ _ _ _ Hd Hr) as (it0 & rest & -> & ->).
  unfold py_get.
  change (dict_get k_answer (mk_obj ?q ?a ?o)) with (Some a). cbn [default from_option id].
  f_equal. rewrite foldl_pick_answer. unfold chosen_answer. cbn [list_find].
  assert (truthy (item_answer_or_empty it0) = truthy (item_answer it0) ∧
          (truthy (item_answer it0) = true →
           item_answer_or_empty it0 = item_answer it0)) as [Ht He].
  { destruct it0 as [| | | | | |d]; try done.
    unfold item_answer, item_answer_or_empty. by destruct (dict_get k_answer d). }
  rewrite Ht. destruct (truthy (item_answer it0)) eqn:Ha.
  - rewrite decide_True by done. by apply He.
  - rewrite decide_False by done. rewrite list_find_fmap.
    destruct (list_find _ rest) as [[j it]|]; done.
Qed.

(** X6.  The optional flag of a kept record is truthy exactly when the
    optional flag of some input record with its key is truthy. *)
Theorem dedupe_optional_or items out i r :
  dedupe lower items = Ok out → out !! i = Some r →
  ∃ o, py_get r k_optional JNull = Ok o ∧
       truthy o = existsb (λ it, truthy (item_optional it))
                    (group lower (key_of lower r) items).
Proof.
  intros Hd Hr.
  destruct (dedupe_group_fold _ _ _ _ Hd Hr) as (it0 & rest & -> & ->).
  eexists. split; [reflexivity|].
  change (default JNull (dict_get k_optional (mk_obj ?q ?a ?o))) with o.
  rewrite foldl_or_truthy. cbn [existsb]. f_equal.
  clear. induction rest as [|it rest IH]; [done|].
  rewrite fmap_cons. cbn [existsb]. by rewrite IH.
Qed.

End DedupeMore.

(** * Further properties of the interactive filler *)

(** The line that shows the current answer. *)
Lemma shown_answer (a : json) :
  py_concat msg_reponse_actuelle (py_or a (JStr msg_vide)) =
  if showable a
  then Ok (msg_reponse_actuelle
           ++ match a with JStr (c :: s) => c :: s | _ => msg_vide end)
  else Err TypeError.
Proof.
  unfold py_or.
  destruct a as [|[]|z|f|[|c s]|[|x l]|[|x d]]; cbn [truthy showable negb py_concat];
    try done.
  - by destruct (Z.eqb z 0).
  - by destruct f.
Qed.

(** Whether that line can be printed. *)
Lemma shown_answer_printable (a : json) :
  showable a = true →
  bool_decide (Forall encodable
                 (msg_reponse_actuelle
                  ++ match a with JStr (c :: s) => c :: s | _ => msg_vide end))
  = match a with JStr s => bool_decide (Forall encodable s) | _ => true end.
Proof.
  intros _. unfold msg_reponse_actuelle, msg_vide.
  assert (∀ s, Forall encodable ((lit "R" ++ [233%N] ++ lit "ponse actuelle: ") ++ s)
               ↔ Forall encodable s) as Hiff.
  { intros s. rewrite !Forall_app.
    assert (Forall encodable (lit "R") ∧ Forall encodable [233%N]
            ∧ Forall encodable (lit "ponse actuelle: ")) as (H1 & H2 & H3)
      by (repeat split; printable).
    tauto. }
  destruct a as [| | | |[|c s]| |]; try (apply bool_decide_ext, Hiff).
  all: rewrite ?(bool_decide_eq_true_2 (Forall encodable [])) by constructor.
  all: apply bool_decide_eq_true_2, Hiff, lit_encodable.
Qed.

(** One iteration on an object built by [dedupe]: the ways it ends. *)
Lemma fill_one_record q a o w :
  fill_one (record_json (q, a, o)) w =
  if bool_decide (Forall encodable q) then
    if showable a then
      if match a with JStr s => bool_decide (Forall encodable s) | _ => true end then
        match stdin w with
        | [] => Raise EOFError
        | line :: rest =>
            Done (record_json (q, if strip line is [] then a else JStr (strip line), o))
              (World (fs w) rest
                 (trace w ++
                  [EvPrint (msg_question ++ q ++ [10%N]);
                   EvPrint (msg_reponse_actuelle
                            ++ (match a with JStr (c :: s) => c :: s | _ => msg_vide end)
                            ++ [10%N]);
                   EvPrint msg_nouvelle_reponse; EvInput line]))
        end
      else Raise UnicodeEncodeError
    else Raise TypeError
  else Raise UnicodeEncodeError.
Proof.
  unfold fill_one, io_bind, lift, py_item, input, record_json.
  cbn [fst snd].
  change (dict_get k_question (mk_obj q a o)) with (Some (JStr q)).
  change (dict_get k_answer (mk_obj q a o)) with (Some a).
  cbn [py_concat]. unfold print at 1.
  replace (bool_decide (Forall encodable (msg_question ++ q)))
    with (bool_decide (Forall encodable q)).
  2:{ apply bool_decide_ext. unfold msg_question.
      rewrite Forall_app, Forall_cons.
      pose proof (lit_encodable "Question: ").
      assert (encodable 10) by (by apply encodable_small). tauto. }
  case_bool_decide as Hq; [|done]. rewrite shown_answer.
  destruct (showable a) eqn:Hsh; [|done]. unfold print.
  rewrite (shown_answer_printable a Hsh).
  destruct (match a with JStr s => bool_decide (Forall encodable s) | _ => true end);
    [|done].
  cbn [log fs stdin trace].
  destruct (stdin w) as [|line rest]; [done|].
  rewrite <- !app_assoc. cbn [app]. by destruct (strip line).
Qed.

Lemma fill_one_world it w it' w' :
  fill_one it w = Done it' w' →
  ∃ line evs,
    stdin w = line :: stdin w' ∧ fs w' = fs w ∧
    trace w' = trace w ++ evs ∧ forallb console_event evs = true.
Proof.
  unfold fill_one, io_bind, io_ret, lift, print, input.
  destruct (py_item it k_question) as [q|]; [|done].
  destruct (py_concat msg_question q) as [l1|]; [|done].
  case_bool_decide as Hp1; [|done].
  destruct (py_item it k_answer) as [a|]; [|done].
  destruct (py_concat _ _) as [l2|]; [|done].
  case_bool_decide as Hp2; [|done].
  cbn [log fs stdin trace]. destruct (stdin w) as [|line rest]; [done|].
  intros H. exists line.
  exists [EvPrint (l1 ++ [10%N]); EvPrint (l2 ++ [10%N]);
          EvPrint msg_nouvelle_reponse; EvInput line].
  destruct (strip line); [|destruct (py_setitem _ _ _); [|done]];
    injection H as _ <-; cbn [fs stdin trace]; by rewrite <- !app_assoc.
Qed.

(** X7.  The interactive filler only talks to the console: when it returns,
    no file has changed, it has read exactly one line of input per record
    (the lines after them are still there), and it has added only prints
    and input reads to the trace. *)
Theorem interactive_fill_console_only items : ∀ w out w',
  interactive_fill items w = Done out w' →
  fs w' = fs w ∧
  length items ≤ length (stdin w) ∧ stdin w' = drop (length items) (stdin w) ∧
  ∃ evs, trace w' = trace w ++ evs ∧ forallb console_event evs = true.
Proof.
  induction items as [|it items IH]; intros w out w'.
  - cbn. intros [= _ <-]. repeat split; [lia|]. exists []. by rewrite app_nil_r.
  - cbn [interactive_fill]. unfold io_bind at 1.
    destruct (fill_one it w) as [it1 w1| |] eqn:E1; [|done|done].
    unfold io_bind.
    destruct (interactive_fill items w1) as [rest1 w2| |] eqn:E2; [|done|done].
    unfold io_ret. intros [= _ <-].
    destruct (fill_one_world _ _ _ _ E1) as (line & evs1 & Hin & Hfs & Htr & Hev).
    destruct (IH _ _ _ E2) as (Hfs2 & Hlen & Hdrop & evs2 & Htr2 & Hev2).
    rewrite Hin. cbn [length drop]. repeat split; [congruence|lia|done|].
    exists (evs1 ++ evs2). rewrite Htr2, Htr, forallb_app, Hev, Hev2.
    by rewrite app_assoc.
Qed.

(** X8.  On a Collection as [dedupe] builds it, the interactive filler can
    fail in three ways only: with [EOFError], and then fewer input lines
    were left than there are records; with [TypeError], and then some
    record has a truthy answer that is not a string; or with
    [UnicodeEncodeError], and then the question or the answer of some
    record holds a code point the console cannot encode.  No key is ever
    missing. *)
Theorem interactive_fill_failures (c : list record) : ∀ w e,
  interactive_fill (record_json <$> c) w = Raise e →
  (e = EOFError ∧ length (stdin w) < length c) ∨
  (e = TypeError ∧ existsb (λ r, negb (showable r.1.2)) c = true) ∨
  (e = UnicodeEncodeError ∧ existsb (λ r, negb (record_printable r)) c = true).
Proof.
  induction c as [|[[q a] o] c IH]; intros w e; [done|].
  rewrite fmap_cons. cbn [interactive_fill existsb fst snd]. unfold io_bind at 1.
  rewrite fill_one_record. unfold record_printable at 1. cbn [fst snd].
  case_bool_decide as Hq; [|intros [= <-]; by right; right].
  destruct (showable a); [|intros [= <-]; by right; left].
  destruct (match a with JStr s => bool_decide (Forall encodable s) | _ => true end);
    [|intros [= <-]; by right; right].
  destruct (stdin w) as [|line rest]; [intros [= <-]; left; split; [done|cbn; lia]|].
  unfold io_bind. cbn [negb orb andb].
  destruct (interactive_fill _ _) as [out w2| |] eqn:E2; [done|done|].
  intros [= <-].
  destruct (IH _ _ E2) as [[-> Hlen]|[[-> Hex]|[-> Hex]]];
    [left|by right; left|by right; right].
  split; [done|]. cbn in *. lia.
Qed.

(** X9.  When every answer of the Collection can be shown, every record
    can be printed and fewer input lines are left than there are records,
    the filler ends with [EOFError]: it never returns a partly filled
    Collection. *)
Theorem interactive_fill_out_of_input (c : list record) : ∀ w,
  forallb (λ r, showable r.1.2) c = true →
  forallb record_printable c = true →
  length (stdin w) < length c →
  interactive_fill (record_json <$> c) w = Raise EOFError.
Proof.
  induction c as [|[[q a] o] c IH]; intros w Hall Hpr Hlen; [cbn in Hlen; lia|].
  cbn [forallb fst snd] in Hall, Hpr.
  apply andb_true_iff in Hall as [Ha Hall].
  apply andb_true_iff in Hpr as [[Hq Hpa]%andb_true_iff Hpr]. cbn [fst snd] in Hq, Hpa.
  rewrite fmap_cons. cbn [interactive_fill]. unfold io_bind at 1.
  rewrite fill_one_record, Hq, Ha, Hpa.
  destruct (stdin w) as [|line rest] eqn:Ein; [done|].
  unfold io_bind. rewrite IH; [done|done|done|]. cbn in *. lia.
Qed.

(** * Further properties of the report tool *)

Section ReportMore.

Variable here : pystr.
Variable json_loads : pystr → result json.
Variable float_repr : spec_float → pystr.
Variable repr_other : json → pystr.

Lemma qna_block_dict d i :
  qna_block repr_other i (JObj d)
  = Ok (qna_text repr_other i (item_field k_question (JObj d))
          (item_field k_answer (JObj d))).
Proof. done. Qed.

Lemma qna_text_printable i q a :
  Forall encodable (qna_text repr_other i q a) ↔
  Forall encodable (py_str repr_other q) ∧ Forall encodable (py_str repr_other a).
Proof.
  unfold qna_text. rewrite !Forall_app.
  pose proof (lit_encodable (pretty i)). pose proof (lit_encodable ". Question: ").
  pose proof (lit_encodable "   R"). pose proof (lit_encodable "ponse: ").
  assert (Forall encodable [10%N]) by printable.
  assert (Forall encodable [233%N]) by printable.
  clear here json_loads float_repr. tauto.
Qed.

Lemma print_qna_from_blocks items : ∀ i w,
  forallb (block_printable repr_other) items = true →
  print_qna_from repr_other i items w =
  Done ()
    (World (fs w) (stdin w)
       (trace w ++
        imap (λ j it, EvPrint (qna_text repr_other (i + j)
                                 (item_field k_question it)
                                 (item_field k_answer it) ++ [10%N]))
          items)).
Proof.
  induction items as [|it items IH]; intros i w Hall.
  - cbn. unfold io_ret. rewrite app_nil_r. by destruct w.
  - cbn [forallb] in Hall. apply andb_true_iff in Hall as [Hit Hall].
    unfold block_printable in Hit.
    apply andb_true_iff in Hit as [[Hd Hq%bool_decide_eq_true]%andb_true_iff
                                     Ha%bool_decide_eq_true].
    destruct it as [| | | | | |d]; try done.
    cbn [print_qna_from imap]. unfold io_bind at 1, lift.
    rewrite qna_block_dict. unfold io_bind at 1.
    rewrite print_Done by (by apply qna_text_printable).
    rewrite IH by done.
    cbn [log fs stdin trace]. rewrite <- app_assoc. cbn [app].
    rewrite Nat.add_0_r. do 3 f_equal.
    apply (f_equal2 cons); [reflexivity|].
    apply imap_ext. intros j x _. cbn. by rewrite Nat.add_succ_r.
Qed.

(** How the loop can end otherwise. *)
Lemma print_qna_from_ends items : ∀ i w,
  match print_qna_from repr_other i items w with
  | Done _ _ => forallb is_dict items = true
  | Exit _ _ => False
  | Raise e =>
      (e = AttributeError ∧ existsb (λ it, negb (is_dict it)) items = true) ∨
      (e = UnicodeEncodeError
       ∧ existsb (λ it, negb (block_printable repr_other it)) items = true)
  end.
Proof.
  induction items as [|it items IH]; intros i w; [done|].
  cbn [print_qna_from forallb existsb]. unfold io_bind at 1, lift.
  destruct it as [| | | | | |d]; try (by left).
  rewrite qna_block_dict. unfold io_bind at 1, print.
  unfold block_printable at 1. cbn [is_dict negb andb orb].
  case_bool_decide as Hp.
  - specialize (IH (S i) (log (EvPrint (qna_text repr_other i
                                          (item_field k_question (JObj d))
                                          (item_field k_answer (JObj d)) ++ [10%N])) w)).
    destruct (print_qna_from _ _ _ _) as [u w'|c w'|e]; [done|done|].
    destruct IH as [[-> Hex]|[-> Hex]]; [by left|right].
    by rewrite Hex, orb_true_r.
  - right. split; [done|]. apply orb_true_iff. left. apply negb_true_iff.
    apply not_true_is_false. intros [Hq%bool_decide_eq_true Ha%bool_decide_eq_true]%andb_true_iff.
    apply Hp. by apply qna_text_printable.
Qed.


(** *** The report tool changes nothing *)

Lemma read_only_bind {A B : Type} (m : io A) (k : A → io B) w :
  read_only_run w (m w) →
  (∀ a w1, read_only_run w1 (k a w1)) →
  read_only_run w (io_bind m k w).
Proof.
  unfold io_bind. destruct (m w) as [a w1|c w1|e]; [|done|done].
  intros (Hfs & Hin & evs & Htr & Hev) Hk. specialize (Hk a w1).
  destruct (k a w1) as [b w2|c w2|e]; [| |done];
    destruct Hk as (Hfs2 & Hin2 & evs2 & Htr2 & Hev2);
    (split; [congruence|]); (split; [congruence|]);
    exists (evs ++ evs2); by rewrite Htr2, Htr, app_assoc, forallb_app, Hev, Hev2.
Qed.

Lemma read_only_refl {A : Type} (a : A) w : read_only_run w (Done a w).
Proof. repeat split. exists []. by rewrite app_nil_r. Qed.

Lemma read_only_log {A : Type} (a : A) ev w :
  read_only_event ev = true → read_only_run w (Done a (log ev w)).
Proof. intros Hev. repeat split. exists [ev]. cbn. by rewrite Hev. Qed.

Lemma read_only_lift {A : Type} (r : result A) w : read_only_run w (lift r w).
Proof. destruct r; [apply read_only_refl|done]. Qed.

Lemma read_only_print s w : read_only_run w (print s w).
Proof. unfold print. case_bool_decide; [by apply read_only_log|done]. Qed.

Lemma read_only_json_load p w : read_only_run w (json_load json_loads p w).
Proof.
  apply read_only_bind.
  - unfold read_text. destruct (fs w !! p); [|done].
    destruct (utf8_decode _); [by apply read_only_log|done].
  - intros text w1. apply read_only_lift.
Qed.

Lemma read_only_print_qna_from items : ∀ i w,
  read_only_run w (print_qna_from repr_other i items w).
Proof.
  induction items as [|it items IH]; intros i w; [apply read_only_refl|].
  cbn [print_qna_from]. apply read_only_bind; [apply read_only_lift|].
  intros text w1. apply read_only_bind; [apply read_only_print|].
  intros _ w2. apply IH.
Qed.

Lemma read_only_print_qna v w : read_only_run w (print_qna repr_other v w).
Proof.
  apply read_only_bind; [apply read_only_lift|].
  intros items w1. apply read_only_print_qna_from.
Qed.

(** X11.  The report tool never changes anything: however it is called and
    whatever the data file holds, when it ends (normally or through
    [sys.exit]) every file and the standard input are as they were, and it
    has only tested, read and printed: no file is written, none is copied.
    It makes no backup. *)
Theorem qna_main_read_only argv w :
  read_only_run w (qna_main here json_loads float_repr repr_other argv w).
Proof.
  unfold qna_main. apply read_only_bind; [by apply read_only_log|].
  intros found w1. destruct found; cbn [negb].
  - apply read_only_bind; [apply read_only_json_load|].
    intros v w2. destruct (argv !! 1) as [flag|]; [|apply read_only_print_qna].
    case_bool_decide; [apply read_only_print|apply read_only_print_qna].
  - apply read_only_bind; [apply read_only_print|].
    intros _ w2. unfold sys_exit. cbn. repeat split. exists []. by rewrite app_nil_r.
Qed.

End ReportMore.

(** * Further properties of the fill tool *)

Lemma io_bind_Done {A B : Type} (m : io A) (k : A → io B) w b w' :
  io_bind m k w = Done b w' → ∃ a w1, m w = Done a w1 ∧ k a w1 = Done b w'.
Proof. unfold io_bind. destruct (m w) as [a w1| |]; [|done|done]. by exists a, w1. Qed.

Lemma lift_Done {A : Type} (r : result A) w a w' :
  lift r w = Done a w' → r = Ok a ∧ w' = w.
Proof. destruct r; cbn; [|done]. by intros [= -> ->]. Qed.

Lemma interactive_fill_fs items : ∀ w out w',
  interactive_fill items w = Done out w' → fs w' = fs w.
Proof.
  induction items as [|it items IH]; intros w out w' H.
  - cbn in H. by injection H as _ <-.
  - cbn [interactive_fill] in H.
    apply io_bind_Done in H as (it1 & w1 & H1 & H).
    apply io_bind_Done in H as (rest1 & w2 & H2 & H).
    injection H as _ <-.
    destruct (fill_one_world _ _ _ _ H1) as (_ & _ & _ & Hfs & _).
    rewrite (IH _ _ _ H2). done.
Qed.

Section MainMore.

Variable lower : pystr → pystr.
Variable here : pystr.
Variable json_loads : pystr → result json.
Variable float_repr : spec_float → pystr.

(** The path of the scripts is text the console can show. *)
Hypothesis here_printable : Forall encodable here.

(** The run up to the point where the data file has been backed up and
    loaded. *)
Lemma main_after_load args w bs v :
  fs w !! DATA here = Some bs → file_json json_loads bs = Some v →
  main lower here json_loads float_repr args w =
  (let! its := lift (py_iter v) in
   let! cleaned := lift (dedupe lower its) in
   let! cleaned := (if interactive args then interactive_fill cleaned
                    else io_ret cleaned) in
   save here float_repr (JArr cleaned) ;!
   print (lit "Nettoy" ++ [233%N] ++ lit " et enregistr" ++ [233%N] ++ lit " "
          ++ lit (pretty (length cleaned)) ++ lit " questions dans " ++ DATA here
          ++ lit " (backup: " ++ BACKUP here ++ lit ")"))
    (World (<[BACKUP here := bs]> (fs w)) (stdin w)
       (trace w ++ [EvExists (DATA here) true; EvCopy (DATA here) (BACKUP here);
                    EvRead (DATA here)])).
Proof.
  intros Hbs Hjson. apply file_json_Some in Hjson as (text & Hdec & Hjson).
  unfold main. unfold io_bind at 1. unfold path_exists. rewrite Hbs.
  rewrite bool_decide_eq_true_2 by (by eexists). cbn [negb].
  unfold io_bind at 1. unfold copy2, log. cbn [fs stdin trace]. rewrite Hbs.
  unfold io_bind at 1. unfold load, json_load. unfold io_bind at 1.
  unfold read_text, log. cbn [fs stdin trace].
  rewrite lookup_insert_ne by apply BACKUP_neq_DATA.
  rewrite Hbs, Hdec, Hjson. unfold lift at 1.
  by rewrite <- !app_assoc.
Qed.

(** X12.  The backup guard.  Whenever the fill tool runs to its end: if
    there was no data file, no file has changed; if there was one, the
    backup file holds the bytes the data file held before the run, the
    data file exists and holds the UTF-8 bytes of the serialized array of
    a Collection of objects with the keys [question], [answer],
    [optional], and every other file is as it was. *)
Theorem main_backup_and_frame args w w' :
  main lower here json_loads float_repr args w = Done () w' →
  match fs w !! DATA here with
  | None => fs w' = fs w
  | Some bs =>
      fs w' !! BACKUP here = Some bs ∧
      (∃ (c : list record) bs',
          fs w' !! DATA here = Some bs' ∧
          utf8_encode (dumps float_repr (JArr (record_json <$> c))) = Some bs') ∧
      ∀ p, p ≠ DATA here → p ≠ BACKUP here → fs w' !! p = fs w !! p
  end.
Proof.
  intros H. destruct (fs w !! DATA here) as [bs|] eqn:Hbs.
  - unfold main in H. apply io_bind_Done in H as (found & w0 & H0 & H).
    unfold path_exists in H0. rewrite Hbs in H0.
    rewrite bool_decide_eq_true_2 in H0 by (by eexists).
    injection H0 as <- <-. cbn [negb] in H.
    apply io_bind_Done in H as ([] & w1 & H1 & H).
    unfold copy2, log in H1. cbn [fs stdin trace] in H1. rewrite Hbs in H1.
    injection H1 as <-.
    apply io_bind_Done in H as (v & w2 & H2 & H).
    assert (fs w2 = <[BACKUP here := bs]> (fs w)) as Hfs2.
    { unfold load, json_load in H2. apply io_bind_Done in H2 as (text & w2' & Hr & H2).
      unfold read_text in Hr. cbn [fs] in Hr.
      destruct (_ !! DATA here); [|done]. destruct (utf8_decode _); [|done].
      injection Hr as _ <-. apply lift_Done in H2 as [_ ->]. done. }
    apply io_bind_Done in H as (its & w3 & H3 & H).
    apply lift_Done in H3 as [_ ->].
    apply io_bind_Done in H as (out & w4 & H4 & H).
    apply lift_Done in H4 as [Hded ->].
    destruct (dedupe_output_records _ _ _ Hded) as [c ->].
    apply io_bind_Done in H as (out' & w5 & H5 & H).
    assert (fs w5 = fs w2 ∧ ∃ c' : list record, out' = record_json <$> c')
      as [Hfs5 [c' ->]].
    { destruct (interactive args).
      - split; [by eapply interactive_fill_fs|by eapply interactive_fill_records].
      - injection H5 as <- <-. split; [done|by exists c]. }
    apply io_bind_Done in H as ([] & w6 & H6 & H).
    unfold save, write_text in H6.
    destruct (utf8_encode _) as [bs'|] eqn:Hbs'; [|done]. injection H6 as <-.
    apply print_inv in H as [_ ->].
    cbn [fs log]. rewrite Hfs5, Hfs2. split; [|split].
    + rewrite lookup_insert_ne by (intros Heq; by apply (BACKUP_neq_DATA here)).
      apply lookup_insert_eq.
    + exists c', bs'. split; [apply lookup_insert_eq|done].
    + intros p Hd Hb. by rewrite !lookup_insert_ne.
  - unfold main in H. apply io_bind_Done in H as (found & w0 & H0 & H).
    unfold path_exists in H0. rewrite Hbs in H0.
    rewrite bool_decide_eq_false_2 in H0 by (by intros [? ?]).
    injection H0 as <- <-. cbn [negb] in H. by apply print_inv in H as [_ ->].
Qed.

(** X13.  A data file that holds valid JSON which is not an array.  A
    number, a boolean or [null] ends the run with [TypeError]; an object
    or a string that is not empty ends it with [AttributeError]; the empty
    object and the empty string are taken for an empty Collection: the
    data file is overwritten with [[]] (its old content is in the backup)
    and zero records are reported. *)
Theorem main_on_non_array args w bs v :
  fs w !! DATA here = Some bs → file_json json_loads bs = Some v →
  match v with
  | JArr _ => True
  | JObj [] | JStr [] =>
      main lower here json_loads float_repr args w =
      Done ()
        (World (<[DATA here := [Byte.x5b; Byte.x5d]]> (<[BACKUP here := bs]> (fs w)))
           (stdin w)
           (trace w ++
            [EvExists (DATA here) true; EvCopy (DATA here) (BACKUP here);
             EvRead (DATA here); EvWrite (DATA here);
             EvPrint (lit "Nettoy" ++ [233%N] ++ lit " et enregistr" ++ [233%N]
                      ++ lit " 0 questions dans " ++ DATA here
                      ++ lit " (backup: " ++ BACKUP here ++ lit ")" ++ [10%N])]))
  | JObj (_ :: _) | JStr (_ :: _) =>
      main lower here json_loads float_repr args w = Raise AttributeError
  | JNull | JBool _ | JInt _ | JFloat _ =>
      main lower here json_loads float_repr args w = Raise TypeError
  end.
Proof.
  intros Hbs Hjson. rewrite (main_after_load args w bs v Hbs Hjson).
  assert (∀ w0,
    (let! cleaned := (if interactive args then interactive_fill ([] : list json)
                      else io_ret []) in
     save here float_repr (JArr cleaned) ;!
     print (lit "Nettoy" ++ [233%N] ++ lit " et enregistr" ++ [233%N] ++ lit " "
            ++ lit (pretty (length cleaned)) ++ lit " questions dans " ++ DATA here
            ++ lit " (backup: " ++ BACKUP here ++ lit ")")) w0
    = Done ()
        (World (<[DATA here := [Byte.x5b; Byte.x5d]]> (fs w0)) (stdin w0)
           (trace w0 ++
            [EvWrite (DATA here);
             EvPrint (lit "Nettoy" ++ [233%N] ++ lit " et enregistr" ++ [233%N]
                      ++ lit " 0 questions dans " ++ DATA here
                      ++ lit " (backup: " ++ BACKUP here ++ lit ")" ++ [10%N])])))
    as Hempty.
  { intros w0. unfold io_bind at 1.
    replace ((if interactive args then interactive_fill [] else io_ret []) w0)
      with (Done ([] : list json) w0) by (by destruct (interactive args)).
    unfold io_bind, save, write_text.
    change (utf8_encode (dumps float_repr (JArr [])))
      with (Some [Byte.x5b; Byte.x5d]).
    pose proof (DATA_printable here here_printable).
    pose proof (BACKUP_printable here here_printable).
    cbv beta iota. rewrite print_Done by printable.
    unfold log. cbn [fs stdin trace]. rewrite <- !app_assoc. reflexivity. }
  destruct v as [|b|z|f|[|c s]|l|[|[k x] d]]; [done..| | |done| |].
  - unfold io_bind at 1. cbn [py_iter lift fmap list_fmap].
    unfold io_bind at 1. cbn [lift dedupe dedupe_loop rbind snd fmap list_fmap].
    rewrite Hempty. cbn [fs stdin trace]. by rewrite <- !app_assoc.
  - unfold io_bind at 1. cbn [py_iter lift fmap list_fmap].
    unfold io_bind at 1. done.
  - unfold io_bind at 1. cbn [py_iter lift fmap list_fmap].
    unfold io_bind at 1. cbn [lift dedupe dedupe_loop rbind snd fmap list_fmap].
    rewrite Hempty. cbn [fs stdin trace]. by rewrite <- !app_assoc.
  - unfold io_bind at 1. cbn [py_iter lift fmap list_fmap].
    unfold io_bind at 1. done.
Qed.

End MainMore.

(** * Writing and reading back *)

(** From here on [lia] also takes division and remainder by constants. *)
Ltac Zify.zify_post_hook ::= Z.to_euclidean_division_equations.

Lemma to_N_byte_of n : (n < 256)%N → Byte.to_N (byte_of n) = n.
Proof.
  intros Hn. unfold byte_of.
  pose proof (Byte.to_of_N_option_map n) as H.
  destruct (Byte.of_N n) as [b|]; cbn in *.
  - destruct (N.leb_spec n 255); [by injection H|done].
  - destruct (N.leb_spec n 255); [done|lia].
Qed.

Lemma lor_high_low h n l : (l < 2 ^ n)%N → N.lor (h * 2 ^ n) l = (h * 2 ^ n + l)%N.
Proof.
  intros Hl. rewrite <- N.shiftl_mul_pow2.
  assert (N.land (N.shiftl h n) l = 0%N) as Hdisj.
  { apply N.bits_inj_0. intros i. rewrite N.land_spec.
    destruct (N.lt_ge_cases i n) as [Hi|Hi].
    - by rewrite N.shiftl_spec_low.
    - rewrite <- (N.mod_small l (2 ^ n)) by done.
      rewrite N.mod_pow2_bits_high by done. apply andb_false_r. }
  rewrite N.add_nocarry_lxor by done. symmetry. by apply N.lxor_lor.
Qed.

Lemma in_range_byte_of lo hi n :
  (n < 256)%N → in_range lo hi (byte_of n) = (lo <=? n)%N && (n <=? hi)%N.
Proof. intros Hn. unfold in_range. by rewrite to_N_byte_of. Qed.

Lemma low6_byte_of n : (n < 256)%N → low6 (byte_of n) = (n mod 64)%N.
Proof.
  intros Hn. unfold low6. rewrite to_N_byte_of by done.
  change 0x3F%N with (N.ones 6). by rewrite N.land_ones.
Qed.

Lemma utf8_decode_cons b0 r0 :
  utf8_decode (b0 :: r0) =
      let n0 := Byte.to_N b0 in
      if (n0 <? 0x80)%N then cons n0 <$> utf8_decode r0
      else if in_range 0xC2 0xDF b0 then
        match r0 with
        | b1 :: r1 =>
            if in_range 0x80 0xBF b1
            then cons (N.lor (N.shiftl (N.land n0 0x1F) 6) (low6 b1))
                   <$> utf8_decode r1
            else None
        | _ => None
        end
      else if in_range 0xE0 0xEF b0 then
        match r0 with
        | b1 :: b2 :: r2 =>
            let lo := if (n0 =? 0xE0)%N then 0xA0%N else 0x80%N in
            let hi := if (n0 =? 0xED)%N then 0x9F%N else 0xBF%N in
            if in_range lo hi b1 && in_range 0x80 0xBF b2
            then cons (N.lor (N.shiftl (N.land n0 0x0F) 12)
                         (N.lor (N.shiftl (low6 b1) 6) (low6 b2)))
                   <$> utf8_decode r2
            else None
        | _ => None
        end
      else if in_range 0xF0 0xF4 b0 then
        match r0 with
        | b1 :: b2 :: b3 :: r3 =>
            let lo := if (n0 =? 0xF0)%N then 0x90%N else 0x80%N in
            let hi := if (n0 =? 0xF4)%N then 0x8F%N else 0xBF%N in
            if in_range lo hi b1 && in_range 0x80 0xBF b2 && in_range 0x80 0xBF b3
            then cons (N.lor (N.shiftl (N.land n0 0x07) 18)
                         (N.lor (N.shiftl (low6 b1) 12)
                            (N.lor (N.shiftl (low6 b2) 6) (low6 b3))))
                   <$> utf8_decode r3
            else None
        | _ => None
        end
      else None.
Proof. reflexivity. Qed.

Lemma lead_byte (tag k : N) c n :
  (c / 2 ^ n < 2 ^ k)%N →
  N.lor (tag * 2 ^ k) (N.shiftr c n) = (tag * 2 ^ k + c / 2 ^ n)%N.
Proof. intros H. rewrite N.shiftr_div_pow2. by apply lor_high_low. Qed.

Lemma cont_byte x :
  N.lor 0x80 (N.land x 0x3F) = (128 + x mod 64)%N.
Proof.
  change 0x3F%N with (N.ones 6). rewrite N.land_ones.
  change 0x80%N with (2 * 2 ^ 6)%N. rewrite lor_high_low; [done|].
  apply N.mod_lt. done.
Qed.

Lemma join_bits a n b :
  (b < 2 ^ n)%N → N.lor (N.shiftl a n) b = (a * 2 ^ n + b)%N.
Proof. intros. rewrite N.shiftl_mul_pow2. by apply lor_high_low. Qed.

Ltac bool_lia :=
  rewrite ?andb_true_iff, ?andb_false_iff, ?N.leb_le, ?N.leb_gt, ?N.ltb_lt,
    ?N.ltb_ge, ?N.eqb_eq, ?N.eqb_neq; lia.

Ltac decide_cond :=
  match goal with
  | |- context [if ?b then _ else _] =>
      first [ replace b with true by (symmetry; bool_lia)
            | replace b with false by (symmetry; bool_lia) ]
  end.

Ltac split_eqb :=
  repeat match goal with
  | |- context [N.eqb ?a ?b] => destruct (N.eqb_spec a b)
  end.

Lemma encode_decode_cp c bs rest :
  encode_cp c = Some bs →
  utf8_decode (bs ++ rest) = cons c <$> utf8_decode rest.
Proof.
  unfold encode_cp.
  destruct (N.ltb_spec c 0x80) as [H1|H1].
  { intros [= <-]. cbn [app]. rewrite utf8_decode_cons. cbv zeta.
    rewrite to_N_byte_of by lia. by decide_cond. }
  destruct (N.ltb_spec c 0x800) as [H2|H2].
  { intros [= <-]. cbn [app].
    change 0xC0%N with (6 * 2 ^ 5)%N.
    rewrite (lead_byte 6 5 c 6) by (cbn; lia). rewrite cont_byte.
    change (2 ^ 5)%N with 32%N. change (2 ^ 6)%N with 64%N.
    assert (∃ h l, c = h * 64 + l ∧ 2 ≤ h < 32 ∧ l < 64 ∧
                   c / 64 = h ∧ c mod 64 = l)%N
      as (h & l & Hc & Hh & Hl & -> & ->)
      by (exists (c / 64)%N, (c mod 64)%N; lia).
    clear H1 H2. rewrite utf8_decode_cons. cbv zeta.
    rewrite !in_range_byte_of, !to_N_byte_of, low6_byte_of by lia.
    repeat decide_cond.
    change 0x1F%N with (N.ones 5). rewrite N.land_ones.
    rewrite join_bits by (cbn; lia).
    do 2 f_equal. cbn. lia. }
  destruct ((0xD800 <=? c)%N && (c <=? 0xDFFF)%N) eqn:Hsur; [done|].
  assert (c < 0xD800 ∨ 0xDFFF < c)%N as Hns
    by (apply andb_false_iff in Hsur as [?%N.leb_gt| ?%N.leb_gt]; [left|right]; done).
  clear Hsur.
  destruct (N.ltb_spec c 0x10000) as [H3|H3].
  { intros [= <-]. cbn [app].
    change 0xE0%N with (14 * 2 ^ 4)%N.
    rewrite (lead_byte 14 4 c 12) by (cbn; lia). rewrite !cont_byte.
    rewrite N.shiftr_div_pow2.
    change (2 ^ 4)%N with 16%N. change (2 ^ 6)%N with 64%N.
    change (2 ^ 12)%N with 4096%N.
    assert (∃ h m l, c = h * 4096 + m * 64 + l ∧ h < 16 ∧ m < 64 ∧ l < 64 ∧
                     (h = 0 → 32 ≤ m) ∧ (h = 13 → m < 32) ∧
                     c / 4096 = h ∧ (c / 64) mod 64 = m ∧ c mod 64 = l)%N
      as (h & m & l & Hc & Hh & Hm & Hl & H0 & H13 & -> & -> & ->)
      by (exists (c / 4096)%N, ((c / 64) mod 64)%N, (c mod 64)%N; lia).
    clear H1 H2 H3 Hns. rewrite utf8_decode_cons. cbv zeta.
    rewrite !in_range_byte_of, !to_N_byte_of, !low6_byte_of by lia.
    split_eqb; try lia; repeat decide_cond.
    all: change 0x0F%N with (N.ones 4); rewrite N.land_ones.
    all: rewrite (join_bits _ 6) by (cbn; lia).
    all: rewrite (join_bits _ 12) by (cbn; lia).
    all: do 2 f_equal; cbn; lia. }
  destruct (N.ltb_spec c 0x110000) as [H4|H4]; [|done].
  intros [= <-]. cbn [app].
  change 0xF0%N with (30 * 2 ^ 3)%N.
  rewrite (lead_byte 30 3 c 18) by (cbn; lia). rewrite !cont_byte.
  rewrite !N.shiftr_div_pow2.
  change (2 ^ 3)%N with 8%N. change (2 ^ 6)%N with 64%N.
  change (2 ^ 12)%N with 4096%N. change (2 ^ 18)%N with 262144%N.
  assert (∃ h m n l, c = h * 262144 + m * 4096 + n * 64 + l ∧
                     h < 5 ∧ m < 64 ∧ n < 64 ∧ l < 64 ∧
                     (h = 0 → 16 ≤ m) ∧ (h = 4 → m < 16) ∧
                     c / 262144 = h ∧ (c / 4096) mod 64 = m ∧
                     (c / 64) mod 64 = n ∧ c mod 64 = l)%N
    as (h & m & n & l & Hc & Hh & Hm & Hn & Hl & H0 & H4' & -> & -> & -> & ->)
    by (exists (c / 262144)%N, ((c / 4096) mod 64)%N, ((c / 64) mod 64)%N,
          (c mod 64)%N; lia).
  clear H1 H2 H3 H4 Hns. rewrite utf8_decode_cons. cbv zeta.
  rewrite !in_range_byte_of, !to_N_byte_of, !low6_byte_of by lia.
  split_eqb; try lia; repeat decide_cond.
  all: change 0x07%N with (N.ones 3); rewrite N.land_ones.
  all: rewrite (join_bits _ 6) by (cbn; lia).
  all: rewrite (join_bits _ 12) by (cbn; lia).
  all: rewrite (join_bits _ 18) by (cbn; lia).
  all: do 2 f_equal; cbn; lia.
Qed.
Lemma utf8_decode_encode s : ∀ bs, utf8_encode s = Some bs → utf8_decode bs = Some s.
Proof.
  unfold utf8_encode. induction s as [|c s IH]; intros bs.
  - cbn. by intros [= <-].
  - cbn [mapM]. destruct (encode_cp c) as [b|] eqn:Ec; [|done]. cbn.
    destruct (mapM encode_cp s) as [chunks|] eqn:Em; [|done]. cbn.
    intros [= <-]. rewrite (encode_decode_cp _ _ _ Ec).
    by rewrite (IH (concat chunks) eq_refl).
Qed.

Section RoundTrip.

Variable lower : pystr → pystr.
Variable here : pystr.
Variable json_loads : pystr → result json.
Variable float_repr : spec_float → pystr.

(** The path of the scripts is text the console can show. *)
Hypothesis here_printable : Forall encodable here.

(** X14.  What [save] has written, [load] reads back: after a [save] that
    returned, [load] finds the file, decodes it without error, and hands
    to [json.loads] exactly the text [save] produced (with the line
    endings of text mode); its result is the result of [json.loads] on
    that text. *)
Theorem save_then_load data w w' :
  save here float_repr data w = Done () w' →
  load here json_loads w' =
  match json_loads (universal_newlines (dumps float_repr data)) with
  | Ok v => Done v (log (EvRead (DATA here)) w')
  | Err e => Raise e
  end.
Proof.
  unfold save, write_text.
  destruct (utf8_encode (dumps float_repr data)) as [bs|] eqn:Hbs; [|done].
  intros [= <-]. unfold load, json_load, io_bind, read_text. cbn [fs].
  rewrite lookup_insert_eq, (utf8_decode_encode _ _ Hbs).
  by destruct (json_loads _).
Qed.

(** X15.  Running the fill tool (without [--interactive]) a second time
    changes nothing in the data file.  Take a first run that goes through,
    and assume that [json.loads] reads the saved text back as the
    Collection that was saved.  Then the second run goes through as well,
    the data file holds the same bytes after it as before it, and the
    backup now holds those bytes too. *)
Theorem main_rerun args w bs items its out :
  fs w !! DATA here = Some bs →
  file_json json_loads bs = Some items →
  py_iter items = Ok its →
  dedupe lower its = Ok out →
  interactive args = false →
  Forall encodable (dumps float_repr (JArr out)) →
  json_loads (universal_newlines (dumps float_repr (JArr out))) = Ok (JArr out) →
  ∃ w1 w2 bs1,
    main lower here json_loads float_repr args w = Done () w1 ∧
    main lower here json_loads float_repr args w1 = Done () w2 ∧
    fs w1 !! DATA here = Some bs1 ∧
    fs w2 !! DATA here = Some bs1 ∧
    fs w2 !! BACKUP here = Some bs1.
Proof.
  intros Hbs Hjson Hiter Hded Hint Henc Hloads.
  destruct (main_dedupe_only lower here json_loads float_repr here_printable
              args w bs items its out)
    as (c & bs1 & Hc & Hbs1 & Hrun1); try done.
  assert (dedupe lower out = Ok out) as Hfix.
  { destruct (dedupe_inv _ _ _ Hded) as (st & _ & -> & Hwf).
    pose proof (wf_state_NoDup _ _ Hwf) as Hnd. destruct Hwf as [Hk _].
    destruct (dedupe_loop_kept lower st.2 ∅ [] Hk Hnd) as [seen' E].
    { intros d _. apply lookup_empty. }
    unfold dedupe. by rewrite E. }
  assert (utf8_encode (dumps float_repr (JArr out)) = Some bs1) as Hdump.
  { rewrite Hc. by rewrite dumps_collection. }
  match type of Hrun1 with _ = Done () ?x => set (w1 := x) in * end.
  assert (fs w1 !! DATA here = Some bs1) as Hd1 by apply lookup_insert_eq.
  assert (file_json json_loads bs1 = Some (JArr out)) as Hjson1.
  { unfold file_json. by rewrite (utf8_decode_encode _ _ Hdump), Hloads. }
  destruct (main_dedupe_only lower here json_loads float_repr here_printable
              args w1 bs1 (JArr out) out out)
    as (c2 & bs2 & Hc2 & Hbs2 & Hrun2); try done.
  assert (bs2 = bs1) as ->.
  { rewrite <- dumps_collection, <- Hc2, Hdump in Hbs2. by injection Hbs2. }
  eexists w1, _, bs1. split; [done|]. split; [exact Hrun2|]. split; [done|].
  cbn [fs]. split; [apply lookup_insert_eq|].
  rewrite lookup_insert_ne by (intros Heq; by apply (BACKUP_neq_DATA here)).
  apply lookup_insert_eq.
Qed.

End RoundTrip.

(** * The decoder *)

(** ** Whitespace *)

Lemma skip_ws_head c s : is_json_ws c = false → skip_ws (c :: s) = c :: s.
Proof. intros H. cbn. by rewrite H. Qed.

Lemma skip_ws_spaces k s : skip_ws (replicate k 32%N ++ s) = skip_ws s.
Proof. induction k as [|k IH]; [done|]. exact IH. Qed.

Lemma skip_ws_indent lvl s : skip_ws (newline_indent lvl ++ s) = skip_ws s.
Proof. unfold newline_indent. cbn [app skip_ws is_json_ws]. cbn. apply skip_ws_spaces. Qed.

(** ** Integers *)

Lemma span_digits_app ds rest :
  Forall (λ c, is_digit c = true) ds →
  match rest with c :: _ => is_digit c = false | [] => True end →
  span_digits (ds ++ rest) = (ds, rest).
Proof.
  intros Hds Hrest. induction Hds as [|c ds Hc _ IH].
  - destruct rest as [|c r]; [done|]. cbn. by rewrite Hrest.
  - cbn. by rewrite Hc, IH.
Qed.

Lemma lit_String a s : lit (String a s) = Ascii.N_of_ascii a :: lit s.
Proof. done. Qed.

Lemma N_of_pretty_N_char m :
  (m < 10)%N → Ascii.N_of_ascii (pretty_N_char m) = (48 + m)%N.
Proof.
  intros Hm.
  assert (m ∈ [0; 1; 2; 3; 4; 5; 6; 7; 8; 9]%N) as Hin.
  { rewrite !elem_of_cons. lia. }
  rewrite !elem_of_cons, elem_of_nil in Hin.
  repeat (destruct Hin as [->|Hin]; [done|]). done.
Qed.

(** The digits [pretty] writes for a number. *)
Lemma pretty_N_go_digits x : ∀ s,
  ∃ ds, lit (pretty_N_go x s) = ds ++ lit s ∧
        Forall (λ c, is_digit c = true) ds ∧
        (∀ a, foldl digit_step a ds = (a * 10 ^ N.of_nat (length ds) + x)%N) ∧
        (x = 0%N → ds = []) ∧
        ((0 < x)%N → ∃ c ds', ds = c :: ds' ∧ c ≠ 48%N
                              ∧ (10 ^ N.of_nat (length ds') ≤ x)%N).
Proof.
  induction (N.lt_wf_0 x) as [x _ IH]. intros s.
  destruct (decide (x = 0%N)) as [->|Hx].
  - exists []. rewrite pretty_N_go_0. repeat split; [constructor|intros a; cbn; lia|lia].
  - assert (0 < x)%N as Hpos by lia.
    rewrite pretty_N_go_step by done.
    destruct (IH (x `div` 10)%N (N.div_lt x 10 Hpos eq_refl)
                (String (pretty_N_char (x `mod` 10)) s))
      as (ds & Hlit & Hdig & Hval & Hzero & Hhead).
    pose proof (N.mod_lt x 10 ltac:(done)) as Hmod.
    rewrite lit_String, N_of_pretty_N_char in Hlit by done.
    exists (ds ++ [(48 + x `mod` 10)%N]). split; [|split; [|split; [|split]]].
    + by rewrite Hlit, <- app_assoc.
    + apply Forall_app. split; [done|]. constructor; [|constructor].
      unfold is_digit. apply andb_true_iff. clear -Hmod. split; apply N.leb_le; lia.
    + intros a. rewrite foldl_app, Hval. cbn [foldl]. unfold digit_step.
      rewrite length_app. cbn [length]. rewrite Nat.add_1_r, Nat2N.inj_succ, N.pow_succ_r'.
      pose proof (N.div_mod x 10 ltac:(done)) as Hdm. clear -Hdm Hmod.
      generalize dependent (x `div` 10)%N. generalize dependent (x `mod` 10)%N.
      generalize (10 ^ N.of_nat (length ds))%N. intros. nia.
    + lia.
    + intros _. destruct (decide (x `div` 10 = 0)%N) as [Hz|Hnz].
      * rewrite (Hzero Hz). exists (48 + x `mod` 10)%N, []. cbn.
        pose proof (N.div_mod x 10 ltac:(done)) as Hdm. clear -Hdm Hz Hpos.
        repeat split; lia.
      * destruct Hhead as (c & ds' & -> & Hc & Hle); [lia|].
        exists c, (ds' ++ [(48 + x `mod` 10)%N]). split; [done|]. split; [done|].
        rewrite length_app. cbn [length]. rewrite Nat.add_1_r, Nat2N.inj_succ, N.pow_succ_r'.
        pose proof (N.div_mod x 10 ltac:(done)) as Hdm. clear -Hdm Hmod Hle.
        generalize dependent (x `div` 10)%N. generalize dependent (x `mod` 10)%N.
        generalize (10 ^ N.of_nat (length ds'))%N. intros. nia.
Qed.

Lemma digits_val_foldl ds : digits_val ds = foldl digit_step 0%N ds.
Proof. done. Qed.

(** The text of a positive number: its digits, the first one not [0]. *)
Lemma pretty_pos_digits (p : positive) :
  ∃ c ds, lit (pretty (Z.pos p)) = c :: ds ∧
          Forall (λ c, is_digit c = true) (c :: ds) ∧ c ≠ 48%N ∧
          digits_val (c :: ds) = Npos p ∧
          (10 ^ N.of_nat (length ds) ≤ Npos p)%N.
Proof.
  destruct (pretty_N_go_digits (Npos p) "") as (ds & Hlit & Hdig & Hval & _ & Hhead).
  destruct Hhead as (c & ds' & -> & Hc & Hle); [lia|].
  exists c, ds'. change (lit "") with ([] : pystr) in Hlit. rewrite app_nil_r in Hlit.
  split; [exact Hlit|]. split; [done|]. split; [done|]. split; [|done].
  rewrite digits_val_foldl, Hval. lia.
Qed.

Lemma lit_app s1 s2 : lit (s1 +:+ s2) = lit s1 ++ lit s2.
Proof.
  induction s1 as [|a s1 IH]; [done|].
  change (lit (String a (s1 +:+ s2)) = lit (String a s1) ++ lit s2).
  by rewrite !lit_String, IH.
Qed.

(** Replaces the tests [a =? b] on code points by their values. *)
Ltac eqb_N :=
  repeat match goal with
  | |- context [(?a =? ?b)%N] =>
      first [ rewrite (proj2 (N.eqb_neq a b)) by lia
            | rewrite (proj2 (N.eqb_eq a b)) by lia ]
  end.

Lemma is_digit_bounds c : is_digit c = true ↔ (48 ≤ c ≤ 57)%N.
Proof. unfold is_digit. rewrite andb_true_iff, !N.leb_le. done. Qed.

Lemma number_end_digit c rest : number_end (c :: rest) = true → is_digit c = false.
Proof. cbn. rewrite negb_true_iff, !orb_false_iff. tauto. Qed.

Lemma match_frac_end rest : number_end rest = true → match_frac rest = (None, rest).
Proof.
  destruct rest as [|p [|c r]]; [done..|]. cbn.
  rewrite negb_true_iff, !orb_false_iff. intros [[[_ ->] _] _]. done.
Qed.

Lemma match_exp_end rest : number_end rest = true → match_exp rest = (None, rest).
Proof.
  destruct rest as [|e r]; [done|]. cbn -[span_digits].
  rewrite negb_true_iff, !orb_false_iff. intros [[[_ _] ->] ->]. done.
Qed.

(** A run of digits is read as one integer token. *)
Lemma match_unsigned_digits (neg : bool) c ds rest :
  is_digit c = true → Forall (λ c, is_digit c = true) ds →
  (c = 48%N → ds = []) → number_end rest = true →
  match_unsigned neg (c :: ds ++ rest) = Some (Number neg (c :: ds) None None, rest).
Proof.
  intros Hc Hds Hzero Hend. unfold match_unsigned.
  assert (match_int (c :: ds ++ rest) = Some (c :: ds, rest)) as ->.
  { unfold match_int. destruct (N.eqb_spec c 48) as [->|Hne].
    - by rewrite (Hzero eq_refl).
    - rewrite Hc, span_digits_app; [done|done|].
      destruct rest as [|c' rest']; [done|]. by apply number_end_digit in Hend. }
  cbv zeta. by rewrite match_frac_end, match_exp_end.
Qed.

Lemma match_number_digits (neg : bool) c ds rest :
  is_digit c = true → Forall (λ c, is_digit c = true) ds →
  (c = 48%N → ds = []) → number_end rest = true →
  match_number ((if neg then [45%N] else []) ++ c :: ds ++ rest)
  = Some (Number neg (c :: ds) None None, rest).
Proof.
  intros Hc Hds Hzero Hend. apply is_digit_bounds in Hc as Hcb.
  destruct neg; cbn [app]; unfold match_number.
  - rewrite N.eqb_refl. by apply match_unsigned_digits.
  - rewrite (proj2 (N.eqb_neq c 45)) by lia. by apply match_unsigned_digits.
Qed.

Lemma scan_constant_digit c r : is_digit c = true → scan_constant constants (c :: r) = None.
Proof.
  intros Hc%is_digit_bounds. cbn. by eqb_N.
Qed.

Lemma scan_constant_minus_digit c r :
  is_digit c = true → scan_constant constants (45%N :: c :: r) = None.
Proof.
  intros Hc%is_digit_bounds. cbn. by eqb_N.
Qed.

Lemma scan_once_number n d s t r v :
  match s with
  | c :: _ => c ≠ 34%N ∧ c ≠ 123%N ∧ c ≠ 91%N
  | [] => False
  end →
  scan_constant constants s = None →
  match_number s = Some (t, r) → number_value t = Ok v →
  scan_once (S n) d s = Ok (v, r).
Proof.
  intros Hs Hc Hm Hv. destruct s as [|c s]; [done|]. destruct Hs as (H1 & H2 & H3).
  cbn [scan_once]. eqb_N. by rewrite Hc, Hm, Hv.
Qed.

(** The digits of a positive number within the digit limit, as [int]
    reads them. *)
Lemma py_int_pretty (p : positive) :
  (Z.pos p < 10 ^ Z.of_nat int_max_str_digits)%Z →
  ∃ c ds, lit (pretty (Z.pos p)) = c :: ds ∧ is_digit c = true ∧
          Forall (λ c, is_digit c = true) ds ∧ c ≠ 48%N ∧
          ∀ neg, py_int neg (c :: ds) = Ok (if neg then Z.neg p else Z.pos p).
Proof.
  intros Hp. destruct (pretty_pos_digits p) as (c & ds & Hlit & Hdig & Hc & Hval & Hle).
  apply Forall_cons in Hdig as [Hdc Hdig].
  exists c, ds. repeat (split; [done|]). intros neg. unfold py_int.
  rewrite bool_decide_eq_false_2.
  - rewrite Hval. by destruct neg.
  - assert (N.of_nat (length ds) < N.of_nat int_max_str_digits)%N; [|cbn [length]; lia].
    apply (N.pow_lt_mono_r_iff 10); [lia|].
    eapply N.le_lt_trans; [exact Hle|].
    revert Hp. generalize int_max_str_digits. intros m Hp.
    apply N2Z.inj_lt. rewrite N2Z.inj_pow, nat_N_Z. exact Hp.
Qed.

(** The text of an integer within the digit limit is read back. *)
Lemma scan_once_int z n d rest :
  (Z.abs z < 10 ^ Z.of_nat int_max_str_digits)%Z → number_end rest = true →
  scan_once (S n) d (lit (pretty z) ++ rest) = Ok (JInt z, rest).
Proof.
  intros Hz Hend.
  destruct z as [|p|p].
  - clear Hz. change (lit (pretty 0%Z)) with [48%N].
    apply (scan_once_number _ _ _ (Number false [48%N] None None)).
    + cbn [app]. lia.
    + reflexivity.
    + apply (match_number_digits false 48 []); [reflexivity|constructor|reflexivity|exact Hend].
    + reflexivity.
  - destruct (py_int_pretty p Hz) as (c & ds & Hlit & Hc & Hds & Hne & Hint). clear Hz.
    rewrite Hlit. apply is_digit_bounds in Hc as Hcb.
    apply (scan_once_number _ _ _ (Number false (c :: ds) None None)).
    + cbn [app]. lia.
    + apply scan_constant_digit, Hc.
    + rewrite <- app_comm_cons.
      apply (match_number_digits false); [exact Hc|exact Hds|intros; contradiction|exact Hend].
    + unfold number_value. cbn [num_frac num_exp num_neg num_int]. rewrite Hint. reflexivity.
  - destruct (py_int_pretty p Hz) as (c & ds & Hlit & Hc & Hds & Hne & Hint). clear Hz.
    change (pretty (Z.neg p)) with ("-" +:+ pretty (Z.pos p)).
    rewrite lit_app, Hlit. change (lit "-") with [45%N].
    apply is_digit_bounds in Hc as Hcb.
    apply (scan_once_number _ _ _ (Number true (c :: ds) None None)).
    + cbn [app]. lia.
    + apply scan_constant_minus_digit, Hc.
    + rewrite <- app_assoc, <- app_comm_cons.
      apply (match_number_digits true); [exact Hc|exact Hds|intros; contradiction|exact Hend].
    + unfold number_value. cbn [num_frac num_exp num_neg num_int]. rewrite Hint. reflexivity.
Qed.

(** ** Strings *)

Lemma esc_char_plain c : (128 ≤ c)%N → esc_char c = [c].
Proof.
  intros Hc. unfold esc_char. eqb_N.
  destruct (N.ltb_spec c 32); [lia|done].
Qed.

(** What the serializer writes for a character, the scanner reads as that
    character. *)
Lemma scan_string_esc_char c tail :
  scan_string (esc_char c ++ tail) = let* p := scan_string tail in Ok (c :: p.1, p.2).
Proof.
  destruct (N.ltb_spec c 32) as [Hc|Hc].
  - assert (∀ k, k < 32 → ∀ t,
              scan_string (esc_char (N.of_nat k) ++ t)
              = let* p := scan_string t in Ok (N.of_nat k :: p.1, p.2)) as Hall.
    { intros k Hk t. do 32 (destruct k as [|k]; [reflexivity|]). lia. }
    rewrite <- (N2Nat.id c). apply Hall. lia.
  - unfold esc_char.
    destruct (N.eqb_spec c 34) as [->|H34]; [done|].
    destruct (N.eqb_spec c 92) as [->|H92]; [done|].
    eqb_N. rewrite (proj2 (N.ltb_ge c 32)) by done.
    cbn [app scan_string]. eqb_N. by rewrite (proj2 (N.ltb_ge c 32)).
Qed.

Lemma scan_string_enc s rest :
  scan_string (flat_map esc_char s ++ 34%N :: rest) = Ok (s, rest).
Proof.
  induction s as [|c s IH]; [done|].
  cbn [flat_map]. by rewrite <- app_assoc, scan_string_esc_char, IH.
Qed.

(** ** Values *)

(** Writes the length of a text made of pieces in terms of the lengths of
    the pieces. *)
Tactic Notation "lengths" :=
  repeat first [rewrite length_app | rewrite length_cons].
Tactic Notation "lengths" "in" hyp(H) :=
  repeat first [rewrite length_app in H | rewrite length_cons in H].

Section Decode.

Variable float_repr : spec_float → pystr.

Local Abbreviation jenc := (enc float_repr).
Local Abbreviation jmember := (member_text float_repr).


Lemma enc_starts_value d v lvl : json_ok d v = true → starts_value (jenc lvl v).
Proof.
  intros Hok. unfold starts_value.
  destruct v as [|[]|z|f|s|l|kvs].
  - by eexists _, _.
  - by eexists _, _.
  - by eexists _, _.
  - destruct z as [|p|p].
    + by eexists _, _.
    + destruct (pretty_pos_digits p) as (c & ds & Hlit & [Hc%is_digit_bounds _]%Forall_cons & _).
      exists c, ds. split; [exact Hlit|]. unfold is_json_ws. eqb_N. repeat split; lia.
    + exists 45%N, (lit (pretty (Z.pos p))). split; [|done].
      change (lit ("-" +:+ pretty (Z.pos p)) = 45%N :: lit (pretty (Z.pos p))).
      by rewrite lit_app.
  - by destruct d.
  - by eexists _, _.
  - destruct l; by eexists _, _.
  - destruct kvs; by eexists _, _.
Qed.

Lemma skip_ws_starts_value s : starts_value s → skip_ws s = s.
Proof. intros (c & t & -> & Hc & _). by apply skip_ws_head. Qed.

Lemma starts_value_app s r : starts_value s → starts_value (s ++ r).
Proof. intros (c & t & -> & H). by exists c, (t ++ r). Qed.

Lemma join_starts_value sep (xs : list pystr) :
  xs ≠ [] → Forall starts_value xs → starts_value (join sep xs).
Proof.
  destruct xs as [|x [|y xs]]; [done| |]; intros _ [Hx _]%Forall_cons; [done|].
  by apply starts_value_app.
Qed.

Lemma join_cons2 (sep x y : pystr) xs :
  join sep (x :: y :: xs) = x ++ sep ++ join sep (y :: xs).
Proof. done. Qed.

Lemma number_end_indent lvl s : number_end (newline_indent lvl ++ s) = true.
Proof. done. Qed.

Lemma dict_set_fresh k v (acc : dict) : k ∉ acc.*1 → dict_set k v acc = acc ++ [(k, v)].
Proof.
  induction acc as [|[k' v'] acc IH]; [done|]. cbn. intros Hk.
  apply not_elem_of_cons in Hk as [Hne Hk]. rewrite decide_False by done.
  by rewrite IH.
Qed.

(** The elements of an array, after the first one has been found to
    start. *)
Lemma array_items_enc d lvl (l : list json) :
  (∀ v, v ∈ l → json_ok d v = true) →
  (∀ v, v ∈ l → ∀ n rest,
      number_end rest = true → 2 * length (jenc (S lvl) v ++ rest) < n →
      scan_once n d (jenc (S lvl) v ++ rest) = Ok (v, rest)) →
  l ≠ [] → ∀ acc n rest,
  2 * length (join (lit "," ++ newline_indent (S lvl)) (jenc (S lvl) <$> l)
              ++ newline_indent lvl ++ 93%N :: rest) + 1 < n →
  array_items n d
    (join (lit "," ++ newline_indent (S lvl)) (jenc (S lvl) <$> l)
     ++ newline_indent lvl ++ 93%N :: rest) acc
  = Ok (JArr (acc ++ l), rest).
Proof.
  intros Hok IH. induction l as [|v l IHl]; [done|]. intros _ acc n rest Hn.
  destruct n as [|n]; [lia|]. cbn [array_items].
  destruct l as [|v' l].
  - cbn [fmap list_fmap join] in Hn |- *.
    rewrite IH; [|left|apply number_end_indent|lia].
    cbn [rbind fst snd]. rewrite skip_ws_indent, skip_ws_head by done.
    by eqb_N.
  - rewrite 2!fmap_cons, join_cons2, <- (fmap_cons _ v' l) in Hn |- *.
    set (J := join _ (jenc (S lvl) <$> v' :: l)) in *.
    rewrite <- !app_assoc in Hn |- *. change (lit "," ++ ?x) with (44%N :: x) in Hn |- *.
    rewrite IH; [|left|done|lia].
    cbn [rbind fst snd]. rewrite skip_ws_head by done. eqb_N.
    assert (starts_value J) as HJ.
    { apply join_starts_value; [done|].
      apply Forall_fmap, Forall_forall. intros x Hx.
      eapply enc_starts_value, Hok. by right. }
    rewrite skip_ws_indent, skip_ws_starts_value by (by apply starts_value_app).
    rewrite IHl.
    + by rewrite <- app_assoc.
    + intros x Hx. apply Hok. by right.
    + intros x Hx. apply IH. by right.
    + done.
    + lengths in Hn. lengths. lia.
Qed.


Lemma member_starts_value lvl kv : starts_value (jmember lvl kv).
Proof. by eexists _, _. Qed.

(** The members of an object, after the first one has been found to
    start. *)
Lemma object_members_enc d lvl (kvs : dict) :
  (∀ kv, kv ∈ kvs → json_ok d kv.2 = true) →
  (∀ kv, kv ∈ kvs → ∀ n rest,
      number_end rest = true → 2 * length (jenc (S lvl) kv.2 ++ rest) < n →
      scan_once n d (jenc (S lvl) kv.2 ++ rest) = Ok (kv.2, rest)) →
  kvs ≠ [] → ∀ acc n rest,
  NoDup (acc.*1 ++ kvs.*1) →
  2 * length (join (lit "," ++ newline_indent (S lvl)) (jmember (S lvl) <$> kvs)
              ++ newline_indent lvl ++ 125%N :: rest) + 1 < n →
  object_members n d
    (join (lit "," ++ newline_indent (S lvl)) (jmember (S lvl) <$> kvs)
     ++ newline_indent lvl ++ 125%N :: rest) acc
  = Ok (JObj (acc ++ kvs), rest).
Proof.
  intros Hok IH. induction kvs as [|[k v] kvs IHl]; [done|].
  intros _ acc n rest Hnd Hn.
  destruct n as [|n]; [lia|].
  assert (dict_set k v acc = acc ++ [(k, v)]) as Hset.
  { apply dict_set_fresh. apply NoDup_app in Hnd as (_ & Hnd & _).
    intros Hin. apply (Hnd k Hin). left. }
  assert (∀ R, number_end R = true → 2 * length (jenc (S lvl) v ++ R) < n →
            object_members (S n) d (jmember (S lvl) (k, v) ++ R) acc
            = match skip_ws R with
              | c' :: r4 =>
                  if (c' =? 125)%N then Ok (JObj (acc ++ [(k, v)]), r4)
                  else if (c' =? 44)%N
                       then object_members n d (skip_ws r4) (acc ++ [(k, v)])
                       else Err JSONDecodeError
              | [] => Err JSONDecodeError
              end) as Hone.
  { intros R HR HnR. unfold member_text, enc_str. cbn [fst snd].
    rewrite <- !app_assoc. cbn [app object_members]. rewrite N.eqb_refl.
    rewrite scan_string_enc. cbn [rbind fst snd].
    change (lit ": " ++ ?x) with (58%N :: 32%N :: x).
    rewrite (skip_ws_head 58) by done. rewrite N.eqb_refl.
    change (skip_ws (32%N :: ?x)) with (skip_ws x).
    rewrite skip_ws_starts_value
      by (eapply starts_value_app, enc_starts_value, (Hok (k, v)); left).
    rewrite (IH (k, v)); [|left|done|done].
    cbn [rbind fst snd]. by rewrite Hset. }
  destruct kvs as [|kv' kvs].
  - cbn [fmap list_fmap join] in Hn |- *.
    rewrite Hone; [|apply number_end_indent|].
    + rewrite skip_ws_indent, skip_ws_head by done. by eqb_N.
    + unfold member_text in Hn. cbn [fst snd] in Hn. lengths in Hn. lengths. lia.
  - rewrite 2!fmap_cons, join_cons2, <- (fmap_cons _ kv' kvs) in Hn |- *.
    set (J := join _ (jmember (S lvl) <$> kv' :: kvs)) in *.
    rewrite <- !app_assoc in Hn |- *.
    change (lit "," ++ ?x) with (44%N :: x) in Hn |- *.
    rewrite Hone; [|done|].
    2:{ unfold member_text in Hn. cbn [fst snd] in Hn. lengths in Hn. lengths. lia. }
    rewrite skip_ws_head by done. eqb_N.
    assert (starts_value J) as HJ.
    { apply join_starts_value; [done|].
      apply Forall_fmap, Forall_forall. intros x Hx. apply member_starts_value. }
    rewrite skip_ws_indent, skip_ws_starts_value by (by apply starts_value_app).
    rewrite IHl.
    + by rewrite <- app_assoc.
    + intros x Hx. apply Hok. by right.
    + intros x Hx. apply IH. by right.
    + done.
    + rewrite fmap_app, <- app_assoc. exact Hnd.
    + unfold member_text in Hn at 1. cbn [fst snd] in Hn. lengths in Hn. lengths. lia.
Qed.

(** What [json.dumps] writes for a value, [scan_once] reads back as that
    value, whatever follows it (as long as it does not continue a
    number). *)
Lemma scan_once_enc d : ∀ v, json_ok d v = true → ∀ n lvl rest,
  number_end rest = true → 2 * length (jenc lvl v ++ rest) < n →
  scan_once n d (jenc lvl v ++ rest) = Ok (v, rest).
Proof.
  assert (∀ d v, match v with JArr _ | JObj _ => False | _ => True end →
            json_ok d v = true → ∀ n lvl rest,
            number_end rest = true → 2 * length (jenc lvl v ++ rest) < n →
            scan_once n d (jenc lvl v ++ rest) = Ok (v, rest)) as Hscalar.
  { intros d' v Hv Hok n lvl rest Hend Hn. destruct n as [|n]; [lia|].
    destruct v as [|[]|z|f|s|l|kvs]; try done.
    - apply scan_once_int; [|done]. cbn in Hok. destruct d'; by apply bool_decide_eq_true in Hok.
    - by destruct d'.
    - cbn [enc]. unfold enc_str. rewrite <- !app_assoc. cbn [app scan_once].
      by rewrite N.eqb_refl, scan_string_enc. }
  induction d as [|d IH]; intros v Hok n lvl rest Hend Hn.
  - destruct v; try (by apply Hscalar); done.
  - destruct v as [| | | | |l|kvs]; try (by apply Hscalar).
    + cbn [json_ok] in Hok. rewrite forallb_forall in Hok.
      destruct n as [|n]; [lia|]. destruct l as [|v l]; [done|].
      change (jenc lvl (JArr (v :: l)))
        with (lit "[" ++ newline_indent (S lvl)
              ++ join (lit "," ++ newline_indent (S lvl)) (jenc (S lvl) <$> v :: l)
              ++ newline_indent lvl ++ lit "]") in Hn |- *.
      set (J := join _ _) in *.
      rewrite <- !app_assoc in Hn |- *.
      change (lit "[" ++ ?x) with (91%N :: x) in Hn |- *.
      change (lit "]" ++ ?x) with (93%N :: x) in Hn |- *.
      assert (starts_value J) as HJ.
      { apply join_starts_value; [done|].
        apply Forall_fmap, Forall_forall. intros x Hx%list_elem_of_In.
        by eapply enc_starts_value, Hok. }
      assert (skip_ws (newline_indent (S lvl) ++ J ++ newline_indent lvl ++ 93%N :: rest)
              = J ++ newline_indent lvl ++ 93%N :: rest) as Hskip.
      { by rewrite skip_ws_indent, skip_ws_starts_value by (by apply starts_value_app). }
      cbn [scan_once]. rewrite Hskip.
      destruct HJ as (c & t & HJ & _ & Hc & _). rewrite HJ. cbn [app].
      rewrite (proj2 (N.eqb_neq c 93)) by done.
      change (c :: t ++ ?x) with ((c :: t) ++ x). rewrite <- HJ.
      apply (array_items_enc d lvl (v :: l)); [| |done|].
      * intros x Hx%list_elem_of_In. by apply Hok.
      * intros x Hx n' rest' He Hn'.
        apply IH; [by apply Hok, list_elem_of_In|done|done].
      * subst J. lengths in Hn. lengths. lia.
    + cbn [json_ok] in Hok. apply andb_true_iff in Hok as [Hnd%bool_decide_eq_true Hok].
      rewrite forallb_forall in Hok.
      destruct n as [|n]; [lia|]. destruct kvs as [|kv kvs]; [done|].
      change (jenc lvl (JObj (kv :: kvs)))
        with (lit "{" ++ newline_indent (S lvl)
              ++ join (lit "," ++ newline_indent (S lvl))
                   (jmember (S lvl) <$> kv :: kvs)
              ++ newline_indent lvl ++ lit "}") in Hn |- *.
      set (J := join _ _) in *.
      rewrite <- !app_assoc in Hn |- *.
      change (lit "{" ++ ?x) with (123%N :: x) in Hn |- *.
      change (lit "}" ++ ?x) with (125%N :: x) in Hn |- *.
      assert (starts_value J) as HJ.
      { apply join_starts_value; [done|].
        apply Forall_fmap, Forall_forall. intros x Hx. apply member_starts_value. }
      assert (skip_ws (newline_indent (S lvl) ++ J ++ newline_indent lvl ++ 125%N :: rest)
              = J ++ newline_indent lvl ++ 125%N :: rest) as Hskip.
      { by rewrite skip_ws_indent, skip_ws_starts_value by (by apply starts_value_app). }
      cbn [scan_once]. rewrite Hskip.
      destruct HJ as (c & t & HJ & _ & _ & Hc). rewrite HJ. cbn [app].
      rewrite (proj2 (N.eqb_neq c 125)) by done.
      change (c :: t ++ ?x) with ((c :: t) ++ x). rewrite <- HJ.
      apply (object_members_enc d lvl (kv :: kvs)); [| |done|done|].
      * intros x Hx%list_elem_of_In. by apply Hok.
      * intros x Hx n' rest' He Hn'.
        apply IH; [by apply Hok, list_elem_of_In|done|done].
      * subst J. lengths in Hn. lengths. lia.
Qed.

(** [json.loads] reads what [json.dumps] wrote. *)
Lemma json_decode_dumps d v :
  json_ok d v = true → json_decode d (dumps float_repr v) = Ok v.
Proof.
  intros Hok. unfold json_decode, dumps.
  rewrite skip_ws_starts_value by (by eapply enc_starts_value).
  rewrite <- (app_nil_r (jenc 0 v)) at 2.
  rewrite (scan_once_enc d v Hok); [done|done|].
  rewrite app_nil_r. lia.
Qed.

(** The text [json.dumps] writes holds no carriage return, so reading it
    in text mode changes nothing. *)
Lemma universal_newlines_id s : 13%N ∉ s → universal_newlines s = s.
Proof.
  induction s as [|c s IH]; [done|]. intros [Hc Hs]%not_elem_of_cons.
  cbn [universal_newlines]. rewrite (proj2 (N.eqb_neq c 13)) by done.
  by rewrite IH.
Qed.

Lemma not_elem_of_join (x : N) sep (xs : list pystr) :
  x ∉ sep → Forall (λ s, x ∉ s) xs → x ∉ join sep xs.
Proof.
  intros Hsep Hxs. induction Hxs as [|s xs Hs _ IH]; [by apply not_elem_of_nil|].
  destruct xs as [|s' xs]; [done|]. rewrite join_cons2, !not_elem_of_app. done.
Qed.

Lemma not_elem_of_lit (x : N) s :
  Forall (λ a, Ascii.N_of_ascii a ≠ x) (String.list_ascii_of_string s) → x ∉ lit s.
Proof.
  unfold lit. intros H (a & -> & Ha)%list_elem_of_fmap.
  rewrite Forall_forall in H. by apply (H a).
Qed.

Lemma cr_not_in_digits ds : Forall (λ c, is_digit c = true) ds → 13%N ∉ ds.
Proof.
  intros H Hin. rewrite Forall_forall in H. by specialize (H _ Hin).
Qed.

Lemma cr_not_in_pretty (z : Z) : 13%N ∉ lit (pretty z).
Proof.
  destruct z as [|p|p].
  - by apply not_elem_of_lit, (bool_decide_unpack _).
  - destruct (pretty_pos_digits p) as (c & ds & -> & Hd & _). by apply cr_not_in_digits.
  - change (pretty (Z.neg p)) with ("-" +:+ pretty (Z.pos p)). rewrite lit_app.
    destruct (pretty_pos_digits p) as (c & ds & -> & Hd & _).
    apply not_elem_of_app. split; [|by apply cr_not_in_digits].
    by apply not_elem_of_lit, (bool_decide_unpack _).
Qed.

Lemma cr_not_in_esc_char c : 13%N ∉ esc_char c.
Proof.
  destruct (N.leb_spec 128 c) as [Hc|Hc].
  - rewrite esc_char_plain by done. apply not_elem_of_cons. split; [lia|apply not_elem_of_nil].
  - assert (Forall (λ k, 13%N ∉ esc_char (N.of_nat k)) (seq 0 128)) as Hall.
    { apply (bool_decide_unpack _). vm_compute. exact I. }
    rewrite Forall_forall in Hall. specialize (Hall (N.to_nat c)).
    rewrite N2Nat.id in Hall. apply Hall, elem_of_seq. lia.
Qed.

Lemma cr_not_in_enc_str s : 13%N ∉ enc_str s.
Proof.
  unfold enc_str. rewrite !not_elem_of_app. split; [|split].
  - apply not_elem_of_cons. split; [lia|apply not_elem_of_nil].
  - induction s as [|c s IH]; [apply not_elem_of_nil|]. cbn [flat_map].
    apply not_elem_of_app. split; [apply cr_not_in_esc_char|done].
  - apply not_elem_of_cons. split; [lia|apply not_elem_of_nil].
Qed.

Lemma cr_not_in_indent lvl : 13%N ∉ newline_indent lvl.
Proof.
  unfold newline_indent. apply not_elem_of_cons. split; [lia|].
  intros [H _]%elem_of_replicate. lia.
Qed.

Lemma cr_not_in_enc d : ∀ v lvl, json_ok d v = true → 13%N ∉ jenc lvl v.
Proof.
  assert (∀ s, Forall (λ a, Ascii.N_of_ascii a ≠ 13%N) (String.list_ascii_of_string s)
               → 13%N ∉ lit s) as Hlit by apply not_elem_of_lit.
  assert (∀ lvl, 13%N ∉ lit "," ++ newline_indent lvl) as Hsep.
  { intros lvl. apply not_elem_of_app. split; [by apply Hlit, (bool_decide_unpack _)|].
    apply cr_not_in_indent. }
  induction d as [|d IH]; intros v lvl Hok.
  - destruct v as [|[]|z|f|s|l|kvs]; try done;
      first [ by apply Hlit, (bool_decide_unpack _)
            | apply cr_not_in_pretty | apply cr_not_in_enc_str ].
  - destruct v as [|[]|z|f|s|l|kvs]; try done;
      try first [ by apply Hlit, (bool_decide_unpack _)
                | apply cr_not_in_pretty | apply cr_not_in_enc_str ].
    + cbn [json_ok] in Hok. rewrite forallb_forall in Hok.
      destruct l as [|v l]; [by apply Hlit, (bool_decide_unpack _)|].
      change (jenc lvl (JArr (v :: l)))
        with (lit "[" ++ newline_indent (S lvl)
              ++ join (lit "," ++ newline_indent (S lvl)) (jenc (S lvl) <$> v :: l)
              ++ newline_indent lvl ++ lit "]").
      rewrite !not_elem_of_app.
      split; [by apply Hlit, (bool_decide_unpack _)|].
      split; [apply cr_not_in_indent|].
      split; [|split; [apply cr_not_in_indent|by apply Hlit, (bool_decide_unpack _)]].
      apply not_elem_of_join; [apply Hsep|].
      apply Forall_fmap, Forall_forall. intros x Hx%list_elem_of_In.
      by apply IH, Hok.
    + cbn [json_ok] in Hok. apply andb_true_iff in Hok as [_ Hok].
      rewrite forallb_forall in Hok.
      destruct kvs as [|kv kvs]; [by apply Hlit, (bool_decide_unpack _)|].
      change (jenc lvl (JObj (kv :: kvs)))
        with (lit "{" ++ newline_indent (S lvl)
              ++ join (lit "," ++ newline_indent (S lvl))
                   (jmember (S lvl) <$> kv :: kvs)
              ++ newline_indent lvl ++ lit "}").
      rewrite !not_elem_of_app.
      split; [by apply Hlit, (bool_decide_unpack _)|].
      split; [apply cr_not_in_indent|].
      split; [|split; [apply cr_not_in_indent|by apply Hlit, (bool_decide_unpack _)]].
      apply not_elem_of_join; [apply Hsep|].
      apply Forall_fmap, Forall_forall. intros x Hx%list_elem_of_In.
      unfold compose, member_text. rewrite !not_elem_of_app.
      split; [apply cr_not_in_enc_str|].
      split; [by apply Hlit, (bool_decide_unpack _)|].
      by apply IH, Hok.
Qed.

End Decode.

(** ** How decoding fails *)

Lemma scan_string_Err s e : scan_string s = Err e → e = JSONDecodeError.
Proof.
  revert e. induction (Nat.lt_wf_0_projected length s) as [s _ IH]. intros e.
  assert (∀ r (f : pystr * pystr → pystr * pystr),
            length r < length s →
            (let* p := scan_string r in Ok (f p)) = Err e → e = JSONDecodeError) as Hrec.
  { intros r f Hr. destruct (scan_string r) as [p|e'] eqn:E; [done|].
    intros [= <-]. by eapply IH. }
  destruct s as [|c r]; [by intros [= <-]|]. cbn [scan_string].
  repeat case_match; subst; try (by intros [= <-]); try discriminate;
    try (apply Hrec; cbn [length]; lia).
Qed.

Lemma number_value_Err t e : number_value t = Err e → e = ValueError.
Proof.
  unfold number_value, py_int. repeat case_match; try done. cbn. by intros [= <-].
Qed.

Lemma scan_once_Err n : ∀ d s e,
  (scan_once n d s = Err e → decode_error e) ∧
  (∀ acc, array_items n d s acc = Err e → decode_error e) ∧
  (∀ acc, object_members n d s acc = Err e → decode_error e).
Proof.
  induction n as [|n IH]; intros d s e.
  - repeat split; intros; simplify_eq/=; by left.
  - assert (∀ d' s', scan_once n d' s' = Err e → decode_error e) as IH1
      by (intros d' s'; apply IH).
    assert (∀ d' s' acc, array_items n d' s' acc = Err e → decode_error e) as IH2
      by (intros d' s'; apply IH).
    assert (∀ d' s' acc, object_members n d' s' acc = Err e → decode_error e) as IH3
      by (intros d' s'; apply IH).
    clear IH.
    assert (∀ s' (k : json * pystr → result (json * pystr)),
              (∀ p, k p = Err e → decode_error e) →
              (let* p := scan_once n d s' in k p) = Err e → decode_error e) as Hbind.
    { intros s' k Hk. destruct (scan_once n d s') as [p|e'] eqn:E; cbn.
      - apply Hk.
      - intros [= ->]. by eapply IH1. }
    split; [|split].
    + cbn [scan_once]. destruct s as [|c r]; [intros [= <-]; by left|].
      repeat case_match; subst; try discriminate;
        try (intros [= <-]; first [by left | by (right; right)]);
        try apply IH2; try apply IH3.
      * destruct (scan_string r) as [p|e'] eqn:E; cbn; [done|].
        intros [= <-]. left. by eapply scan_string_Err.
      * match goal with
        | |- context [number_value ?t] =>
            destruct (number_value t) as [v|e'] eqn:E; cbn; [done|]
        end.
        intros [= <-]. right; left. by eapply number_value_Err.
    + intros acc. cbn [array_items]. apply Hbind. intros p.
      repeat case_match; subst; try (intros [= <-]; by left); try discriminate.
      apply IH2.
    + intros acc. cbn [object_members]. destruct s as [|q r0]; [intros [= <-]; by left|].
      case_match; [|intros [= <-]; by left].
      destruct (scan_string r0) as [k|e'] eqn:E; cbn [rbind];
        [|intros [= <-]; left; by eapply scan_string_Err].
      destruct (skip_ws k.2) as [|c r2]; [intros [= <-]; by left|].
      case_match; [|intros [= <-]; by left].
      apply Hbind. intros p.
      repeat case_match; subst; try (intros [= <-]; by left); try discriminate.
      apply IH3.
Qed.

(** [json.loads] fails with one of three exceptions. *)
Lemma json_decode_Err d text e : json_decode d text = Err e → decode_error e.
Proof.
  unfold json_decode.
  destruct (scan_once _ d _) as [p|e'] eqn:E; cbn.
  - case_match; [done|]. intros [= <-]. by left.
  - intros [= <-]. by eapply (proj1 (scan_once_Err _ _ _ _)).
Qed.

(** ** The step bound

    Every step of the scanner consumes at least one character, so the
    bound [json_decode] starts with is never reached: with any larger
    bound the result is the same. *)

Lemma skip_ws_length s : length (skip_ws s) ≤ length s.
Proof.
  induction s as [|c s IH]; [done|]. cbn. destruct (is_json_ws c); cbn; lia.
Qed.

Lemma span_digits_length s : length (span_digits s).2 ≤ length s.
Proof.
  induction s as [|c s IH]; [done|]. cbn. destruct (is_digit c); cbn; lia.
Qed.

Lemma strip_prefix_length p s r :
  strip_prefix p s = Some r → length s = length p + length r.
Proof.
  revert s. induction p as [|a p IH]; intros s; cbn.
  - by intros [= ->].
  - destruct s as [|b s]; [done|]. destruct (a =? b)%N; [|done].
    intros H%IH. cbn. lia.
Qed.

Lemma scan_constant_rest s p :
  scan_constant constants s = Some p → length p.2 < length s.
Proof.
  unfold constants. cbn [scan_constant].
  repeat (destruct (strip_prefix _ s) as [r|] eqn:E;
          [intros [= <-]; apply strip_prefix_length in E; cbn in *; lia|clear E]).
  done.
Qed.

Lemma match_number_rest s t r : match_number s = Some (t, r) → length r < length s.
Proof.
  assert (∀ neg s', match_unsigned neg s' = Some (t, r) → length r < length s') as Hu.
  { intros neg s'. unfold match_unsigned.
    destruct (match_int s') as [[int r1]|] eqn:Ei; [|done].
    cbv zeta. intros [= _ <-].
    assert (length r1 < length s') as H1.
    { unfold match_int in Ei. destruct s' as [|c r']; [done|].
      pose proof (span_digits_length r').
      repeat case_match; simplify_eq/=; lia. }
    assert (length (match_frac r1).2 ≤ length r1) as H2.
    { unfold match_frac. destruct r1 as [|p [|c r']]; [done..|].
      pose proof (span_digits_length r'). case_match; cbn in *; lia. }
    assert (∀ x, length (match_exp x).2 ≤ length x) as H3.
    { intros x. unfold match_exp. destruct x as [|e r']; [done|].
      case_match; [|done]. cbv zeta.
      match goal with |- context [span_digits ?y] =>
        pose proof (span_digits_length y) as Hy;
        assert (length y ≤ length r') as Hy'
          by (destruct r'; [done|]; repeat case_match; cbn; lia);
        destruct (span_digits y) as [[|q1 q] q2]
      end; cbn in *; lia. }
    specialize (H3 (match_frac r1).2). lia. }
  unfold match_number. destruct s as [|c r']; [done|].
  case_match; intros Hrec%Hu; cbn in *; lia.
Qed.

Lemma scan_string_rest s : ∀ t r, scan_string s = Ok (t, r) → length r < length s.
Proof.
  induction (Nat.lt_wf_0_projected length s) as [s _ IH]. intros t r.
  assert (∀ x (f : pystr → pystr),
            length x < length s →
            (let* p := scan_string x in Ok (f p.1, p.2)) = Ok (t, r) →
            length r < length s) as Hrec.
  { intros x f Hx. destruct (scan_string x) as [[t' r']|e'] eqn:E; [|done].
    cbn. intros [= _ <-]. apply IH in E; [lia|done]. }
  destruct s as [|c x]; [done|]. cbn [scan_string].
  repeat case_match; subst; try discriminate;
    try (intros [= _ <-]; cbn [length]; lia);
    try (apply Hrec; cbn [length]; lia).
Qed.

(** A scan that succeeds has consumed something. *)
Lemma scan_once_rest n : ∀ d s v r,
  (scan_once n d s = Ok (v, r) → length r < length s) ∧
  (∀ acc, array_items n d s acc = Ok (v, r) → length r < length s) ∧
  (∀ acc, object_members n d s acc = Ok (v, r) → length r < length s).
Proof.
  induction n as [|n IH]; intros d s v r; [done|].
  assert (∀ d' s', scan_once n d' s' = Ok (v, r) → length r < length s') as IH1
    by (intros d' s'; apply IH).
  assert (∀ d' s' acc, array_items n d' s' acc = Ok (v, r) → length r < length s')
    as IH2 by (intros d' s'; apply IH).
  assert (∀ d' s' acc, object_members n d' s' acc = Ok (v, r) → length r < length s')
    as IH3 by (intros d' s'; apply IH).
  assert (∀ d' s' p, scan_once n d' s' = Ok p → length p.2 < length s') as IH0.
  { intros d' s' [v' r']. apply IH. }
  clear IH.
  split; [|split].
  - cbn [scan_once]. destruct s as [|c x]; [done|].
    pose proof (skip_ws_length x) as Hws.
    destruct (skip_ws x) as [|c' x'] eqn:Ex;
      repeat case_match; subst; try discriminate;
      try (intros [= _ <-]; cbn [length] in *; lia);
      try (intros Hrec%IH3; cbn [length] in *; lia);
      try (intros Hrec%IH2; cbn [length] in *; lia);
      try (intros [= ->];
           match goal with
           | H : scan_constant _ _ = Some _ |- _ => by apply scan_constant_rest in H
           end);
      try (destruct (scan_string x) as [[t' r']|e'] eqn:E; [|done];
           cbn; intros [= _ <-]; apply scan_string_rest in E; cbn; lia);
      try (match goal with
           | H : match_number _ = Some _ |- _ => apply match_number_rest in H
           end;
           destruct (number_value _); [|done]; by intros [= _ <-]).
  - intros acc. cbn [array_items].
    destruct (scan_once n d s) as [p|e'] eqn:E; [|done]. apply IH0 in E. cbn [rbind].
    pose proof (skip_ws_length p.2) as Hws.
    destruct (skip_ws p.2) as [|c x]; [done|].
    repeat case_match; subst; try discriminate.
    + intros [= _ <-]. cbn in *. lia.
    + intros Hrec%IH2. pose proof (skip_ws_length x). cbn in *. lia.
  - intros acc. cbn [object_members]. destruct s as [|q r0]; [done|].
    case_match; [|done].
    destruct (scan_string r0) as [[k r1]|e'] eqn:Ek; [|done].
    apply scan_string_rest in Ek. cbn [rbind fst snd].
    pose proof (skip_ws_length r1) as Hws1.
    destruct (skip_ws r1) as [|c r2]; [done|].
    case_match; [|done].
    pose proof (skip_ws_length r2) as Hws2.
    destruct (scan_once n d (skip_ws r2)) as [p|e'] eqn:E; [|done]. apply IH0 in E.
    cbn [rbind].
    pose proof (skip_ws_length p.2) as Hws.
    destruct (skip_ws p.2) as [|c' x]; [done|].
    repeat case_match; subst; try discriminate.
    + intros [= _ <-]. cbn in *. lia.
    + intros Hrec%IH3. pose proof (skip_ws_length x). cbn in *. lia.
Qed.

(** More steps than twice the length of the text change nothing. *)
Lemma scan_once_steps n : ∀ m d s, n ≤ m →
  (2 * length s < n → scan_once n d s = scan_once m d s) ∧
  (∀ acc, 2 * length s + 1 < n → array_items n d s acc = array_items m d s acc) ∧
  (∀ acc, 2 * length s + 1 < n →
          object_members n d s acc = object_members m d s acc).
Proof.
  induction n as [|n IH]; intros m d s Hm; [repeat split; intros; lia|].
  destruct m as [|m]; [lia|].
  assert (∀ d' s', 2 * length s' < n → scan_once n d' s' = scan_once m d' s') as IH1
    by (intros d' s'; apply IH; lia).
  assert (∀ d' s' acc, 2 * length s' + 1 < n →
            array_items n d' s' acc = array_items m d' s' acc) as IH2
    by (intros d' s'; apply IH; lia).
  assert (∀ d' s' acc, 2 * length s' + 1 < n →
            object_members n d' s' acc = object_members m d' s' acc) as IH3
    by (intros d' s'; apply IH; lia).
  clear IH.
  split; [|split].
  - intros Hn. cbn [scan_once]. destruct s as [|c x]; [done|].
    pose proof (skip_ws_length x) as Hws. cbn [length] in Hn.
    destruct (skip_ws x) as [|c' x'] eqn:Ex;
      repeat case_match; subst; try done;
      first [apply IH3 | apply IH2]; cbn [length] in *; lia.
  - intros acc Hn. cbn [array_items]. rewrite <- IH1 by lia.
    destruct (scan_once n d s) as [[v r]|e'] eqn:E; [|done].
    apply (proj1 (scan_once_rest n d s v r)) in E. cbn [fst snd].
    cbn [rbind fst snd]. pose proof (skip_ws_length r) as Hws.
    destruct (skip_ws r) as [|c x]; [done|].
    repeat case_match; subst; try done.
    apply IH2. pose proof (skip_ws_length x). cbn [length] in *. lia.
  - intros acc Hn. cbn [object_members]. destruct s as [|q r0]; [done|].
    case_match; [|done].
    destruct (scan_string r0) as [[k r1]|e'] eqn:Ek; [|done].
    apply scan_string_rest in Ek. cbn [rbind fst snd].
    pose proof (skip_ws_length r1) as Hws1.
    destruct (skip_ws r1) as [|c r2]; [done|].
    case_match; [|done].
    pose proof (skip_ws_length r2) as Hws2. cbn [length] in *.
    rewrite <- IH1 by lia.
    destruct (scan_once n d (skip_ws r2)) as [[v r]|e'] eqn:E; [|done].
    apply (proj1 (scan_once_rest n d _ v r)) in E.
    cbn [rbind fst snd]. pose proof (skip_ws_length r) as Hws.
    destruct (skip_ws r) as [|c' x]; [done|].
    repeat case_match; subst; try done.
    apply IH3. pose proof (skip_ws_length x). cbn [length] in *. lia.
Qed.

(** [json_decode] with any larger bound. *)
Lemma json_decode_steps d text m :
  2 * length text + 2 ≤ m →
  json_decode d text
  = let* p := scan_once m d (skip_ws text) in
    if skip_ws p.2 is [] then Ok p.1 else Err JSONDecodeError.
Proof.
  intros Hm. unfold json_decode.
  rewrite (proj1 (scan_once_steps (2 * length text + 2) m d (skip_ws text) Hm)); [done|].
  pose proof (skip_ws_length text). lia.
Qed.

(** * Loading *)

Section LoadProps.

Variable here : pystr.
Variable float_repr : spec_float → pystr.

(** The number of nested containers the interpreter allows. *)
Variable depth : nat.


End LoadProps.

(** * The normalization key *)

Lemma split_from_lstrip s : split_from [] (lstrip s) = split_from [] s.
Proof.
  induction s as [|c s IH]; [done|]. cbn [lstrip split_from].
  destruct (is_space c) eqn:E; [done|]. cbn [split_from]. by rewrite E.
Qed.

Lemma split_from_rstrip s : ∀ cur, split_from cur (rstrip s) = split_from cur s.
Proof.
  induction s as [|c s IH]; intros cur; [done|].
  rewrite rstrip_cons. cbn [split_from].
  destruct (rstrip s) as [|x t] eqn:Er.
  - destruct (is_space c) eqn:E.
    + rewrite <- (IH []). by destruct cur.
    + cbn [split_from]. rewrite E. by rewrite <- (IH (c :: cur)).
  - change (split_from cur (c :: x :: t))
      with (if is_space c
            then (if cur is [] then split_from [] (x :: t)
                  else reverse cur :: split_from [] (x :: t))
            else split_from (c :: cur) (x :: t)).
    by rewrite !IH.
Qed.

Lemma split_strip s : split (strip s) = split s.
Proof. unfold split, strip. by rewrite split_from_rstrip, split_from_lstrip. Qed.

(** X16.  What the key is.  When lower-casing works word by word (the
    words of the lower-cased text are the lower-cased words of the text),
    the normalization key of a question is its words, lower-cased and
    joined by single spaces: leading, trailing and repeated whitespace
    play no part, and stripping the question first changes nothing. *)
Theorem norm_key_words (lower : pystr → pystr) question :
  (∀ s, split (lower s) = lower <$> split s) →
  norm_key lower question = join (lit " ") (lower <$> split question) ∧
  norm_key lower question = norm lower question.
Proof.
  intros Hwords. unfold norm_key, norm.
  by rewrite !Hwords, split_strip.
Qed.

Lemma is_space_printable c : (33 ≤ c ≤ 132)%N → is_space c = false.
Proof.
  intros Hc. unfold is_space.
  repeat match goal with
  | |- context [(?a <=? ?b)%N] => destruct (N.leb_spec a b); try lia
  | |- context [(?a =? ?b)%N] => destruct (N.eqb_spec a b); try lia
  end.
  all: reflexivity.
Qed.

Lemma ascii_lower_cons c s :
  ascii_lower (c :: s)
  = (if (65 <=? c)%N && (c <=? 90)%N then (c + 32)%N else c) :: ascii_lower s.
Proof. done. Qed.

Lemma ascii_lower_reverse s : reverse (ascii_lower s) = ascii_lower (reverse s).
Proof. unfold ascii_lower. by rewrite fmap_reverse. Qed.

Lemma split_from_ascii_lower s : ∀ cur,
  split_from (ascii_lower cur) (ascii_lower s) = ascii_lower <$> split_from cur s.
Proof.
  induction s as [|c s IH]; intros cur.
  - destruct cur as [|x cur]; [done|].
    change (split_from (x :: cur) []) with [reverse (x :: cur)].
    rewrite fmap_cons, fmap_nil, <- ascii_lower_reverse. done.
  - rewrite ascii_lower_cons.
    set (c' := if (65 <=? c)%N && (c <=? 90)%N then (c + 32)%N else c).
    assert (is_space c' = is_space c) as Hsp.
    { unfold c'. destruct ((65 <=? c)%N && (c <=? 90)%N) eqn:E; [|done].
      apply andb_true_iff in E as [?%N.leb_le ?%N.leb_le].
      rewrite !is_space_printable by lia. done. }
    cbn [split_from]. rewrite Hsp. destruct (is_space c).
    + pose proof (IH []) as IH0. change (ascii_lower []) with ([] : pystr) in IH0.
      destruct cur as [|x cur]; [exact IH0|].
      rewrite ascii_lower_cons. cbn match. rewrite <- ascii_lower_cons.
      by rewrite IH0, fmap_cons, <- ascii_lower_reverse.
    + apply (IH (c :: cur)).
Qed.

Lemma ascii_lower_words s : split (ascii_lower s) = ascii_lower <$> split s.
Proof. apply (split_from_ascii_lower s []). Qed.

(** * Concrete runs of the loader *)



(** What the decoder makes of some texts: an integer of 4301 digits is
    refused with [ValueError], one of 4300 digits is read; more nested
    containers than the interpreter allows end with [RecursionError]; a
    number with a fraction is a float, rounded to the nearest; the two
    escapes of a surrogate pair give one character; of two equal keys the
    first keeps its place and the last its value. *)
Example json_decode_runs :
  json_decode depth0 (replicate 4301 49%N) = Err ValueError ∧
  json_decode depth0 (replicate 4300 49%N)
  = Ok (JInt (Z.of_N (digits_val (replicate 4300 49%N)))) ∧
  json_decode 2 (lit "[[[]]]") = Err RecursionError ∧
  json_decode 3 (lit "[[[]]]") = Ok (JArr [JArr [JArr []]]) ∧
  json_decode depth0 (lit "0.1") = Ok (JFloat (S754_finite false 7205759403792794 (-56))) ∧
  json_decode depth0 (lit "-1e400") = Ok (JFloat (S754_infinity true)) ∧
  json_decode depth0 ([34%N] ++ lit "\ud83d\ude00" ++ [34%N]) = Ok (JStr [128512%N]) ∧
  json_decode depth0 ([34%N] ++ lit "\ud83d" ++ [34%N]) = Ok (JStr [55357%N]) ∧
  json_decode depth0 (lit "{" ++ [34%N; 97%N; 34%N] ++ lit ":1," ++ [34%N; 98%N; 34%N]
                      ++ lit ":2," ++ [34%N; 97%N; 34%N] ++ lit ":3}")
  = Ok (JObj [(lit "a", JInt 3); (lit "b", JInt 2)]) ∧
  json_decode depth0 (lit "[1,]") = Err JSONDecodeError ∧
  json_decode depth0 (lit "[1] x") = Err JSONDecodeError.
Proof. repeat split; vm_compute; reflexivity. Qed.

(** * Concrete runs of the further properties *)

(** The count for the five-record input: two keys. *)
Lemma dedupe_count_run :
  let items := [qa " Size? " "L" false; qa "What color?" "" false; qa "  " "x" true;
                qa "what   color?" "Blue" true; qa "SIZE?" "M" false] in
  let out := [qa "Size?" "L" false; qa "What color?" "Blue" true] in
  length out
  = size (list_to_set (filter (λ k, k ≠ []) (key_of ascii_lower <$> items))
          : gset pystr) ∧
  length out ≤ length items.
Proof.
  intros items out. apply (dedupe_count ascii_lower items out).
  vm_compute. reflexivity.
Defined.

(** The shape of the output for the same input. *)
Lemma dedupe_output_shape_run :
  Forall (λ r, ∃ q a o, r = JObj (mk_obj q a o) ∧ strip q = q ∧
                        key_of ascii_lower r = norm ascii_lower q ∧
                        norm ascii_lower q ≠ [])
    [qa "Size?" "L" false; qa "What color?" "Blue" true].
Proof.
  apply (dedupe_output_shape ascii_lower
           [qa " Size? " "L" false; qa "What color?" "" false; qa "  " "x" true;
            qa "what   color?" "Blue" true; qa "SIZE?" "M" false]).
  vm_compute. reflexivity.
Defined.

(** Three records with three keys and one record with a blank question;
    the third record has no answer and no optional flag. *)
Lemma dedupe_without_duplicates_run :
  let items := [qa " Size? " "L" false; qa "   " "x" true; qa "Color?" "" true;
                JObj [(k_question, JStr (lit "Why?"))]] in
  dedupe ascii_lower items
  = Ok ((λ it, JObj (fresh_obj it))
          <$> filter (λ it, key_of ascii_lower it ≠ []) items).
Proof.
  intros items. apply (dedupe_without_duplicates ascii_lower items).
  - reflexivity.
  - apply (bool_decide_unpack _). vm_compute. exact I.
Defined.

(** The answer kept for [what color?]: the first non-empty one. *)
Lemma dedupe_answer_first_nonempty_run :
  let items := [qa "What color?" "" false; qa "Size?" "L" false;
                qa "what   color?" "Blue" true; qa "WHAT COLOR?" "Red" false] in
  py_get (qa "What color?" "Blue" true) k_answer JNull
  = Ok (chosen_answer
          (group ascii_lower (key_of ascii_lower (qa "What color?" "Blue" true)) items)).
Proof.
  intros items.
  apply (dedupe_answer_first_nonempty ascii_lower items
           [qa "What color?" "Blue" true; qa "Size?" "L" false] 0).
  - vm_compute. reflexivity.
  - reflexivity.
Defined.

(** The optional flag kept for [what color?]: one record of three has it. *)
Lemma dedupe_optional_or_run :
  let items := [qa "What color?" "" false; qa "Size?" "L" false;
                qa "what   color?" "Blue" true; qa "WHAT COLOR?" "Red" false] in
  ∃ o, py_get (qa "What color?" "Blue" true) k_optional JNull = Ok o ∧
       truthy o
       = existsb (λ it, truthy (item_optional it))
           (group ascii_lower (key_of ascii_lower (qa "What color?" "Blue" true))
              items).
Proof.
  intros items.
  apply (dedupe_optional_or ascii_lower items
           [qa "What color?" "Blue" true; qa "Size?" "L" false] 0).
  - vm_compute. reflexivity.
  - reflexivity.
Defined.

(** The filler on two records with three lines of input: one line is
    left. *)
Lemma interactive_fill_console_only_run :
  let items := [qa "Size?" "" false; qa "What color?" "Blue" true] in
  let w := world_with (lit "[]") [lit " XL"; lit "  "; lit "left"] in
  let w' := World (fs w) [lit "left"]
              [EvPrint (msg_question ++ lit "Size?" ++ [10%N]);
               EvPrint (msg_reponse_actuelle ++ msg_vide ++ [10%N]);
               EvPrint msg_nouvelle_reponse;
               EvInput (lit " XL");
               EvPrint (msg_question ++ lit "What color?" ++ [10%N]);
               EvPrint (msg_reponse_actuelle ++ lit "Blue" ++ [10%N]);
               EvPrint msg_nouvelle_reponse;
               EvInput (lit "  ")] in
  fs w' = fs w ∧
  length items ≤ length (stdin w) ∧ stdin w' = drop (length items) (stdin w) ∧
  ∃ evs, trace w' = trace w ++ evs ∧ forallb console_event evs = true.
Proof.
  intros items w w'.
  apply (interactive_fill_console_only items w
           [qa "Size?" "XL" false; qa "What color?" "Blue" true] w').
  vm_compute. reflexivity.
Defined.

(** A numeric answer stops the filler with [TypeError]. *)
Lemma interactive_fill_failures_run :
  let c := [(lit "Size?", JStr [], JBool false); (lit "Age?", JInt 5, JBool false)] in
  let w := world_with (lit "[]") [lit "XL"; lit "7"] in
  (TypeError = EOFError ∧ length (stdin w) < length c) ∨
  (TypeError = TypeError ∧ existsb (λ r, negb (showable r.1.2)) c = true) ∨
  (TypeError = UnicodeEncodeError
   ∧ existsb (λ r, negb (record_printable r)) c = true).
Proof.
  intros c w. apply (interactive_fill_failures c w TypeError).
  vm_compute. reflexivity.
Defined.

(** Two records and one line of input. *)
Lemma interactive_fill_out_of_input_run :
  interactive_fill
    (record_json <$> [(lit "Size?", JStr [], JBool false);
                      (lit "Color?", JNull, JBool true)])
    (world_with (lit "[]") [lit "XL"])
  = Raise EOFError.
Proof.
  apply (interactive_fill_out_of_input
           [(lit "Size?", JStr [], JBool false); (lit "Color?", JNull, JBool true)]
           (world_with (lit "[]") [lit "XL"])).
  - reflexivity.
  - vm_compute. reflexivity.
  - vm_compute. lia.
Defined.


(** The backup after the run on the two spellings of one question. *)
Lemma main_backup_and_frame_run :
  let old := dumps no_float
               (JArr [qa "What color?" "" false; qa "what   color?" "Blue" true]) in
  let new := dumps no_float (JArr [qa "What color?" "Blue" true]) in
  let w := world_with old [] in
  let w' := World (<[DATA here0 := file_of new]>
                     (<[BACKUP here0 := file_of old]> {[ DATA here0 := file_of old ]}))
              []
              [EvExists (DATA here0) true; EvCopy (DATA here0) (BACKUP here0);
               EvRead (DATA here0); EvWrite (DATA here0);
               EvPrint (lit "Nettoy" ++ [233%N] ++ lit " et enregistr" ++ [233%N]
                        ++ lit " 1 questions dans " ++ DATA here0
                        ++ lit " (backup: " ++ BACKUP here0 ++ lit ")" ++ [10%N])] in
  match fs w !! DATA here0 with
  | None => fs w' = fs w
  | Some bs =>
      fs w' !! BACKUP here0 = Some bs ∧
      (∃ (c : list record) bs',
          fs w' !! DATA here0 = Some bs' ∧
          utf8_encode (dumps no_float (JArr (record_json <$> c))) = Some bs') ∧
      ∀ p, p ≠ DATA here0 → p ≠ BACKUP here0 → fs w' !! p = fs w !! p
  end.
Proof.
  intros old new w w'.
  apply (main_backup_and_frame ascii_lower here0 json_loads0 no_float
           {| dedupe_only := true; interactive := false |} w w').
  vm_compute. reflexivity.
Defined.

(** A data file that holds the empty object. *)
Lemma main_on_non_array_run :
  let w := world_with (lit "{}") [] in
  main ascii_lower here0 json_loads0 no_float
    {| dedupe_only := false; interactive := true |} w =
  Done ()
    (World (<[DATA here0 := [Byte.x5b; Byte.x5d]]>
              (<[BACKUP here0 := file_of (lit "{}")]> (fs w)))
       (stdin w)
       (trace w ++
        [EvExists (DATA here0) true; EvCopy (DATA here0) (BACKUP here0);
         EvRead (DATA here0); EvWrite (DATA here0);
         EvPrint (lit "Nettoy" ++ [233%N] ++ lit " et enregistr" ++ [233%N]
                  ++ lit " 0 questions dans " ++ DATA here0
                  ++ lit " (backup: " ++ BACKUP here0 ++ lit ")" ++ [10%N])])).
Proof.
  intros w.
  apply (main_on_non_array ascii_lower here0 json_loads0 no_float
           here0_printable
           {| dedupe_only := false; interactive := true |} w
           (file_of (lit "{}")) (JObj [])).
  - vm_compute. reflexivity.
  - vm_compute. reflexivity.
Defined.

(** Saving one record and loading it again. *)
Lemma save_then_load_run :
  let data := JArr [qa "What color?" "Blue" true] in
  let w := world_with (lit "[]") [] in
  let w' := World (<[DATA here0 := file_of (dumps no_float data)]> (fs w)) []
              [EvWrite (DATA here0)] in
  load here0 json_loads0 w' =
  match json_loads0 (universal_newlines (dumps no_float data)) with
  | Ok v => Done v (log (EvRead (DATA here0)) w')
  | Err e => Raise e
  end.
Proof.
  intros data w w'.
  apply (save_then_load here0 json_loads0 no_float data w w').
  vm_compute. reflexivity.
Defined.

(** Two runs of the fill tool on the two spellings of one question. *)
Lemma main_rerun_run :
  let items := [qa "What color?" "" false; qa "what   color?" "Blue" true] in
  let w := world_with (dumps no_float (JArr items)) [] in
  let args := {| dedupe_only := true; interactive := false |} in
  ∃ w1 w2 bs1,
    main ascii_lower here0 json_loads0 no_float args w = Done () w1 ∧
    main ascii_lower here0 json_loads0 no_float args w1 = Done () w2 ∧
    fs w1 !! DATA here0 = Some bs1 ∧
    fs w2 !! DATA here0 = Some bs1 ∧
    fs w2 !! BACKUP here0 = Some bs1.
Proof.
  intros items w args.
  apply (main_rerun ascii_lower here0 json_loads0 no_float here0_printable args w
           (file_of (dumps no_float (JArr items))) (JArr items) items
           [qa "What color?" "Blue" true]).
  - vm_compute. reflexivity.
  - vm_compute. reflexivity.
  - reflexivity.
  - vm_compute. reflexivity.
  - reflexivity.
  - apply (bool_decide_unpack _). vm_compute. exact I.
  - vm_compute. reflexivity.
Defined.

(** The key of a question with stray whitespace and capitals. *)
Lemma norm_key_words_run :
  norm_key ascii_lower (lit "  What   COLOR? ")
  = join (lit " ") (ascii_lower <$> split (lit "  What   COLOR? ")) ∧
  norm_key ascii_lower (lit "  What   COLOR? ")
  = norm ascii_lower (lit "  What   COLOR? ").
Proof.
  apply (norm_key_words ascii_lower (lit "  What   COLOR? ")).
  apply ascii_lower_words.
Defined.
